(** * Nostalgic persuasive model: server handlers and bandit core

    A shallow embedding of the TypeScript server code (error-handling
    utilities, the preferences, admin-statistics, feedback, interaction and
    movie-candidate handlers) and of the LinUCB decision core described by
    the specification, with the properties claimed of them.

    Conventions of the embedding:
    - a finite JavaScript number is the rational it stands for ([Q]); the
      values the handlers compare (stress readings, counts, years) are
      decoded from JSON or read from integer columns, so they are finite,
      and what the handlers compute from them is rounded to binary64;
    - a string is its UTF-8 encoding, one [ascii] per byte;
    - an [await]ed call is a function of the world that either returns or
      throws; the effects a handler performs are recorded, in order, in an
      event log next to the world it leaves behind;
    - collaborators that live outside the TypeScript sources (the database
      engine, the FastAPI service, the session layer, the id generator) are
      parameters of the handlers. *)

From Stdlib Require Import ZArith QArith Qabs Qround Qpower Lqa Lia Bool List String Ascii.
From Stdlib Require Import Decimal DecimalString DecimalNat SpecFloat.
From stdpp Require Import gmap strings list fin_maps.
Import ListNotations.

#[local] Set Warnings "-register-all".
#[local] Open Scope string_scope.

(* ===================================================================== *)
(** * Part I: definitions                                                  *)
(* ===================================================================== *)

(** ** JavaScript values shared by the handlers *)

Module Js.

(** A decoded JSON document (the result of [JSON.parse] on a request body). *)
Inductive json : Type :=
  | JNull
  | JBool (b : bool)
  | JNum (q : Q)
  | JStr (s : string)
  | JArr (l : list json)
  | JObj (m : gmap string json).

(** [x || d] on strings: the empty string and [undefined] are falsy. *)
Definition or_default (x : option string) (d : string) : string :=
  match x with
  | Some s => if String.eqb s "" then d else s
  | None => d
  end.

(** Truthiness of an optional finite number: [undefined], [null] and [0]
    are falsy. *)
Definition truthy_num (x : option Q) : bool :=
  match x with
  | Some q => negb (Qeq_bool q 0)
  | None => false
  end.

Definition truthyZ (x : option Z) : bool :=
  match x with
  | Some z => negb (z =? 0)%Z
  | None => false
  end.

End Js.

(** ** JavaScript numbers: binary64

    A finite JavaScript number is a rational of the form [m * 2 ^ e] with
    [|m| < 2 ^ 53] and [-1074 <= e]; the result of an arithmetic operation
    is the exact result rounded to the nearest such number, the one with an
    even [m] when two are equally near (IEEE 754, round to nearest, ties to
    even).  The sign of a zero is not tracked. *)

Module Double.

Definition pow2 (e : Z) : Q := (2 ^ e)%Q.

(** The integer part of the binary logarithm of a positive rational: the
    difference of the bit lengths of numerator and denominator, or one
    less. *)
Definition floor_log2 (q : Q) : Z :=
  let k := (Z.log2 (Qnum q) - Z.log2 (Zpos (Qden q)))%Z in
  if Qle_bool (pow2 k) q then k else (k - 1)%Z.

(** The exponent of the last place of the binary64 numbers around [q]: 53
    significant bits, and never below the exponent of the subnormal
    numbers. *)
Definition last_place (q : Q) : Z := Z.max (floor_log2 (Qabs q) - 52) (-1074).

(** The nearest integer, the even one of two that are equally near. *)
Definition nearest_even (q : Q) : Z :=
  let f := Qfloor q in
  match Qcompare (q - inject_Z f) (1 # 2) with
  | Lt => f
  | Gt => (f + 1)%Z
  | Eq => if Z.even f then f else (f + 1)%Z
  end.

(** Rounding to the nearest binary64 number, before the range check. *)
Definition round (q : Q) : Q :=
  if Qeq_bool q 0 then 0%Q
  else let e := last_place q in
       Qred (inject_Z (nearest_even (q / pow2 e)) * pow2 e).

(** A rounded result from [2 ^ 1024] on is out of range. *)
Definition out_of_range (r : Q) : bool := Qle_bool (pow2 1024) (Qabs r).

(** [Number.MAX_SAFE_INTEGER]: up to it every integer is a binary64
    number. *)
Definition MAX_SAFE_INTEGER : Z := 9007199254740991.

(** The number for the integer [n], which is an integer again, or [None]
    when it is out of range (an infinity). *)
Definition of_integer (n : Z) : option Z :=
  let r := round (inject_Z n) in
  if out_of_range r then None else Some (Qfloor r).

(** The Standard Library specifies the arithmetic of IEEE 754 on its own
    representation, [spec_float]; binary64 has 53 bits of precision and
    infinities at exponent 1024.  [agrees_with_reference a b] tells whether
    the percentage of [a] in [b] that the reference division and
    multiplication compute is the one [round] gives. *)
Definition of_spec_float (f : spec_float) : option Q :=
  match f with
  | S754_zero _ => Some 0%Q
  | S754_finite s m e => Some (Qred ((if s then -1 else 1) * inject_Z (Zpos m) * pow2 e))
  | _ => None
  end.

Definition binary64 (n : Z) : spec_float := binary_normalize 53 1024 n 0 false.

Definition agrees_with_reference (a b : Z) : bool :=
  let quotient := SFdiv 53 1024 (binary64 a) (binary64 b) in
  let percent := SFmul 53 1024 quotient (binary64 100) in
  match of_spec_float quotient, of_spec_float percent with
  | Some q, Some p =>
      (Qeq_bool q (round (inject_Z a / inject_Z b)) && Qeq_bool p (round (q * 100)))%bool
  | _, _ => false
  end.

End Double.

(** ** shared/utils/error-handling.ts *)

Module ErrorHandling.

(** A thrown value.  [err instanceof E] walks the prototype chain of the
    thrown value, so the value carries the names of the classes on its
    chain (empty for a thrown primitive). *)
Record Thrown : Type := mkThrown {
  thrown_chain : list string;
  thrown_message : string
}.

Definition instanceof (err : Thrown) (E : string) : bool :=
  existsb (String.eqb E) (thrown_chain err).

(** The fate of a promise. *)
Inductive Settled (T : Type) : Type :=
  | Resolves (v : T)
  | Rejects (e : Thrown)
  | Pending.
Arguments Resolves {T} v.
Arguments Rejects {T} e.
Arguments Pending {T}.

(** [Promise<T> | T] *)
Inductive PromiseOrValue (T : Type) : Type :=
  | Value (v : T)
  | Promise (s : Settled T).
Arguments Value {T} v.
Arguments Promise {T} s.

(** [await Promise.resolve(x)] *)
Definition await_resolve {T} (x : PromiseOrValue T) : Settled T :=
  match x with
  | Value v => Resolves v
  | Promise s => s
  end.

(** How a call of an async function ends. *)
Inductive Completion (A : Type) : Type :=
  | Returns (a : A)
  | Throws (e : Thrown)
  | NeverSettles.
Arguments Returns {A} a.
Arguments Throws {A} e.
Arguments NeverSettles {A}.

(** [errorsToCatch === undefined || errorsToCatch.some((E) => err instanceof E)] *)
Definition should_catch (err : Thrown) (errorsToCatch : option (list string)) : bool :=
  match errorsToCatch with
  | None => true
  | Some classes => existsb (fun E => instanceof err E) classes
  end.

(** [catchError]: the [[error, data]] tuple; [None] stands for [undefined]. *)
Definition catchError {T} (promiseOrValue : PromiseOrValue T)
    (errorsToCatch : option (list string))
  : Completion (option Thrown * option T) :=
  match await_resolve promiseOrValue with
  | Resolves data => Returns (None, Some data)
  | Rejects err =>
      if should_catch err errorsToCatch
      then Returns (Some err, None)
      else Throws err
  | Pending => NeverSettles
  end.

(** [Result<T, E>] *)
Inductive Result (T E : Type) : Type :=
  | ResOk (data : T)
  | ResErr (error : E).
Arguments ResOk {T E} data.
Arguments ResErr {T E} error.

Definition ok {T E} (data : T) : Result T E := ResOk data.
Definition err {T E} (error : E) : Result T E := ResErr error.

(** What calling [fn()] does: it throws synchronously, or hands back a
    value or a promise. *)
Inductive Call (T : Type) : Type :=
  | CallThrows (e : Thrown)
  | CallReturns (x : PromiseOrValue T).
Arguments CallThrows {T} e.
Arguments CallReturns {T} x.

(** [await fn()] *)
Definition await_call {T} (fn : unit -> Call T) : Settled T :=
  match fn tt with
  | CallThrows e => Rejects e
  | CallReturns x => await_resolve x
  end.

Definition tryCatch {T} (fn : unit -> Call T) : Completion (Result T Thrown) :=
  match await_call fn with
  | Resolves data => Returns (ok data)
  | Rejects error => Returns (err error)
  | Pending => NeverSettles
  end.

End ErrorHandling.

(** ** server/api/habits/preferences.get.ts *)

Module Preferences.

Record Prefs : Type := mkPrefs {
  birthYear : option Z;
  habitType : string;
  experimentGroup : string;
  researchConsent : bool;
  onboardingCompletedAt : option string
}.

Record PreferencesView : Type := mkView {
  prefs : Prefs;
  nostalgicPeriodStart : option Z;
  nostalgicPeriodEnd : option Z
}.

Record Response : Type := mkResponse {
  preferences : option PreferencesView;
  onboardingComplete : bool
}.

(** [prefs.birthYear ? prefs.birthYear + 5 : null] *)
Definition nostalgic_start (birthYear : option Z) : option Z :=
  if Js.truthyZ birthYear
  then match birthYear with Some y => Some (y + 5)%Z | None => None end
  else None.

(** [prefs.birthYear ? Math.min(prefs.birthYear + 19, new Date().getFullYear() - 1) : null];
    [fullYear] is the calendar year the handler runs in. *)
Definition nostalgic_end (fullYear : Z) (birthYear : option Z) : option Z :=
  if Js.truthyZ birthYear
  then match birthYear with
       | Some y => Some (Z.min (y + 19) (fullYear - 1))
       | None => None
       end
  else None.

(** The handler after authentication; [row] is the first row of the
    [userPreferences] query, if any. *)
Definition handler (fullYear : Z) (row : option Prefs) : Response :=
  match row with
  | None => {| preferences := None; onboardingComplete := false |}
  | Some p =>
      {| preferences :=
           Some {| prefs := p;
                   nostalgicPeriodStart := nostalgic_start (birthYear p);
                   nostalgicPeriodEnd := nostalgic_end fullYear (birthYear p) |};
         onboardingComplete :=
           match onboardingCompletedAt p with
           | Some _ => true      (* a timestamp is truthy *)
           | None => false
           end |}
  end.

(** The window the specification describes, written from its words. *)
Definition spec_window (birthYear : option Z) : option Z * option Z :=
  match birthYear with
  | Some y => (Some (y + 5)%Z, Some (y + 19)%Z)
  | None => (None, None)
  end.

(** The window a response carries. *)
Definition window_of (r : Response) : option (option Z * option Z) :=
  option_map (fun v => (nostalgicPeriodStart v, nostalgicPeriodEnd v)) (preferences r).

Definition with_birth_year (y : option Z) : Prefs :=
  {| birthYear := y; habitType := "exercise"; experimentGroup := "treatment";
     researchConsent := true; onboardingCompletedAt := None |}.

End Preferences.

(** ** server/api/admin/stats.get.ts *)

Module Stats.

(** A JavaScript number as the rate computation can produce it: dividing
    by zero does not throw, it yields an infinity or NaN. *)
Inductive JsNumber : Type :=
  | Finite (q : Q)
  | NaN
  | PosInfinity
  | NegInfinity.

(** The number an operation returns whose exact result is [q]. *)
Definition to_number (q : Q) : JsNumber :=
  let r := Double.round q in
  if Double.out_of_range r
  then (if Qle_bool 0 q then PosInfinity else NegInfinity)
  else Finite r.

(** [a / b] on finite numbers. *)
Definition js_div (a b : Q) : JsNumber :=
  if Qeq_bool b 0 then
    match Qcompare a 0 with
    | Eq => NaN
    | Gt => PosInfinity
    | Lt => NegInfinity
    end
  else to_number (a / b).

(** [a * k] for a finite [k]. *)
Definition js_mul (a : JsNumber) (k : Q) : JsNumber :=
  match a with
  | Finite q => to_number (q * k)
  | NaN => NaN
  | PosInfinity =>
      match Qcompare k 0 with Eq => NaN | Gt => PosInfinity | Lt => NegInfinity end
  | NegInfinity =>
      match Qcompare k 0 with Eq => NaN | Gt => NegInfinity | Lt => PosInfinity end
  end.

(** One row of the [completionByGroup] query.  [completedLogs] is the SQL
    [sum(...)]: NULL or an integer (whether the driver hands it over as a
    number or as its decimal string, [Number()] yields that integer; a
    count is exact in a JavaScript number up to [Number.MAX_SAFE_INTEGER]). *)
Record CompletionRow : Type := mkCompletionRow {
  experimentGroup : option string;
  totalLogs : N;                 (* SQL count(): a non-negative integer *)
  completedLogs : option N
}.

Record FeedbackStats : Type := mkFeedbackStats {
  totalFeedback : N;
  positiveFeedback : option N
}.

(** [Number(x)] on such a cell: [Number(null)] is [0]. *)
Definition Number (cell : option N) : Q :=
  match cell with
  | Some n => inject_Z (Z.of_N n)
  | None => 0
  end.

(** [rows.find((g) => g.experimentGroup === name)] *)
Definition find_group (name : string) (rows : list CompletionRow) : option CompletionRow :=
  List.find (fun g => match experimentGroup g with
                      | Some s => String.eqb s name
                      | None => false
                      end) rows.

(** [total && total > 0 ? (Number(completed) / total) * 100 : 0] where the
    row itself may be [undefined]. *)
Definition rate (total : option N) (completed : option N) : JsNumber :=
  match total with
  | Some t =>
      if (negb (t =? 0)%N && (0 <? t)%N)%bool
      then js_mul (js_div (Number completed) (inject_Z (Z.of_N t))) 100
      else Finite 0
  | None => Finite 0
  end.

Record GroupCompletion : Type := mkGroupCompletion {
  gc_total : N;
  gc_completed : N;
  gc_rate : JsNumber
}.

Definition group_completion (row : option CompletionRow) : GroupCompletion :=
  {| gc_total := match row with Some r => totalLogs r | None => 0%N end;
     gc_completed :=
       match row with
       | Some r => match completedLogs r with Some c => c | None => 0%N end
       | None => 0%N
       end;
     gc_rate := rate (option_map totalLogs row)
                     (match row with Some r => completedLogs r | None => None end) |}.

Record NostalgiaFeedback : Type := mkNostalgiaFeedback {
  nf_total : N;
  nf_positive : N;
  nf_positiveRate : JsNumber
}.

Definition nostalgia_feedback (stats : option FeedbackStats) : NostalgiaFeedback :=
  {| nf_total := match stats with Some s => totalFeedback s | None => 0%N end;
     nf_positive :=
       match stats with
       | Some s => match positiveFeedback s with Some c => c | None => 0%N end
       | None => 0%N
       end;
     nf_positiveRate := rate (option_map totalFeedback stats)
                             (match stats with Some s => positiveFeedback s | None => None end) |}.

Record Response : Type := mkResponse {
  completion_treatment : GroupCompletion;
  completion_control : GroupCompletion;
  nostalgiaFeedback : NostalgiaFeedback
}.

(** The part of the handler that formats the completion and feedback
    statistics from the query results. *)
Definition handler (completionByGroup : list CompletionRow)
    (feedbackStats : option FeedbackStats) : Response :=
  let treatmentCompletion := find_group "treatment" completionByGroup in
  let controlCompletion := find_group "control" completionByGroup in
  {| completion_treatment := group_completion treatmentCompletion;
     completion_control := group_completion controlCompletion;
     nostalgiaFeedback := nostalgia_feedback feedbackStats |}.

Definition is_finite (n : JsNumber) : Prop :=
  match n with Finite _ => True | _ => False end.

(** A count that a JavaScript number holds exactly. *)
Definition safe_count (n : N) : Prop := (Z.of_N n <= Double.MAX_SAFE_INTEGER)%Z.

(** What the claim says of a reported rate, given the total of a row and
    the completed (resp. positive) count beside it, NULL counting as 0: the
    rate is 0 when the total is zero; otherwise it is the count divided by
    the total, times 100, as JavaScript computes the two operations, which
    is a finite number within one part in [2 ^ 51] of the exact ratio. *)
Definition rate_as_claimed (total : N) (completed : option N) (r : JsNumber) : Prop :=
  let count := inject_Z (Z.of_N (match completed with Some c => c | None => 0%N end)) in
  let exact := (count / inject_Z (Z.of_N total) * 100)%Q in
  (total = 0%N -> r = Finite 0) /\
  (total <> 0%N -> safe_count total ->
   safe_count (match completed with Some c => c | None => 0%N end) ->
     r = js_mul (js_div count (inject_Z (Z.of_N total))) 100 /\
     exists q, r = Finite q /\ (Qabs (q - exact) <= exact * Double.pow2 (-51))%Q).

End Stats.

(** ** A small embedding of the zod schemas the handlers declare *)

Module Zod.

Inductive IssueCode : Type :=
  | InvalidType    (* wrong JSON type, or a required key is missing *)
  | InvalidValue   (* a value outside the enum's options *)
  | TooSmall
  | TooBig.

Record Issue : Type := mkIssue {
  issue_path : string;
  issue_code : IssueCode
}.

(** The result of [schema.parse]: the parsed value, or the ZodError's
    issues. *)
Inductive Parse (A : Type) : Type :=
  | Parsed (a : A)
  | Invalid (issues : list Issue).
Arguments Parsed {A} a.
Arguments Invalid {A} issues.

(** A schema reads the value found under a key; [None] is [undefined]. *)
Definition Schema (A : Type) : Type := option Js.json -> list IssueCode + A.

Definition z_string : Schema string := fun v =>
  match v with
  | Some (Js.JStr s) => inr s
  | _ => inl [InvalidType]
  end.

Definition z_boolean : Schema bool := fun v =>
  match v with
  | Some (Js.JBool b) => inr b
  | _ => inl [InvalidType]
  end.

Definition z_number : Schema Q := fun v =>
  match v with
  | Some (Js.JNum q) => inr q
  | _ => inl [InvalidType]
  end.

(** [z.number().min(lo).max(hi)]: both checks run on a number. *)
Definition z_number_min_max (lo hi : Q) : Schema Q := fun v =>
  match z_number v with
  | inr q =>
      let small := if Qle_bool lo q then [] else [TooSmall] in
      let big := if Qle_bool q hi then [] else [TooBig] in
      match (small ++ big)%list with
      | [] => inr q
      | codes => inl codes
      end
  | inl codes => inl codes
  end.

(** [z.enum([...])]: the options with the value each one stands for; every
    other value, a missing one included, is an invalid value. *)
Definition z_enum {A} (options : list (string * A)) : Schema A := fun v =>
  match v with
  | Some (Js.JStr s) =>
      match List.find (fun o => String.eqb (fst o) s) options with
      | Some o => inr (snd o)
      | None => inl [InvalidValue]
      end
  | _ => inl [InvalidValue]
  end.

Definition optional {A} (inner : Schema A) : Schema (option A) := fun v =>
  match v with
  | None => inr None
  | Some j =>
      match inner (Some j) with
      | inr a => inr (Some a)
      | inl codes => inl codes
      end
  end.

Definition default {A} (inner : Schema A) (d : A) : Schema A := fun v =>
  match v with
  | None => inr d
  | Some j => inner (Some j)
  end.

(** Parsing the key [k] of an object; the issues carry the key as path. *)
Definition field {A} (m : gmap string Js.json) (k : string) (schema : Schema A) : Parse A :=
  match schema (m !! k) with
  | inr a => Parsed a
  | inl codes => Invalid (List.map (mkIssue k) codes)
  end.

(** [z.object] checks every key of its shape and reports all the issues. *)
Definition ap {A B} (f : Parse (A -> B)) (x : Parse A) : Parse B :=
  match f, x with
  | Parsed g, Parsed a => Parsed (g a)
  | Parsed _, Invalid i => Invalid i
  | Invalid i, Parsed _ => Invalid i
  | Invalid i, Invalid j => Invalid (i ++ j)%list
  end.

Definition issues_of {A} (p : Parse A) : list Issue :=
  match p with
  | Parsed _ => []
  | Invalid issues => issues
  end.

Definition object {A} (shape : gmap string Js.json -> Parse A) (input : option Js.json) : Parse A :=
  match input with
  | Some (Js.JObj m) => shape m
  | _ => Invalid [mkIssue "" InvalidType]
  end.

End Zod.

Notation "f <*> x" := (Zod.ap f x) (at level 61, left associativity).

(** ** A handler's effects: world passing, exceptions and an event log *)

Module H3.

Inductive HttpError : Type :=
  | Unauthorized                                  (* requireAuth failed *)
  | ValidationError (issues : list Zod.Issue)     (* readValidatedBody / getValidatedQuery *)
  | DatabaseError                                 (* a query was refused *)
  | FetchError.                                   (* $fetch threw: network, timeout, status *)

Inductive Outcome (A : Type) : Type :=
  | Returned (a : A)
  | Thrown (e : HttpError).
Arguments Returned {A} a.
Arguments Thrown {A} e.

Section Monad.
Context {W Ev : Type}.

(** A computation maps the world to its outcome, the world it leaves and
    the events it performed, oldest first. *)
Definition M (A : Type) : Type := W -> Outcome A * W * list Ev.

Definition ret {A} (a : A) : M A := fun w => (Returned a, w, []).

Definition throw {A} (e : HttpError) : M A := fun w => (Thrown e, w, []).

Definition bind {A B} (c : M A) (k : A -> M B) : M B := fun w =>
  match c w with
  | (Returned a, w1, evs1) =>
      match k a w1 with
      | (r, w2, evs2) => (r, w2, (evs1 ++ evs2)%list)
      end
  | (Thrown e, w1, evs1) => (Thrown e, w1, evs1)
  end.

(** [try { body } catch (error) { handler }] *)
Definition try_catch {A} (body : M A) (handler : HttpError -> M A) : M A := fun w =>
  match body w with
  | (Returned a, w1, evs1) => (Returned a, w1, evs1)
  | (Thrown e, w1, evs1) =>
      match handler e w1 with
      | (r, w2, evs2) => (r, w2, (evs1 ++ evs2)%list)
      end
  end.

Definition emit (e : Ev) : M unit := fun w => (Returned tt, w, [e]).

End Monad.

End H3.

Notation "x <- c ;; k" := (H3.bind c (fun x => k))
  (at level 100, c at next level, right associativity).

(** ** server/api/habits/feedback.post.ts and the interaction handler *)

Module Feedback.

Inductive ContentType : Type := Song | Movie.

Inductive InteractionType : Type :=
  | IView | IClick | ISkip | INext | IReplay | IFeedback.

Record User : Type := mkUser { user_id : string }.

(** The incoming request: the session the auth layer finds and the decoded
    body ([None]: no body). *)
Record Request : Type := mkRequest {
  session : option User;
  body : option Js.json
}.

Record RuntimeConfig : Type := mkConfig { fastApiUrl : option string }.

(** The parsed body of feedback.post.ts. *)
Record FeedbackBody : Type := mkFeedbackBody {
  fb_contentType : ContentType;
  fb_contentId : string;
  fb_bringsBackMemories : bool;
  fb_stressBefore : option Q;
  fb_stressAfter : option Q;
  fb_habitCompleted : option bool;
  fb_journalText : option string;
  fb_contentYear : option Q;
  fb_contentGenre : option string
}.

(** The parsed body of the interaction handler. *)
Record InteractionBody : Type := mkInteractionBody {
  ib_contentType : ContentType;
  ib_contentId : string;
  ib_interactionType : InteractionType;
  ib_durationSeconds : option Q;
  ib_bringsBackMemories : option bool;
  ib_stressBefore : option Q;
  ib_stressAfter : option Q;
  ib_habitCompleted : option bool;
  ib_journalText : option string;
  ib_contentYear : option Q;
  ib_contentGenre : option string
}.

Definition contentTypeSchema : Zod.Schema ContentType :=
  Zod.z_enum [("song", Song); ("movie", Movie)].

Definition interactionTypeSchema : Zod.Schema InteractionType :=
  Zod.default
    (Zod.z_enum [("view", IView); ("click", IClick); ("skip", ISkip);
                 ("next", INext); ("replay", IReplay); ("feedback", IFeedback)])
    IFeedback.

Definition stressSchema : Zod.Schema (option Q) :=
  Zod.optional (Zod.z_number_min_max 0 1).

(** [bodySchema] of feedback.post.ts *)
Definition feedbackShape (m : gmap string Js.json) : Zod.Parse FeedbackBody :=
  Zod.Parsed mkFeedbackBody
    <*> Zod.field m "contentType" contentTypeSchema
    <*> Zod.field m "contentId" Zod.z_string
    <*> Zod.field m "bringsBackMemories" Zod.z_boolean
    <*> Zod.field m "stressBefore" stressSchema
    <*> Zod.field m "stressAfter" stressSchema
    <*> Zod.field m "habitCompleted" (Zod.optional Zod.z_boolean)
    <*> Zod.field m "journalText" (Zod.optional Zod.z_string)
    <*> Zod.field m "contentYear" (Zod.optional Zod.z_number)
    <*> Zod.field m "contentGenre" (Zod.optional Zod.z_string).

Definition feedbackBodySchema : option Js.json -> Zod.Parse FeedbackBody :=
  Zod.object feedbackShape.

(** [bodySchema] of the interaction handler *)
Definition interactionShape (m : gmap string Js.json) : Zod.Parse InteractionBody :=
  Zod.Parsed mkInteractionBody
    <*> Zod.field m "contentType" contentTypeSchema
    <*> Zod.field m "contentId" Zod.z_string
    <*> Zod.field m "interactionType" interactionTypeSchema
    <*> Zod.field m "durationSeconds" (Zod.optional Zod.z_number)
    <*> Zod.field m "bringsBackMemories" (Zod.optional Zod.z_boolean)
    <*> Zod.field m "stressBefore" stressSchema
    <*> Zod.field m "stressAfter" stressSchema
    <*> Zod.field m "habitCompleted" (Zod.optional Zod.z_boolean)
    <*> Zod.field m "journalText" (Zod.optional Zod.z_string)
    <*> Zod.field m "contentYear" (Zod.optional Zod.z_number)
    <*> Zod.field m "contentGenre" (Zod.optional Zod.z_string).

Definition interactionBodySchema : option Js.json -> Zod.Parse InteractionBody :=
  Zod.object interactionShape.

(** A row of the [contentFeedback] table, as the handlers fill it. *)
Record FeedbackRow : Type := mkRow {
  row_id : string;
  row_userId : string;
  row_contentType : ContentType;
  row_contentId : string;
  row_interactionType : option InteractionType;
  row_durationSeconds : option Q;
  row_bringsBackMemories : option bool
}.

(** The JSON body posted to [/recommend/feedback]. *)
Record BanditPayload : Type := mkPayload {
  p_user_id : string;
  p_content_type : ContentType;
  p_content_id : string;
  p_brings_back_memories : option bool;
  p_stress_before : option Q;
  p_stress_after : option Q;
  p_habit_completed : option bool;
  p_journal_text : option string;
  p_content_year : option Q;
  p_content_genre : option string
}.

Inductive Event : Type :=
  | EvInsert (row : FeedbackRow)                   (* a row was persisted *)
  | EvPost (url : string) (payload : BanditPayload) (* the POST was attempted *)
  | EvConsoleError (message : string).

Record Response : Type := mkResponse {
  feedback : FeedbackRow;
  message : string
}.

(** The [values] of the insert in feedback.post.ts *)
Definition feedback_row (id : string) (user : User) (body : FeedbackBody) : FeedbackRow :=
  {| row_id := id;
     row_userId := user_id user;
     row_contentType := fb_contentType body;
     row_contentId := fb_contentId body;
     row_interactionType := None;
     row_durationSeconds := None;
     row_bringsBackMemories := Some (fb_bringsBackMemories body) |}.

(** The [body] of the POST in feedback.post.ts *)
Definition feedback_payload (user : User) (body : FeedbackBody) : BanditPayload :=
  {| p_user_id := user_id user;
     p_content_type := fb_contentType body;
     p_content_id := fb_contentId body;
     p_brings_back_memories := Some (fb_bringsBackMemories body);
     p_stress_before := fb_stressBefore body;
     p_stress_after := fb_stressAfter body;
     p_habit_completed := fb_habitCompleted body;
     p_journal_text := fb_journalText body;
     p_content_year := fb_contentYear body;
     p_content_genre := fb_contentGenre body |}.

(** The [values] of the insert in the interaction handler *)
Definition interaction_row (id : string) (user : User) (body : InteractionBody) : FeedbackRow :=
  {| row_id := id;
     row_userId := user_id user;
     row_contentType := ib_contentType body;
     row_contentId := ib_contentId body;
     row_interactionType := Some (ib_interactionType body);
     row_durationSeconds := ib_durationSeconds body;
     row_bringsBackMemories := ib_bringsBackMemories body |}.

(** The [body] of the POST in the interaction handler *)
Definition interaction_payload (user : User) (body : InteractionBody) : BanditPayload :=
  {| p_user_id := user_id user;
     p_content_type := ib_contentType body;
     p_content_id := ib_contentId body;
     p_brings_back_memories := ib_bringsBackMemories body;
     p_stress_before := ib_stressBefore body;
     p_stress_after := ib_stressAfter body;
     p_habit_completed := ib_habitCompleted body;
     p_journal_text := ib_journalText body;
     p_content_year := ib_contentYear body;
     p_content_genre := ib_contentGenre body |}.

(** [body.interactionType === 'feedback' && body.bringsBackMemories !== undefined] *)
Definition is_explicit_feedback (body : InteractionBody) : bool :=
  match ib_interactionType body with
  | IFeedback => match ib_bringsBackMemories body with Some _ => true | None => false end
  | _ => false
  end.

Definition update_failed : string := "Failed to update bandit model:".

Section Handlers.

(** The state of the bandit service (the [A] and [b] of every arm). *)
Context {Bandit : Type}.

(** [POST /recommend/feedback]: the state the service is left in, and
    whether the call resolved ([false]: [$fetch] threw). *)
Variable bandit_feedback : BanditPayload -> Bandit -> Bandit * bool.

(** [nanoid()]: the id produced by the n-th call. *)
Variable nanoid : nat -> string.

(** Whether the database accepts a row given the table's content (the
    table's constraints are declared outside these sources). *)
Variable db_accepts : list FeedbackRow -> FeedbackRow -> bool.

Record World : Type := mkWorld {
  contentFeedback : list FeedbackRow;
  bandit : Bandit;
  ids_drawn : nat
}.

Definition Handler (A : Type) : Type := @H3.M World Event A.

Definition requireAuth (req : Request) : Handler User :=
  match session req with
  | Some u => H3.ret u
  | None => H3.throw H3.Unauthorized
  end.

Definition readValidatedBody {A} (req : Request)
    (parse : option Js.json -> Zod.Parse A) : Handler A :=
  match parse (body req) with
  | Zod.Parsed a => H3.ret a
  | Zod.Invalid issues => H3.throw (H3.ValidationError issues)
  end.

Definition nanoid_call : Handler string := fun w =>
  (H3.Returned (nanoid (ids_drawn w)),
   {| contentFeedback := contentFeedback w; bandit := bandit w;
      ids_drawn := S (ids_drawn w) |},
   []).

(** [db.insert(contentFeedback).values(row).returning()], first row. *)
Definition db_insert (row : FeedbackRow) : Handler FeedbackRow := fun w =>
  if db_accepts (contentFeedback w) row
  then (H3.Returned row,
        {| contentFeedback := (contentFeedback w ++ [row])%list; bandit := bandit w;
           ids_drawn := ids_drawn w |},
        [EvInsert row])
  else (H3.Thrown H3.DatabaseError, w, []).

(** [$fetch(url, { method: 'POST', body })] *)
Definition fetch_post (url : string) (payload : BanditPayload) : Handler unit := fun w =>
  match bandit_feedback payload (bandit w) with
  | (b', resolved) =>
      (if resolved then H3.Returned tt else H3.Thrown H3.FetchError,
       {| contentFeedback := contentFeedback w; bandit := b';
          ids_drawn := ids_drawn w |},
       [EvPost url payload])
  end.

Definition console_error (msg : string) : Handler unit :=
  H3.emit (EvConsoleError msg).

Definition feedback_url (config : RuntimeConfig) : string :=
  Js.or_default (fastApiUrl config) "http://localhost:8000" ++ "/recommend/feedback".

(** feedback.post.ts *)
Definition feedback_handler (config : RuntimeConfig) (req : Request) : Handler Response :=
  user <- requireAuth req ;;
  body <- readValidatedBody req feedbackBodySchema ;;
  id <- nanoid_call ;;
  feedback <- db_insert (feedback_row id user body) ;;
  _ <- H3.try_catch
         (fetch_post (feedback_url config) (feedback_payload user body))
         (fun error => console_error update_failed) ;;
  H3.ret {| feedback := feedback; message := "Feedback recorded" |}.

(** The interaction handler *)
Definition interaction_handler (config : RuntimeConfig) (req : Request) : Handler Response :=
  user <- requireAuth req ;;
  body <- readValidatedBody req interactionBodySchema ;;
  id <- nanoid_call ;;
  feedback <- db_insert (interaction_row id user body) ;;
  _ <- (if is_explicit_feedback body
        then H3.try_catch
               (fetch_post (feedback_url config) (interaction_payload user body))
               (fun error => console_error update_failed)
        else H3.ret tt) ;;
  H3.ret {| feedback := feedback; message := "Interaction recorded" |}.

End Handlers.

(** The interaction types the handler treats as passive. *)
Definition passive_names : list string := ["view"; "click"; "skip"; "next"; "replay"].

(** A request body that names a passive interaction, or carries no
    [bringsBackMemories] key. *)
Definition passive_request (req : Request) : Prop :=
  exists m, body req = Some (Js.JObj m) /\
    ((exists s, m !! "interactionType" = Some (Js.JStr s) /\ In s passive_names)
     \/ m !! "bringsBackMemories" = None).

(** The optional signals of a feedback body. *)
Definition optional_signals : list string :=
  ["stressBefore"; "stressAfter"; "habitCompleted"; "journalText";
   "contentYear"; "contentGenre"].

Definition out_of_range (q : Q) : Prop := ~ (0 <= q /\ q <= 1)%Q.

(** A body whose [stressBefore] or [stressAfter] is a number outside [0, 1]. *)
Definition stress_out_of_range (req : Request) : Prop :=
  exists m q, body req = Some (Js.JObj m) /\ out_of_range q /\
    (m !! "stressBefore" = Some (Js.JNum q) \/ m !! "stressAfter" = Some (Js.JNum q)).

(** A body without a usable content type: the key is missing, or its value
    is not one of the two options. *)
Definition bad_content_type (m : gmap string Js.json) : Prop :=
  m !! "contentType" <> Some (Js.JStr "song") /\
  m !! "contentType" <> Some (Js.JStr "movie").

(** The issues name a stress field as too small or too big. *)
Definition stress_issue_in (issues : list Zod.Issue) : Prop :=
  exists i, In i issues /\
    (Zod.issue_path i = "stressBefore" \/ Zod.issue_path i = "stressAfter") /\
    (Zod.issue_code i = Zod.TooSmall \/ Zod.issue_code i = Zod.TooBig).

(** The payload carries no value for the optional signal [k]. *)
Definition payload_lacks (k : string) (p : BanditPayload) : Prop :=
  if String.eqb k "stressBefore" then p_stress_before p = None
  else if String.eqb k "stressAfter" then p_stress_after p = None
  else if String.eqb k "habitCompleted" then p_habit_completed p = None
  else if String.eqb k "journalText" then p_journal_text p = None
  else if String.eqb k "contentYear" then p_content_year p = None
  else if String.eqb k "contentGenre" then p_content_genre p = None
  else True.

(** The parsed body with the optional signal [k] left out. *)
Definition fb_without (k : string) (b : FeedbackBody) : FeedbackBody :=
  {| fb_contentType := fb_contentType b;
     fb_contentId := fb_contentId b;
     fb_bringsBackMemories := fb_bringsBackMemories b;
     fb_stressBefore := if String.eqb k "stressBefore" then None else fb_stressBefore b;
     fb_stressAfter := if String.eqb k "stressAfter" then None else fb_stressAfter b;
     fb_habitCompleted := if String.eqb k "habitCompleted" then None else fb_habitCompleted b;
     fb_journalText := if String.eqb k "journalText" then None else fb_journalText b;
     fb_contentYear := if String.eqb k "contentYear" then None else fb_contentYear b;
     fb_contentGenre := if String.eqb k "contentGenre" then None else fb_contentGenre b |}.

Definition ib_without (k : string) (b : InteractionBody) : InteractionBody :=
  {| ib_contentType := ib_contentType b;
     ib_contentId := ib_contentId b;
     ib_interactionType := ib_interactionType b;
     ib_durationSeconds := ib_durationSeconds b;
     ib_bringsBackMemories := ib_bringsBackMemories b;
     ib_stressBefore := if String.eqb k "stressBefore" then None else ib_stressBefore b;
     ib_stressAfter := if String.eqb k "stressAfter" then None else ib_stressAfter b;
     ib_habitCompleted := if String.eqb k "habitCompleted" then None else ib_habitCompleted b;
     ib_journalText := if String.eqb k "journalText" then None else ib_journalText b;
     ib_contentYear := if String.eqb k "contentYear" then None else ib_contentYear b;
     ib_contentGenre := if String.eqb k "contentGenre" then None else ib_contentGenre b |}.

(** The events a run performed and the outcome it ended with. *)
Definition events_of {W A} (run : H3.Outcome A * W * list Event) : list Event := snd run.
Definition outcome_of {W A} (run : H3.Outcome A * W * list Event) : H3.Outcome A := fst (fst run).
Definition world_of {W A} (run : H3.Outcome A * W * list Event) : W := snd (fst run).

Definition posts_of (evs : list Event) : list BanditPayload :=
  List.flat_map (fun e => match e with EvPost _ p => [p] | _ => [] end) evs.

End Feedback.

(** ** The movie-candidate endpoint (first handler of unnamed/part_003) *)

Module Movies.

Inductive Mode : Type := Random | Popular | Similar.

Definition mode_name (m : Mode) : string :=
  match m with
  | Random => "random"
  | Popular => "popular"
  | Similar => "similar"
  end.

(** The query after [querySchema.parse]. *)
Record Query : Type := mkQuery {
  yearStart : option Q;
  yearEnd : option Q;
  search : option string;
  limit : Q;
  excludeIds : option string;
  mode : Mode;
  selectedIds : option string
}.

(** The strings of this development are in UTF-8, one [ascii] per byte. *)
Definition utf8 (bytes : list N) : string :=
  string_of_list_ascii (List.map ascii_of_N bytes).

(** The white space that [trim] and [parseInt] skip: the WhiteSpace and
    LineTerminator code points of the language, which are tab, line feed,
    vertical tab, form feed, carriage return and space, U+00A0, U+1680,
    U+2000 to U+200A, U+2028, U+2029, U+202F, U+205F, U+3000 and U+FEFF. *)
Definition white_space : list string :=
  List.map utf8
    [ [9]; [10]; [11]; [12]; [13]; [32];
      [194; 160];
      [225; 154; 128];
      [226; 128; 128]; [226; 128; 129]; [226; 128; 130]; [226; 128; 131];
      [226; 128; 132]; [226; 128; 133]; [226; 128; 134]; [226; 128; 135];
      [226; 128; 136]; [226; 128; 137]; [226; 128; 138];
      [226; 128; 168]; [226; 128; 169];
      [226; 128; 175];
      [226; 129; 159];
      [227; 128; 128];
      [239; 187; 191] ]%N.

Definition is_space (w : string) : bool := List.existsb (String.eqb w) white_space.

(** [s] without the white space it starts with; a white-space character
    takes one to three bytes. *)
Fixpoint skip_space (s : string) : string :=
  match s with
  | EmptyString => EmptyString
  | String a s1 =>
      if is_space (String a "") then skip_space s1
      else
        match s1 with
        | EmptyString => s
        | String b s2 =>
            if is_space (String a (String b "")) then skip_space s2
            else
              match s2 with
              | EmptyString => s
              | String c s3 =>
                  if is_space (String a (String b (String c ""))) then skip_space s3
                  else s
              end
        end
  end.

(** [s] without the white space it ends with: cut where only white space
    follows. *)
Fixpoint skip_space_end (s : string) : string :=
  match s with
  | EmptyString => EmptyString
  | String a rest =>
      if String.eqb (skip_space s) "" then EmptyString
      else String a (skip_space_end rest)
  end.

(** [s.trim()] *)
Definition trim (s : string) : string := skip_space_end (skip_space s).

Definition digit_of (c : ascii) : option Z :=
  let n := Z.of_N (N_of_ascii c) in
  if ((48 <=? n)%Z && (n <=? 57)%Z)%bool then Some (n - 48)%Z else None.

Fixpoint read_digits (s : string) (acc : option Z) : option Z :=
  match s with
  | String c rest =>
      match digit_of c with
      | Some d =>
          read_digits rest
            (Some (10 * (match acc with Some a => a | None => 0 end) + d)%Z)
      | None => acc
      end
  | EmptyString => acc
  end.

(** The integer that the sign and the leading digits of [s] denote, after
    its leading white space; [None] without a digit. *)
Definition leading_integer (s : string) : option Z :=
  match skip_space s with
  | String "-" rest => option_map Z.opp (read_digits rest None)
  | String "+" rest => read_digits rest None
  | t => read_digits t None
  end.

(** [parseInt(s, 10)]: the number for the leading integer.  [None] is a
    result that is no integer: NaN without a digit, an infinity for digits
    beyond the range of the numbers (both are [null] in a JSON body).  (For
    more than 20 significant digits the language lets an implementation
    round less exactly than to the nearest number.) *)
Definition parseInt10 (s : string) : option Z :=
  match leading_integer s with
  | Some n => Double.of_integer n
  | None => None
  end.

(** [s.split(',')] *)
Fixpoint split_comma (s : string) : list string :=
  match s with
  | EmptyString => [EmptyString]
  | String c rest =>
      if Ascii.eqb c ","
      then EmptyString :: split_comma rest
      else match split_comma rest with
           | h :: t => String c h :: t
           | [] => [String c EmptyString]
           end
  end.

Definition non_empty (s : string) : bool := negb (String.eqb s "").

(** [ids.split(',').filter(Boolean).map((id) => parseInt(id, 10))] *)
Definition parse_id_list (ids : string) : list (option Z) :=
  List.map parseInt10 (List.filter non_empty (split_comma ids)).

(** The drizzle conditions the handler builds on the [movies] table. *)
Inductive Condition : Type :=
  | GteYear (y : Q)
  | LteYear (y : Q)
  | IlikeTitle (pattern : string)
  | NotInArrayId (ids : list (option Z))
  | InArrayId (ids : list Z).

Inductive Order : Type := Unordered | RatingCountDesc | RandomOrder.

Record Select : Type := mkSelect {
  where_ : list Condition;      (* the conjunction; empty: no WHERE clause *)
  orderBy : Order;
  row_limit : Q
}.

Record MovieRow : Type := mkMovieRow {
  id : Z;
  title : string;
  year : option Z;
  genres : option (list string)
}.

Record Response : Type := mkResponse {
  items : list MovieRow;
  count : nat;
  response_mode : string
}.

Inductive Event : Type :=
  | EvRecommend (url : string) (liked_movie_ids : list (option Z)) (n_recommendations : Q)
  | EvSelect (q : Select).

Definition build_conditions (query : Query) : list Condition :=
  ((if Js.truthy_num (yearStart query)
    then match yearStart query with Some y => [GteYear y] | None => [] end
    else []) ++
   (if Js.truthy_num (yearEnd query)
    then match yearEnd query with Some y => [LteYear y] | None => [] end
    else []) ++
   (match search query with
    | Some s =>
        if (non_empty s && non_empty (trim s))%bool
        then [IlikeTitle ("%" ++ trim s ++ "%")]
        else []
    | None => []
    end) ++
   (match excludeIds query with
    | Some ids =>
        if non_empty ids
        then match parse_id_list ids with
             | [] => []
             | excludeList => [NotInArrayId excludeList]
             end
        else []
    | None => []
    end))%list.

Section Handler.

(** [POST /movies/recommend]: the recommended movie ids, or [None] when the
    call throws (network failure, timeout, error status, malformed answer). *)
Variable fetch_recommend : string -> list (option Z) -> Q -> option (list Z).

(** The database running a select on [movies]; [None] when it throws. *)
Variable db_select : Select -> option (list MovieRow).

Definition Handler (A : Type) : Type := @H3.M unit Event A.

Definition recommend (url : string) (liked : list (option Z)) (n : Q) : Handler (list Z) :=
  fun w =>
    (match fetch_recommend url liked n with
     | Some ids => H3.Returned ids
     | None => H3.Thrown H3.FetchError
     end, w, [EvRecommend url liked n]).

Definition select (q : Select) : Handler (list MovieRow) := fun w =>
  (match db_select q with
   | Some rows => H3.Returned rows
   | None => H3.Thrown H3.DatabaseError
   end, w, [EvSelect q]).

Definition respond (results : list MovieRow) (m : Mode) : Response :=
  {| items := results; count := List.length results; response_mode := mode_name m |}.

Definition recommend_url (fastApiUrl : option string) : string :=
  Js.or_default fastApiUrl "http://localhost:8000" ++ "/movies/recommend".

(** The [similar] branch: [Some response] when it returns from the handler,
    [None] when control falls through to the code below it. *)
Definition similar_branch (fastApiUrl : option string) (query : Query)
    (conditions : list Condition) : Handler (option Response) :=
  match mode query, selectedIds query with
  | Similar, Some ids =>
      if non_empty ids then
        match parse_id_list ids with
        | [] => H3.ret None
        | selectedList =>
            H3.try_catch
              (movieIds <- recommend (recommend_url fastApiUrl) selectedList (limit query) ;;
               results <- select {| where_ := InArrayId movieIds :: conditions;
                                    orderBy := Unordered;
                                    row_limit := limit query |} ;;
               H3.ret (Some (respond results Similar)))
              (fun _ => H3.ret None)
        end
      else H3.ret None
  | _, _ => H3.ret None
  end.

(** The code after the [similar] branch: popular, else random. *)
Definition fallback (query : Query) (conditions : list Condition) : Handler Response :=
  match mode query with
  | Popular =>
      results <- select {| where_ := conditions; orderBy := RatingCountDesc;
                           row_limit := limit query |} ;;
      H3.ret (respond results Popular)
  | _ =>
      results <- select {| where_ := conditions; orderBy := RandomOrder;
                           row_limit := limit query |} ;;
      H3.ret (respond results Random)
  end.

Definition handler (fastApiUrl : option string) (query : Query) : Handler Response :=
  let conditions := build_conditions query in
  early <- similar_branch fastApiUrl query conditions ;;
  match early with
  | Some response => H3.ret response
  | None => fallback query conditions
  end.

End Handler.

(** The query the handler is left with when the recommender is down. *)
Definition surviving_select (query : Query) : Select :=
  {| where_ := build_conditions query;
     orderBy := match mode query with Popular => RatingCountDesc | _ => RandomOrder end;
     row_limit := limit query |}.

Definition surviving_mode (query : Query) : Mode :=
  match mode query with Popular => Popular | _ => Random end.

End Movies.

(** ** The LinUCB decision core

    The bandit runs in the FastAPI service the handlers above post to; its
    code is not part of the TypeScript sources.  The definitions of this
    module follow sections 3 and 4.3 of the specification. *)

Module LinUCB.

#[local] Open Scope Q_scope.

(** Modelled from the spec: vectors and matrices of "real-valued features"
    (section 3) with exact rational entries, a matrix being the list of its
    rows; the numeric code of the bandit service is missing from the
    sources. *)
Definition vec : Type := list Q.
Definition matrix : Type := list (list Q).

Fixpoint dot (u v : vec) : Q :=
  match u, v with
  | a :: u', b :: v' => a * b + dot u' v'
  | _, _ => 0
  end.

Definition vadd (u v : vec) : vec := zip_with Qplus u v.
Definition vscale (k : Q) (v : vec) : vec := List.map (Qmult k) v.
Definition mulmv (A : matrix) (v : vec) : vec := List.map (fun row => dot row v) A.
Definition outer (x y : vec) : matrix := List.map (fun xi => vscale xi y) x.
Definition madd (A B : matrix) : matrix := zip_with vadd A B.
Definition mscale (k : Q) (A : matrix) : matrix := List.map (vscale k) A.
Definition zero_vec (d : nat) : vec := replicate d 0.

(** Modelled from the spec: the initial design matrix, "the identity scaled
    by a regularization constant" (section 3); the matrix code of the
    bandit service is missing from the sources. *)
Fixpoint scaled_identity (lam : Q) (d : nat) : matrix :=
  match d with
  | O => []
  | S d' => (lam :: zero_vec d') :: List.map (cons 0) (scaled_identity lam d')
  end.

(** Modelled from the spec: the per-arm state "(A, b, dimension,
    update-count)" of the policy store entry (section 3), which the bandit
    service keeps outside these sources.  [arm_A_inv] is the incrementally
    maintained inverse that section 4.3 allows an implementation to keep
    for scoring. *)
Record Arm : Type := mkArm {
  arm_A : matrix;
  arm_A_inv : matrix;
  arm_b : vec;
  arm_dim : nat;
  arm_updates : nat
}.

(** Modelled from the spec: "a new arm starts with A = λI, b = 0"
    (section 4.3, Initialization); the arm constructor of the bandit
    service is missing from the sources. *)
Definition new_arm (lam : Q) (d : nat) : Arm :=
  {| arm_A := scaled_identity lam d;
     arm_A_inv := scaled_identity (/ lam) d;
     arm_b := zero_vec d;
     arm_dim := d;
     arm_updates := 0%nat |}.

(** Modelled from the spec: the "incremental inverse update" of section
    4.3 for the rank-one change [A + x xᵀ] (the Sherman-Morrison formula);
    the bandit service's own routine is missing from the sources. *)
Definition sherman_morrison (A_inv : matrix) (x : vec) : matrix :=
  let u := mulmv A_inv x in
  let c := 1 + dot x u in
  madd A_inv (mscale (- / c) (outer u u)).

(** Modelled from the spec: the update of section 4.3, "A ← A + x xᵀ,
    b ← b + r·x", a dimension mismatch being "a hard error (never silently
    padded/truncated)" (section 3); the update routine of the bandit
    service is missing from the sources. *)
Definition update (a : Arm) (x : vec) (r : Q) : option Arm :=
  if Nat.eqb (List.length x) (arm_dim a)
  then Some {| arm_A := madd (arm_A a) (outer x x);
               arm_A_inv := sherman_morrison (arm_A_inv a) x;
               arm_b := vadd (arm_b a) (vscale r x);
               arm_dim := arm_dim a;
               arm_updates := S (arm_updates a) |}
  else None.

(** Modelled from the spec: "after any sequence of updates" (section 8),
    a sequence of (context, reward) observations applied in order with the
    update above; the feedback loop of the bandit service is missing from
    the sources. *)
Fixpoint update_all (a : Arm) (obs : list (vec * Q)) : option Arm :=
  match obs with
  | [] => Some a
  | (x, r) :: rest =>
      match update a x r with
      | Some a' => update_all a' rest
      | None => None
      end
  end.

(** *** What it means for the design matrix to be well behaved *)

Definition well_formed (d : nat) (A : matrix) : Prop :=
  List.length A = d /\ Forall (fun row => List.length row = d) A.

Definition entry (A : matrix) (i j : nat) : Q := nth j (nth i A []) 0.

Definition symmetric (d : nat) (A : matrix) : Prop :=
  forall i j, (i < d)%nat -> (j < d)%nat -> entry A i j == entry A j i.

Definition is_zero (v : vec) : Prop := Forall (fun q => q == 0) v.

(** [vᵀ A v] *)
Definition quad (A : matrix) (v : vec) : Q := dot v (mulmv A v).

Definition positive_definite (d : nat) (A : matrix) : Prop :=
  forall v, List.length v = d -> ~ is_zero v -> 0 < quad A v.

Definition veq (u v : vec) : Prop := Forall2 Qeq u v.

(** [B] is a two-sided inverse of [A] on vectors of length [d]. *)
Definition inverse_of (d : nat) (A B : matrix) : Prop :=
  well_formed d B /\
  forall v, List.length v = d ->
    veq (mulmv A (mulmv B v)) v /\ veq (mulmv B (mulmv A v)) v.

Definition invertible (d : nat) (A : matrix) : Prop :=
  exists B, inverse_of d A B.

Definition contexts_fit (d : nat) (obs : list (vec * Q)) : Prop :=
  Forall (fun o => List.length (fst o) = d) obs.

(** [uᵀ (B v) = (B u)ᵀ v] *)
Definition self_adjoint (d : nat) (B : matrix) : Prop :=
  forall u v, List.length u = d -> List.length v = d ->
    dot u (mulmv B v) == dot (mulmv B u) v.

(** Rows of two matrices have pairwise the same length. *)
Definition rows_match (A B : matrix) : Prop :=
  Forall2 (fun r r' => List.length r = List.length r') A B.

(** The invariant of an arm of dimension [d]: the design matrix is
    symmetric positive-definite and the cached matrix is its inverse. *)
Record arm_ok (d : nat) (a : Arm) : Prop := mkArmOk {
  ok_dim : arm_dim a = d;
  ok_well_formed : well_formed d (arm_A a);
  ok_symmetric : symmetric d (arm_A a);
  ok_positive : positive_definite d (arm_A a);
  ok_inverse : inverse_of d (arm_A a) (arm_A_inv a);
  ok_self_adjoint : self_adjoint d (arm_A_inv a)
}.

(** *** Selection *)

(** Modelled from the spec: a candidate, "a (content type, content ID,
    feature vector, optional externally-supplied prior score) tuple"
    (section 3); arms are keyed by content type.  The candidate type of
    the bandit service is missing from the sources. *)
Record Candidate : Type := mkCandidate {
  cand_arm : string;
  cand_id : string;
  cand_features : vec;
  cand_prior : option Q
}.

Inductive SelectError : Type :=
  | InvalidContext
  | CandidatesUnavailable
  | SchemaVersionMismatch.

Record Selection : Type := mkSelection {
  sel_arm : string;
  sel_item : string
}.

Record ScoredArm : Type := mkScored {
  sa_id : string;
  sa_score : Q;
  sa_updates : nat
}.

Definition Qlt_bool (a b : Q) : bool := negb (Qle_bool b a).

(** Modelled from the spec: "all arms present in the current candidate
    pool" in "a stable input order" (section 4.3), the order of their first
    candidate; the pool handling of the bandit service is missing from the
    sources. *)
Fixpoint pool_arms (pool : list Candidate) : list string :=
  match pool with
  | [] => []
  | c :: rest =>
      cand_arm c :: List.filter (fun a => negb (String.eqb a (cand_arm c))) (pool_arms rest)
  end.

(** Modelled from the spec: "the highest externally-supplied prior score"
    (section 4.3) among some candidates, [None] when none carries a prior;
    the item choice of the bandit service is missing from the sources. *)
Definition max_prior (items : list Candidate) : option Q :=
  List.fold_left
    (fun best c =>
       match cand_prior c, best with
       | Some p, Some b => if Qlt_bool b p then Some p else Some b
       | Some p, None => Some p
       | None, _ => best
       end) items None.

(** Modelled from the spec: whether a candidate carries the highest prior
    (section 4.3); part of the item choice missing from the sources. *)
Definition has_prior (top : option Q) (c : Candidate) : bool :=
  match top, cand_prior c with
  | Some t, Some p => Qeq_bool p t
  | Some _, None => false
  | None, _ => true
  end.

Section Selection.

Variable lam : Q.           (* regularization constant λ *)
Variable alpha : Q.         (* exploration coefficient α *)
Variable eps : Q.           (* the tolerance within which two scores tie *)
Variable d : nat.           (* the dimension of the context vector *)
Variable sqrtQ : Q -> Q.    (* the numeric square root *)
Variable rng : Z -> nat -> nat.  (* the n-th draw of the source seeded with a seed *)

(** Modelled from the spec: "load(armId) → (A, b, dim) or default-initialized
    state if absent", a stored dimension that differs from [d] being "a
    fatal SchemaVersionMismatch" (section 4.5); the policy store is missing
    from the sources. *)
Definition load (store : gmap string Arm) (armId : string) : SelectError + Arm :=
  match store !! armId with
  | Some a => if Nat.eqb (arm_dim a) d then inr a else inl SchemaVersionMismatch
  | None => inr (new_arm lam d)
  end.

(** Modelled from the spec: the scoring steps 1 to 4 of section 4.3,
    "θ = A⁻¹ b", "p = θ · x", "w = α · sqrt(xᵀ A⁻¹ x)", "score = p + w";
    the scoring routine of the bandit service is missing from the sources. *)
Definition score (a : Arm) (x : vec) : Q :=
  let theta := mulmv (arm_A_inv a) (arm_b a) in
  let p := dot theta x in
  let w := alpha * sqrtQ (dot x (mulmv (arm_A_inv a) x)) in
  p + w.

(** Modelled from the spec: every arm of the pool is loaded (section 4.5)
    and scored (section 4.3) with the request's context; the scoring loop
    of the bandit service is missing from the sources. *)
Fixpoint score_arms (store : gmap string Arm) (x : vec) (arms : list string)
  : SelectError + list ScoredArm :=
  match arms with
  | [] => inr []
  | armId :: rest =>
      match load store armId with
      | inl e => inl e
      | inr a =>
          match score_arms store x rest with
          | inl e => inl e
          | inr scored =>
              inr ({| sa_id := armId; sa_score := score a x;
                      sa_updates := arm_updates a |} :: scored)
          end
      end
  end.

(** Modelled from the spec: "the maximum score over all arms present in
    the current candidate pool" (section 4.3); the selection routine of the
    bandit service is missing from the sources. *)
Definition max_score (first : ScoredArm) (rest : list ScoredArm) : Q :=
  List.fold_left
    (fun top a => if Qlt_bool top (sa_score a) then sa_score a else top)
    rest (sa_score first).

(** Modelled from the spec: an arm that "ties within floating-point
    epsilon" with the maximum (section 4.3): its score is at most the
    tolerance below it.  Missing from the sources like the maximum. *)
Definition ties_with (top : Q) (a : ScoredArm) : bool :=
  Qle_bool top (sa_score a + eps).

(** Modelled from the spec: "prefer the arm with fewer total updates ...;
    if still tied, prefer the arm appearing first in a stable input order"
    (section 4.3): going through the tied arms in input order, a later arm
    replaces the one kept only when it has strictly fewer updates.  Missing
    from the sources like the maximum. *)
Fixpoint fewest_updates (kept : ScoredArm) (rest : list ScoredArm) : ScoredArm :=
  match rest with
  | [] => kept
  | a :: rest' =>
      fewest_updates (if Nat.ltb (sa_updates a) (sa_updates kept) then a else kept) rest'
  end.

(** Modelled from the spec: "choose the arm ... with the maximum score over
    all arms present in the current candidate pool", with its tie-break
    (section 4.3): of the arms that tie with the maximum, the one with the
    fewest updates, the first of them in input order.  Missing from the
    sources like the maximum. *)
Definition best_arm (first : ScoredArm) (rest : list ScoredArm) : ScoredArm :=
  match List.filter (ties_with (max_score first rest)) (first :: rest) with
  | [] => first
  | a :: tied => fewest_updates a tied
  end.

(** Modelled from the spec: "within the winning arm ... pick the one with
    the highest externally-supplied prior score, else uniformly at random
    using a seedable source" (section 4.3): the candidates of the arm that
    carry the highest prior (all of them when none carries a prior), and
    among several of those the one the seeded source draws.  The item
    choice of the bandit service is missing from the sources. *)
Definition pick_item (pool : list Candidate) (arm : string) (seed : Z) : option Candidate :=
  let items := List.filter (fun c => String.eqb (cand_arm c) arm) pool in
  let top := List.filter (has_prior (max_prior items)) items in
  match top with
  | [] => None
  | [c] => Some c
  | _ => nth_error top (rng seed 0%nat mod List.length top)%nat
  end.

(** Modelled from the spec: [selectRecommendation] as sections 4.2, 4.3 and
    7 describe it: a context of the wrong dimension is [InvalidContext], an
    empty pool is [CandidatesUnavailable], otherwise the arms present in
    the pool are scored and one item of the winning arm is returned.  The
    function itself is part of the bandit service, missing from the
    sources. *)
Definition selectRecommendation (store : gmap string Arm) (x : vec)
    (pool : list Candidate) (seed : Z) : SelectError + Selection :=
  if negb (Nat.eqb (List.length x) d) then inl InvalidContext
  else
    match score_arms store x (pool_arms pool) with
    | inl e => inl e
    | inr [] => inl CandidatesUnavailable
    | inr (first :: rest) =>
        let winner := best_arm first rest in
        match pick_item pool (sa_id winner) seed with
        | Some c => inr {| sel_arm := sa_id winner; sel_item := cand_id c |}
        | None => inl CandidatesUnavailable
        end
    end.

End Selection.





End LinUCB.

(** ** Concrete requests and collaborators used in the examples *)

Module Fixtures.
Import Feedback.

Definition a_type_error : ErrorHandling.Thrown :=
  {| ErrorHandling.thrown_chain := ["TypeError"; "Error"; "Object"];
     ErrorHandling.thrown_message := "boom" |}.

Definition alice : User := {| user_id := "alice" |}.

Definition config : RuntimeConfig := {| fastApiUrl := None |}.

(** A bandit service that counts the updates it received. *)
Definition counting_bandit (p : BanditPayload) (updates : nat) : nat * bool :=
  (S updates, true).

(** A bandit service that is down: every call throws. *)
Definition failing_bandit (p : BanditPayload) (updates : nat) : nat * bool :=
  (updates, false).

Definition ids (n : nat) : string :=
  match n with O => "id-0" | S _ => "id-n" end.

Definition accept_all (table : list FeedbackRow) (row : FeedbackRow) : bool := true.

Definition fresh_world : @World nat :=
  {| contentFeedback := []; bandit := 0%nat; ids_drawn := 0%nat |}.

(** [{contentType: "song", contentId: "track-1", interactionType: "view"}] *)
Definition view_body : gmap string Js.json :=
  <["contentType" := Js.JStr "song"]>
  (<["contentId" := Js.JStr "track-1"]>
  (<["interactionType" := Js.JStr "view"]> ∅)).

(** [{contentType: "song", contentId: "track-1", interactionType: "view",
      bringsBackMemories: true}] *)
Definition view_with_answer : gmap string Js.json :=
  <["bringsBackMemories" := Js.JBool true]> view_body.

(** [{contentType: "movie", contentId: "42", bringsBackMemories: true, stressBefore: 1.5}] *)
Definition stressed_body : gmap string Js.json :=
  <["contentType" := Js.JStr "movie"]>
  (<["contentId" := Js.JStr "42"]>
  (<["bringsBackMemories" := Js.JBool true]>
  (<["stressBefore" := Js.JNum (3 # 2)]> ∅))).

(** [{contentType: "song", contentId: "track-1", bringsBackMemories: true,
      stressBefore: 0.5, habitCompleted: true}] *)
Definition full_body : gmap string Js.json :=
  <["contentType" := Js.JStr "song"]>
  (<["contentId" := Js.JStr "track-1"]>
  (<["bringsBackMemories" := Js.JBool true]>
  (<["stressBefore" := Js.JNum (1 # 2)]>
  (<["habitCompleted" := Js.JBool true]> ∅)))).

Definition full_parsed : FeedbackBody :=
  {| fb_contentType := Song; fb_contentId := "track-1"; fb_bringsBackMemories := true;
     fb_stressBefore := Some (1 # 2); fb_stressAfter := None;
     fb_habitCompleted := Some true; fb_journalText := None;
     fb_contentYear := None; fb_contentGenre := None |}.

Definition request_of (m : gmap string Js.json) : Request :=
  {| session := Some alice; body := Some (Js.JObj m) |}.

(** A recommender that is down and a database that answers every select
    with the same two rows. *)
Definition recommender_down (url : string) (liked : list (option Z)) (n : Q)
  : option (list Z) := None.

Definition two_rows : list Movies.MovieRow :=
  [ {| Movies.id := 1%Z; Movies.title := "Heat"; Movies.year := Some 1995%Z;
       Movies.genres := Some ["Crime"] |};
    {| Movies.id := 2%Z; Movies.title := "Alien"; Movies.year := Some 1979%Z;
       Movies.genres := None |} ].

Definition db_two_rows (q : Movies.Select) : option (list Movies.MovieRow) := Some two_rows.

(** [?mode=similar&selectedIds=10,20&limit=5&yearStart=1990] *)
Definition similar_query : Movies.Query :=
  {| Movies.yearStart := Some (1990 # 1); Movies.yearEnd := None; Movies.search := None;
     Movies.limit := 5 # 1; Movies.excludeIds := None; Movies.mode := Movies.Similar;
     Movies.selectedIds := Some "10,20" |}.

(** Two observations for an arm of dimension 2. *)
Definition two_observations : list (LinUCB.vec * Q) :=
  [ ([1; 2 # 1], 1); ([0; 1 # 2], 0) ]%Q.

(** An arm that saw the first observation. *)
Definition song_arm : LinUCB.Arm :=
  match LinUCB.update (LinUCB.new_arm 1 2) [1; 2 # 1]%Q 1 with
  | Some a => a
  | None => LinUCB.new_arm 1 2
  end.

Definition store_one : gmap string LinUCB.Arm := <["song" := song_arm]> ∅.


Definition pool_of_three : list LinUCB.Candidate :=
  [ {| LinUCB.cand_arm := "song"; LinUCB.cand_id := "track-1";
       LinUCB.cand_features := []; LinUCB.cand_prior := Some (1 # 2) |};
    {| LinUCB.cand_arm := "movie"; LinUCB.cand_id := "42";
       LinUCB.cand_features := []; LinUCB.cand_prior := None |};
    {| LinUCB.cand_arm := "song"; LinUCB.cand_id := "track-2";
       LinUCB.cand_features := []; LinUCB.cand_prior := Some (3 # 4) |} ].

(** One Newton step from 1: a crude square root, enough for an example. *)
Definition rough_sqrt (q : Q) : Q := ((1 + q) / 2)%Q.

Definition draw (seed : Z) (n : nat) : nat := (Z.to_nat (Z.abs seed) + n)%nat.

End Fixtures.

(** ** What the body schemas accept, key by key *)

Module BodyShape.
Import Feedback.

(** The keys each schema reads; every other key of a body is dropped. *)
Definition feedback_keys : list string :=
  ["contentType"; "contentId"; "bringsBackMemories"; "stressBefore"; "stressAfter";
   "habitCompleted"; "journalText"; "contentYear"; "contentGenre"].

Definition interaction_keys : list string :=
  ["contentType"; "contentId"; "interactionType"; "durationSeconds";
   "bringsBackMemories"; "stressBefore"; "stressAfter"; "habitCompleted";
   "journalText"; "contentYear"; "contentGenre"].

Definition is_string (v : option Js.json) : Prop := exists s, v = Some (Js.JStr s).
Definition is_boolean (v : option Js.json) : Prop := exists b, v = Some (Js.JBool b).
Definition is_number (v : option Js.json) : Prop := exists q, v = Some (Js.JNum q).
Definition is_stress (v : option Js.json) : Prop :=
  exists q, v = Some (Js.JNum q) /\ (0 <= q /\ q <= 1)%Q.
Definition is_content_type (v : option Js.json) : Prop :=
  v = Some (Js.JStr "song") \/ v = Some (Js.JStr "movie").

Definition absent_or (P : option Js.json -> Prop) (v : option Js.json) : Prop :=
  v = None \/ P v.

(** The bodies feedback.post.ts takes, read off its [bodySchema]. *)
Definition acceptable_feedback (m : gmap string Js.json) : Prop :=
  is_content_type (m !! "contentType") /\
  is_string (m !! "contentId") /\
  is_boolean (m !! "bringsBackMemories") /\
  absent_or is_stress (m !! "stressBefore") /\
  absent_or is_stress (m !! "stressAfter") /\
  absent_or is_boolean (m !! "habitCompleted") /\
  absent_or is_string (m !! "journalText") /\
  absent_or is_number (m !! "contentYear") /\
  absent_or is_string (m !! "contentGenre").

(** The body the interaction handler reads out of a body that
    feedback.post.ts accepts and that names no interaction. *)
Definition as_interaction (b : FeedbackBody) : InteractionBody :=
  {| ib_contentType := fb_contentType b;
     ib_contentId := fb_contentId b;
     ib_interactionType := IFeedback;
     ib_durationSeconds := None;
     ib_bringsBackMemories := Some (fb_bringsBackMemories b);
     ib_stressBefore := fb_stressBefore b;
     ib_stressAfter := fb_stressAfter b;
     ib_habitCompleted := fb_habitCompleted b;
     ib_journalText := fb_journalText b;
     ib_contentYear := fb_contentYear b;
     ib_contentGenre := fb_contentGenre b |}.

(** A stress reading of a payload, when there is one, lies in [0, 1]. *)
Definition stress_in_range (reading : option Q) : Prop :=
  forall q, reading = Some q -> (0 <= q /\ q <= 1)%Q.

End BodyShape.

(** ** app/components/home/NostalgicRecommendationCard.vue: submitFeedback *)

Module Card.

(** [String(id)] for a non-negative integer id: its decimal digits, as
    JavaScript prints every integer up to [Number.MAX_SAFE_INTEGER]. *)
Definition String_of_number (n : nat) : string :=
  NilEmpty.string_of_uint (Nat.to_uint n).

(** [Recommendation]: the [type] tag tells which of [Song] (a string id)
    and [Movie] (a numeric id) the content is. *)
Inductive Recommendation : Type :=
  | SongPick (id : string)
  | MoviePick (id : nat).

Definition type_of (r : Recommendation) : string :=
  match r with
  | SongPick _ => "song"
  | MoviePick _ => "movie"
  end.

(** [String(type === 'song' ? (content as Song).id : (content as Movie).id)] *)
Definition content_id (r : Recommendation) : string :=
  match r with
  | SongPick id => id
  | MoviePick id => String_of_number id
  end.

(** The [body] of the POST to [/api/habits/feedback]. *)
Definition submit_body (r : Recommendation) (bringsBackMemories : bool)
  : gmap string Js.json :=
  <["contentType" := Js.JStr (type_of r)]>
  (<["contentId" := Js.JStr (content_id r)]>
  (<["bringsBackMemories" := Js.JBool bringsBackMemories]> ∅)).

Record State : Type := mkState {
  feedbackSubmitted : bool;
  feedbackLoading : bool
}.

(** [submitFeedback]: [post] tells whether the POST of a body resolves
    ([false]: it throws).  Without a recommendation nothing happens;
    otherwise the loading flag is raised, the body is posted, the submitted
    flag is set when the POST resolves (a failure is only logged), and the
    loading flag is lowered in any case. *)
Definition submitFeedback (post : gmap string Js.json -> bool)
    (recommendation : option Recommendation) (bringsBackMemories : bool)
    (st : State) : State * list (gmap string Js.json) :=
  match recommendation with
  | None => (st, [])
  | Some r =>
      let body := submit_body r bringsBackMemories in
      ({| feedbackSubmitted := if post body then true else feedbackSubmitted st;
          feedbackLoading := false |},
       [body])
  end.

(** Whether the POST resolves when [/api/habits/feedback] is served by a
    run of a handler: it does when the run returns, and throws when the run
    throws. *)
Definition resolves {W A E} (run : H3.Outcome A * W * list E) : bool :=
  match fst (fst run) with
  | H3.Returned _ => true
  | H3.Thrown _ => false
  end.

End Card.

(** ** What a run of a feedback handler may change *)

Module Effects.
Import Feedback.


End Effects.

(** ** The queries of the movie-candidate endpoint *)

Module MovieQueries.
Import Movies.

(** The select of the [similar] branch for the recommended ids. *)
Definition similar_select (query : Query) (movieIds : list Z) : Select :=
  {| where_ := InArrayId movieIds :: build_conditions query;
     orderBy := Unordered;
     row_limit := limit query |}.

(** The ids the [similar] branch sends to the recommender: none when the
    mode is another one, or when [selectedIds] is missing or holds no id. *)
Definition liked_ids (query : Query) : list (option Z) :=
  match mode query, selectedIds query with
  | Similar, Some ids => parse_id_list ids
  | _, _ => []
  end.

(** A string of white space only: white-space characters in a row. *)
Inductive blank : string -> Prop :=
  | blank_empty : blank ""
  | blank_space (w s : string) : In w white_space -> blank s -> blank (w ++ s).

(** A string without a comma. *)
Definition comma_free (s : string) : Prop :=
  Forall (fun c => Ascii.eqb c "," = false) (list_ascii_of_string s).

(** [ids.join(',')] for non-negative integer ids. *)
Definition join_ids (ids : list nat) : string :=
  String.concat "," (List.map Card.String_of_number ids).

End MovieQueries.

(** ** The movie-candidate endpoint with the validation of its query *)

Module MovieEndpoint.
Import Movies.

Section Endpoint.

(** [Number(value)] on a value of the decoded query, which is a string, or
    an array of strings when the key is repeated. *)
Variable toNumber : Js.json -> Stats.JsNumber.

Variable fetch_recommend : string -> list (option Z) -> Q -> option (list Z).
Variable db_select : Select -> option (list MovieRow).

(** [z.coerce.number()]: [Number()] is applied to the value, and anything
    but a finite number is of an invalid type ([Number(undefined)] is
    NaN). *)
Definition z_coerce_number : Zod.Schema Q := fun v =>
  match v with
  | Some j =>
      match toNumber j with
      | Stats.Finite q => inr q
      | _ => inl [Zod.InvalidType]
      end
  | None => inl [Zod.InvalidType]
  end.

(** [z.coerce.number().min(lo).max(hi)] *)
Definition z_coerce_number_min_max (lo hi : Q) : Zod.Schema Q := fun v =>
  match z_coerce_number v with
  | inr q => Zod.z_number_min_max lo hi (Some (Js.JNum q))
  | inl codes => inl codes
  end.

(** [z.enum(['random', 'popular', 'similar']).optional().default('random')];
    the default leaves nothing undefined. *)
Definition modeSchema : Zod.Schema Mode := fun v =>
  match Zod.default
          (Zod.optional
             (Zod.z_enum [("random", Random); ("popular", Popular); ("similar", Similar)]))
          (Some Random) v with
  | inr (Some m) => inr m
  | inr None => inr Random
  | inl codes => inl codes
  end.

(** [querySchema] *)
Definition queryShape (m : gmap string Js.json) : Zod.Parse Query :=
  Zod.Parsed mkQuery
    <*> Zod.field m "yearStart" (Zod.optional z_coerce_number)
    <*> Zod.field m "yearEnd" (Zod.optional z_coerce_number)
    <*> Zod.field m "search" (Zod.optional Zod.z_string)
    <*> Zod.field m "limit" (Zod.default (z_coerce_number_min_max 1 50) 20%Q)
    <*> Zod.field m "excludeIds" (Zod.optional Zod.z_string)
    <*> Zod.field m "mode" modeSchema
    <*> Zod.field m "selectedIds" (Zod.optional Zod.z_string).

Definition querySchema : option Js.json -> Zod.Parse Query := Zod.object queryShape.

(** [getValidatedQuery(event, querySchema.parse)]: the decoded query is an
    object; what the schema throws becomes an error with status 400. *)
Definition getValidatedQuery (rawQuery : gmap string Js.json) : Handler Query :=
  match querySchema (Some (Js.JObj rawQuery)) with
  | Zod.Parsed query => H3.ret query
  | Zod.Invalid issues => H3.throw (H3.ValidationError issues)
  end.

(** The event handler, from the decoded query on. *)
Definition endpoint (fastApiUrl : option string) (rawQuery : gmap string Js.json)
  : Handler Response :=
  query <- getValidatedQuery rawQuery ;;
  handler fetch_recommend db_select fastApiUrl query.

End Endpoint.

End MovieEndpoint.

(** ** The dashboard page (unnamed/part_002): what it shows *)

Module Dashboard.

(** The [status] of a [useFetch]. *)
Inductive FetchStatus : Type := Idle | Pending | Success | Failed.

Definition is_success (s : FetchStatus) : bool :=
  match s with Success => true | _ => false end.

(** [prefsStatus.value === 'success' && !prefsData.value?.onboardingComplete] *)
Definition needsOnboarding (prefsStatus : FetchStatus)
    (prefsData : option Preferences.Response) : bool :=
  is_success prefsStatus &&
  negb (match prefsData with
        | Some data => Preferences.onboardingComplete data
        | None => false
        end).

(** [prefsData.value?.preferences?.experimentGroup === 'treatment'] *)
Definition isTreatmentGroup (prefsData : option Preferences.Response) : bool :=
  match prefsData with
  | Some data =>
      match Preferences.preferences data with
      | Some view => String.eqb (Preferences.experimentGroup (Preferences.prefs view)) "treatment"
      | None => false
      end
  | None => false
  end.

(** [prefsData.value?.preferences?.habitType ?? 'exercise'] *)
Definition habitType (prefsData : option Preferences.Response) : string :=
  match prefsData with
  | Some data =>
      match Preferences.preferences data with
      | Some view => Preferences.habitType (Preferences.prefs view)
      | None => "exercise"
      end
  | None => "exercise"
  end.

(** The template: the onboarding notice replaces the dashboard, and the
    recommendation card is part of the dashboard for the treatment group. *)
Definition shows_card (prefsStatus : FetchStatus)
    (prefsData : option Preferences.Response) : bool :=
  negb (needsOnboarding prefsStatus prefsData) && isTreatmentGroup prefsData.

End Dashboard.

(** ** More collaborators for the examples *)

Module MoreFixtures.

(** A recommender that always proposes the movies 3 and 1. *)
Definition recommender_up (url : string) (liked : list (option Z)) (n : Q)
  : option (list Z) := Some [3%Z; 1%Z].

(** [?mode=popular&selectedIds=10,20&limit=5] *)
Definition popular_query : Movies.Query :=
  {| Movies.yearStart := None; Movies.yearEnd := None; Movies.search := None;
     Movies.limit := 5 # 1; Movies.excludeIds := None; Movies.mode := Movies.Popular;
     Movies.selectedIds := Some "10,20" |}.

(** [Number()] on the strings of decimal digits, the empty one included;
    enough for the examples, every other value being NaN here. *)
Definition number_of_digits (v : Js.json) : Stats.JsNumber :=
  match v with
  | Js.JStr s =>
      match NilEmpty.uint_of_string s with
      | Some u => Stats.to_number (inject_Z (Z.of_nat (Nat.of_uint u)))
      | None => Stats.NaN
      end
  | _ => Stats.NaN
  end.

(** [?mode=popular&limit=0] *)
Definition limit_zero : gmap string Js.json :=
  <["mode" := Js.JStr "popular"]> (<["limit" := Js.JStr "0"]> ∅).

(** [?mode=popular&selectedIds=10,20&limit=5] before validation. *)
Definition popular_raw : gmap string Js.json :=
  <["mode" := Js.JStr "popular"]>
  (<["selectedIds" := Js.JStr "10,20"]> (<["limit" := Js.JStr "5"]> ∅)).

End MoreFixtures.

(** ** Definitions used to relate the operations to each other *)

Module Compose.

(** The [[error, data]] tuple that carries what a [Result] carries. *)
Definition tuple_of_result {T} (r : ErrorHandling.Result T ErrorHandling.Thrown)
  : option ErrorHandling.Thrown * option T :=
  match r with
  | ErrorHandling.ResOk data => (None, Some data)
  | ErrorHandling.ResErr error => (Some error, None)
  end.

End Compose.

(* ===================================================================== *)
(** * Part II: properties                                                  *)
(* ===================================================================== *)


(** ** shared/utils/error-handling.ts *)

Section ErrorHandlingProperties.
Import ErrorHandling.

Lemma should_catch_listed (e : Thrown) (classes : list string) (E : string) :
  In E classes -> instanceof e E = true -> should_catch e (Some classes) = true.
Proof.
  intros Hin Hinst. simpl. apply existsb_exists. exists E. split; assumption.
Qed.

Lemma should_catch_false_iff (e : Thrown) (errorsToCatch : option (list string)) :
  should_catch e errorsToCatch = false <->
  exists classes, errorsToCatch = Some classes /\
    forall E, In E classes -> instanceof e E = false.
Proof.
  destruct errorsToCatch as [classes|]; simpl.
  - split.
    + intros Hnone. exists classes. split; [reflexivity|].
      intros E HE. destruct (instanceof e E) eqn:Hinst; [|reflexivity].
      assert (existsb (fun E0 => instanceof e E0) classes = true) as Hex
        by (apply existsb_exists; exists E; split; assumption).
      congruence.
    + intros (classes' & Heq & Hall). injection Heq as <-.
      destruct (existsb (fun E => instanceof e E) classes) eqn:Hex; [|reflexivity].
      apply existsb_exists in Hex as (E & HE & Hinst).
      rewrite (Hall E HE) in Hinst. discriminate.
  - split; [discriminate|]. intros (classes & Heq & _). discriminate.
Qed.

(** C10. [catchError] returns [[undefined, v]] when the awaited value
    resolves to [v]; returns [[e, undefined]] when it rejects with [e] and
    [errorsToCatch] is undefined or lists a class [e] is an instance of;
    re-throws [e] exactly when an explicit list is given and [e] is an
    instance of none of its classes; and settles whenever the promise does.
    [tryCatch] never throws: it returns [{ok: true, data}] on success and
    [{ok: false, error}] on any error, thrown synchronously or not. *)
Theorem catchError_tryCatch_total (T : Type) (x : PromiseOrValue T)
    (errorsToCatch : option (list string)) (fn : unit -> Call T) :
  (forall v, await_resolve x = Resolves v ->
     catchError x errorsToCatch = Returns (None, Some v)) /\
  (forall e, await_resolve x = Rejects e ->
     errorsToCatch = None \/
     (exists classes E, errorsToCatch = Some classes /\ In E classes /\
                        instanceof e E = true) ->
     catchError x errorsToCatch = Returns (Some e, None)) /\
  (forall e, catchError x errorsToCatch = Throws e <->
     await_resolve x = Rejects e /\
     exists classes, errorsToCatch = Some classes /\
       forall E, In E classes -> instanceof e E = false) /\
  (await_resolve x <> Pending -> catchError x errorsToCatch <> NeverSettles) /\
  (forall e, tryCatch fn <> Throws e) /\
  (forall data, await_call fn = Resolves data -> tryCatch fn = Returns (ok data)) /\
  (forall e, await_call fn = Rejects e -> tryCatch fn = Returns (err e)) /\
  (forall e, fn tt = CallThrows e -> tryCatch fn = Returns (err e)).
Proof.
  repeat apply conj.
  - intros v Hv. unfold catchError. rewrite Hv. reflexivity.
  - intros e He Hcatch. unfold catchError. rewrite He.
    assert (should_catch e errorsToCatch = true) as ->; [|reflexivity].
    destruct Hcatch as [-> | (classes & E & -> & HE & Hinst)]; [reflexivity|].
    eapply should_catch_listed; eassumption.
  - intros e. split.
    + unfold catchError. destruct (await_resolve x) as [v|e'|]; try discriminate.
      destruct (should_catch e' errorsToCatch) eqn:Hc; [discriminate|].
      intros H. injection H as <-. split; [reflexivity|].
      apply should_catch_false_iff. exact Hc.
    + intros (He & Hnone). unfold catchError. rewrite He.
      apply should_catch_false_iff in Hnone. rewrite Hnone. reflexivity.
  - intros Hsettles. unfold catchError.
    destruct (await_resolve x) as [v|e|]; [discriminate| |congruence].
    destruct (should_catch e errorsToCatch); discriminate.
  - intros e. unfold tryCatch. destruct (await_call fn); discriminate.
  - intros data Hd. unfold tryCatch. rewrite Hd. reflexivity.
  - intros e He. unfold tryCatch. rewrite He. reflexivity.
  - intros e He. unfold tryCatch, await_call. rewrite He. reflexivity.
Qed.

End ErrorHandlingProperties.

Lemma catchError_tryCatch_total_witness :
  ErrorHandling.catchError (ErrorHandling.Promise (ErrorHandling.Rejects Fixtures.a_type_error))
    (Some ["RangeError"; "Error"])
  = ErrorHandling.Returns (Some Fixtures.a_type_error, @None nat) /\
  ErrorHandling.tryCatch (fun _ => @ErrorHandling.CallThrows nat Fixtures.a_type_error)
  = ErrorHandling.Returns (ErrorHandling.err Fixtures.a_type_error).
Proof.
  pose proof (catchError_tryCatch_total nat
    (ErrorHandling.Promise (ErrorHandling.Rejects Fixtures.a_type_error))
    (Some ["RangeError"; "Error"])
    (fun _ => ErrorHandling.CallThrows Fixtures.a_type_error)) as (_ & Hrej & _ & _ & _ & _ & _ & Hsync).
  split.
  - apply Hrej; [reflexivity|]. right.
    exists ["RangeError"; "Error"], "Error".
    split; [reflexivity|]. split; [right; left; reflexivity | reflexivity].
  - apply Hsync. reflexivity.
Defined.

Example catchError_rethrows_unlisted :
  ErrorHandling.catchError (ErrorHandling.Promise (ErrorHandling.Rejects Fixtures.a_type_error))
    (Some ["RangeError"])
  = @ErrorHandling.Throws (option ErrorHandling.Thrown * option nat) Fixtures.a_type_error.
Proof. reflexivity. Qed.

Example catchError_empty_list_rethrows :
  ErrorHandling.catchError (ErrorHandling.Promise (ErrorHandling.Rejects Fixtures.a_type_error)) (Some [])
  = @ErrorHandling.Throws (option ErrorHandling.Thrown * option nat) Fixtures.a_type_error.
Proof. reflexivity. Qed.

Example catchError_plain_value :
  ErrorHandling.catchError (ErrorHandling.Value 7%nat) (Some [])
  = ErrorHandling.Returns (None, Some 7%nat).
Proof. reflexivity. Qed.

(** ** server/api/habits/preferences.get.ts *)

Example window_1980_in_2026 :
  Preferences.window_of (Preferences.handler 2026 (Some (Preferences.with_birth_year (Some 1980%Z))))
  = Some (Some 1985%Z, Some 1999%Z).
Proof. reflexivity. Qed.

(** C2, as stated, fails: in 2026 a user born in 2010 gets a window that
    ends in 2025, not in 2010 + 19 = 2029, since the end is capped at the
    year before the current one. *)
Lemma nostalgic_window_capped_counterexample :
  Preferences.window_of (Preferences.handler 2026 (Some (Preferences.with_birth_year (Some 2010%Z))))
  = Some (Some 2015%Z, Some 2025%Z) /\
  Preferences.spec_window (Some 2010%Z) = (Some 2015%Z, Some 2029%Z) /\
  Some 2025%Z <> Some 2029%Z.
Proof. repeat split. discriminate. Qed.

(** C2, amended. For a non-null, non-zero birth year the window starts at
    birth-year + 5 and ends at the smaller of birth-year + 19 and the year
    before the current one, hence at birth-year + 19 exactly when that year
    is already over; for a null birth year both bounds are null. *)
Theorem nostalgic_window (fullYear : Z) (p : Preferences.Prefs) :
  (forall y, Preferences.birthYear p = Some y -> y <> 0%Z ->
     Preferences.window_of (Preferences.handler fullYear (Some p))
     = Some (Some (y + 5)%Z, Some (Z.min (y + 19) (fullYear - 1))) /\
     ((y + 19 <= fullYear - 1)%Z ->
      Preferences.window_of (Preferences.handler fullYear (Some p))
      = Some (Preferences.spec_window (Some y)))) /\
  (Preferences.birthYear p = None ->
     Preferences.window_of (Preferences.handler fullYear (Some p))
     = Some (Preferences.spec_window None)).
Proof.
  split.
  - intros y Hy Hnz. unfold Preferences.window_of, Preferences.handler. simpl.
    unfold Preferences.nostalgic_start, Preferences.nostalgic_end. rewrite Hy. simpl.
    destruct (Z.eqb_spec y 0) as [->|_]; [contradiction|]. simpl.
    split; [reflexivity|]. intros Hpast. rewrite Z.min_l by exact Hpast. reflexivity.
  - intros Hnull. unfold Preferences.window_of, Preferences.handler. simpl.
    unfold Preferences.nostalgic_start, Preferences.nostalgic_end. rewrite Hnull.
    reflexivity.
Qed.

Lemma nostalgic_window_witness :
  Preferences.window_of (Preferences.handler 2026 (Some (Preferences.with_birth_year (Some 1980%Z))))
  = Some (Preferences.spec_window (Some 1980%Z)) /\
  Preferences.window_of (Preferences.handler 2026 (Some (Preferences.with_birth_year None)))
  = Some (None, None).
Proof.
  split.
  - apply (nostalgic_window 2026 (Preferences.with_birth_year (Some 1980%Z))).
    + reflexivity.
    + discriminate.
    + simpl; lia.
  - apply (nostalgic_window 2026 (Preferences.with_birth_year None)). reflexivity.
Defined.

(** ** Rounding to binary64 *)

(** On the percentages of [a] in [b] for [a] up to 24 and [b] from 1 to 25,
    and for counts next to [Number.MAX_SAFE_INTEGER], [round] computes what
    the Standard Library's reference arithmetic computes. *)
Example round_agrees_with_the_reference :
  let small := List.map Z.of_nat (List.seq 0 25) in
  List.forallb (fun a =>
    List.forallb (fun b =>
      Double.agrees_with_reference a (b + 1)
      && Double.agrees_with_reference (Double.MAX_SAFE_INTEGER - a) (b + 1)
      && Double.agrees_with_reference (a + 1) (Double.MAX_SAFE_INTEGER - b))
      small) small
  = true.
Proof. vm_compute. reflexivity. Qed.

Section DoubleProperties.
Import Double.
Local Open Scope Q_scope.

Lemma pow2_pos (e : Z) : 0 < pow2 e.
Proof. apply Qpower_0_lt. reflexivity. Qed.

Lemma pow2_add (a b : Z) : pow2 (a + b) == pow2 a * pow2 b.
Proof. apply Qpower_plus. discriminate. Qed.

Lemma pow2_opp (a : Z) : pow2 (- a) == / pow2 a.
Proof. apply Qpower_opp. Qed.

Lemma pow2_Z (n : Z) : (0 <= n)%Z -> pow2 n == inject_Z (2 ^ n).
Proof. intros Hn. unfold pow2. rewrite Zpower_Qpower by exact Hn. reflexivity. Qed.

Lemma pow2_le (a b : Z) : (a <= b)%Z -> pow2 a <= pow2 b.
Proof. intros H. apply Qpower_le_compat_l; [exact H | discriminate]. Qed.

Lemma pow2_lt_inv (a b : Z) : pow2 a < pow2 b -> (a < b)%Z.
Proof. intros H. apply (Qpower_lt_compat_l_inv 2); [exact H | reflexivity]. Qed.

Lemma pow2_sub (a b : Z) : pow2 (a - b) == pow2 a / pow2 b.
Proof.
  unfold Z.sub. rewrite pow2_add, pow2_opp. reflexivity.
Qed.

(** [floor_log2] is the integer part of the binary logarithm. *)
Lemma floor_log2_spec (q : Q) :
  0 < q -> pow2 (floor_log2 q) <= q /\ q < pow2 (floor_log2 q + 1).
Proof.
  intros Hq. destruct q as [n d].
  assert (0 < n)%Z as Hn by (unfold Qlt in Hq; simpl in Hq; lia).
  unfold floor_log2. cbn [Qnum Qden].
  set (ln := Z.log2 n). set (ld := Z.log2 (Zpos d)).
  assert (0 <= ln)%Z as Hln0 by apply Z.log2_nonneg.
  assert (0 <= ld)%Z as Hld0 by apply Z.log2_nonneg.
  destruct (Z.log2_spec n Hn) as [Hn1 Hn2]. fold ln in Hn1, Hn2.
  destruct (Z.log2_spec (Zpos d) (Pos2Z.is_pos d)) as [Hd1 Hd2]. fold ld in Hd1, Hd2.
  assert (n # d == inject_Z n / inject_Z (Zpos d)) as Hnd by apply Qmake_Qdiv.
  assert (0 < inject_Z (Zpos d)) as Hdpos.
  { change 0 with (inject_Z 0). rewrite <- Zlt_Qlt. lia. }
  assert (pow2 ln <= inject_Z n) as Qn1.
  { rewrite pow2_Z by exact Hln0. rewrite <- Zle_Qle. exact Hn1. }
  assert (inject_Z n < pow2 (ln + 1)) as Qn2.
  { rewrite pow2_Z by lia. rewrite <- Zlt_Qlt. replace (ln + 1)%Z with (Z.succ ln) by lia. exact Hn2. }
  assert (pow2 ld <= inject_Z (Zpos d)) as Qd1.
  { rewrite pow2_Z by exact Hld0. rewrite <- Zle_Qle. exact Hd1. }
  assert (inject_Z (Zpos d) < pow2 (ld + 1)) as Qd2.
  { rewrite pow2_Z by lia. rewrite <- Zlt_Qlt. replace (ld + 1)%Z with (Z.succ ld) by lia. exact Hd2. }
  pose proof (pow2_pos ln) as Pln. pose proof (pow2_pos ld) as Pld.
  pose proof (pow2_pos (ln - ld)) as Pk.
  (* the quotient lies strictly between 2^(k-1) and 2^(k+1) *)
  assert (pow2 (ln - ld - 1) < n # d) as Hlow.
  { rewrite Hnd. apply Qlt_shift_div_l; [exact Hdpos|].
    replace (ln - ld - 1)%Z with (ln - (ld + 1))%Z by lia.
    rewrite pow2_sub.
    pose proof (pow2_pos (ld + 1)) as Pld1.
    apply Qlt_le_trans with (pow2 ln); [|exact Qn1].
    assert (pow2 ln / pow2 (ld + 1) * inject_Z (Zpos d)
            == pow2 ln * (inject_Z (Zpos d) / pow2 (ld + 1))) as -> by (field; lra).
    assert (inject_Z (Zpos d) / pow2 (ld + 1) < 1) as Hfrac.
    { apply Qlt_shift_div_r; [exact Pld1 | lra]. }
    nra. }
  assert (n # d < pow2 (ln - ld + 1)) as Hhigh.
  { rewrite Hnd. apply Qlt_shift_div_r; [exact Hdpos|].
    replace (ln - ld + 1)%Z with (ln + 1 - ld)%Z by lia.
    rewrite pow2_sub.
    pose proof (pow2_pos (ln + 1)) as Pln1.
    apply Qlt_le_trans with (pow2 (ln + 1)); [exact Qn2|].
    assert (pow2 (ln + 1) / pow2 ld * inject_Z (Zpos d)
            == pow2 (ln + 1) * (inject_Z (Zpos d) / pow2 ld)) as -> by (field; lra).
    assert (1 <= inject_Z (Zpos d) / pow2 ld) as Hfrac.
    { apply Qle_shift_div_l; [exact Pld | lra]. }
    nra. }
  destruct (Qle_bool (pow2 (ln - ld)) (n # d)) eqn:Hcmp.
  - apply Qle_bool_iff in Hcmp. split; [exact Hcmp | exact Hhigh].
  - split; [apply Qlt_le_weak; exact Hlow|].
    replace (ln - ld - 1 + 1)%Z with (ln - ld)%Z by lia.
    apply Qnot_le_lt. intros Hle. apply Qle_bool_iff in Hle. congruence.
Qed.

Lemma floor_log2_lt (q : Q) (k : Z) : 0 < q -> q < pow2 k -> (floor_log2 q < k)%Z.
Proof.
  intros Hq Hk. destruct (floor_log2_spec q Hq) as [Hlo _].
  apply pow2_lt_inv. apply Qle_lt_trans with q; assumption.
Qed.

Lemma floor_log2_ge (q : Q) (k : Z) : 0 < q -> pow2 k <= q -> (k <= floor_log2 q)%Z.
Proof.
  intros Hq Hk. destruct (floor_log2_spec q Hq) as [_ Hhi].
  assert (k < floor_log2 q + 1)%Z; [|lia].
  apply pow2_lt_inv. apply Qle_lt_trans with q; assumption.
Qed.

(** The nearest integer is within one half, and respects integer bounds. *)
Lemma nearest_even_cases (q : Q) :
  (nearest_even q = Qfloor q /\ q - inject_Z (Qfloor q) <= 1 # 2) \/
  (nearest_even q = (Qfloor q + 1)%Z /\ 1 # 2 <= q - inject_Z (Qfloor q)).
Proof.
  unfold nearest_even.
  destruct (Qcompare (q - inject_Z (Qfloor q)) (1 # 2)) eqn:Hc.
  - apply Qeq_alt in Hc.
    destruct (Z.even (Qfloor q)); [left | right]; (split; [reflexivity|]);
      rewrite Hc; apply Qle_refl.
  - apply Qlt_alt in Hc. left. split; [reflexivity | lra].
  - apply Qgt_alt in Hc. right. split; [reflexivity | lra].
Qed.

Lemma nearest_even_close (q : Q) : Qabs (inject_Z (nearest_even q) - q) <= 1 # 2.
Proof.
  pose proof (Qfloor_le q) as Hlo. pose proof (Qlt_floor q) as Hhi.
  rewrite inject_Z_plus in Hhi. change (inject_Z 1) with 1 in Hhi.
  apply Qabs_Qle_condition.
  destruct (nearest_even_cases q) as [[-> H] | [-> H]].
  - split; lra.
  - rewrite inject_Z_plus. change (inject_Z 1) with 1. split; lra.
Qed.

Lemma nearest_even_le (q : Q) (n : Z) : q <= inject_Z n -> (nearest_even q <= n)%Z.
Proof.
  intros Hq.
  pose proof (Qfloor_resp_le q (inject_Z n) Hq) as Hfl. rewrite Qfloor_Z in Hfl.
  destruct (nearest_even_cases q) as [[-> _] | [-> H]]; [exact Hfl|].
  assert (Qfloor q < n)%Z; [|lia].
  rewrite Zlt_Qlt.
  pose proof (Qfloor_le q). lra.
Qed.

Lemma nearest_even_ge (q : Q) (n : Z) : inject_Z n <= q -> (n <= nearest_even q)%Z.
Proof.
  intros Hq.
  pose proof (Qfloor_resp_le (inject_Z n) q Hq) as Hfl. rewrite Qfloor_Z in Hfl.
  destruct (nearest_even_cases q) as [[-> _] | [-> _]]; lia.
Qed.

Lemma Qabs_of_nonneg (q : Q) : 0 <= q -> Qabs q = q.
Proof.
  destruct q as [n d]. unfold Qle, Qabs. simpl. intros H.
  f_equal. apply Z.abs_eq. lia.
Qed.

Lemma round_unfold (q : Q) :
  ~ q == 0 ->
  round q == inject_Z (nearest_even (q / pow2 (last_place q))) * pow2 (last_place q).
Proof.
  intros Hq. unfold round.
  destruct (Qeq_bool q 0) eqn:H0.
  - apply Qeq_bool_iff in H0. contradiction.
  - cbv zeta. apply Qred_correct.
Qed.

(** Rounding does not cross an integer below 2^53. *)
Lemma round_le_integer (q : Q) (K : Z) :
  0 < q -> q <= inject_Z K -> (K < 2 ^ 53)%Z ->
  0 <= round q <= inject_Z K.
Proof.
  intros Hq HK Hsmall.
  assert (~ q == 0) as Hnz by lra.
  rewrite (round_unfold q Hnz).
  set (e := last_place q).
  pose proof (pow2_pos e) as Pe.
  assert (e <= 0)%Z as He.
  { unfold e, last_place. rewrite Qabs_of_nonneg by lra.
    assert (floor_log2 q < 53)%Z; [|lia].
    apply floor_log2_lt; [exact Hq|].
    rewrite pow2_Z by lia. apply Qle_lt_trans with (inject_Z K); [exact HK|].
    rewrite <- Zlt_Qlt. exact Hsmall. }
  assert (inject_Z K == inject_Z (K * 2 ^ (- e)) * pow2 e) as HKe.
  { rewrite inject_Z_mult. rewrite <- pow2_Z by lia. rewrite pow2_opp. field. lra. }
  assert (0 <= nearest_even (q / pow2 e) <= K * 2 ^ (- e))%Z as [Hm0 Hm1].
  { split.
    - apply nearest_even_ge. change (inject_Z 0) with 0.
      apply Qle_shift_div_l; [exact Pe | lra].
    - apply nearest_even_le. apply Qle_shift_div_r; [exact Pe|]. rewrite <- HKe. exact HK. }
  rewrite Zle_Qle in Hm0, Hm1. change (inject_Z 0) with 0 in Hm0.
  split; [nra|]. rewrite HKe. nra.
Qed.

(** In the range of the normal numbers, rounding moves a number by at most
    one part in 2^53. *)
Lemma round_close (q : Q) :
  pow2 (-1022) <= q -> Qabs (round q - q) <= q * pow2 (-53).
Proof.
  intros Hq.
  pose proof (pow2_pos (-1022)) as Pmin.
  assert (0 < q) as Hpos by lra.
  assert (~ q == 0) as Hnz by lra.
  rewrite (round_unfold q Hnz).
  assert (last_place q = floor_log2 q - 52)%Z as ->.
  { unfold last_place. rewrite Qabs_of_nonneg by lra.
    pose proof (floor_log2_ge q (-1022) Hpos Hq). lia. }
  set (fl := floor_log2 q).
  destruct (floor_log2_spec q Hpos) as [Hlo _]. fold fl in Hlo.
  pose proof (pow2_pos (fl - 52)) as Pe.
  pose proof (nearest_even_close (q / pow2 (fl - 52))) as Hclose.
  set (m := inject_Z (nearest_even (q / pow2 (fl - 52)))) in *.
  assert (m * pow2 (fl - 52) - q == (m - q / pow2 (fl - 52)) * pow2 (fl - 52)) as ->
    by (field; lra).
  rewrite Qabs_Qmult. rewrite (Qabs_pos (pow2 (fl - 52))) by lra.
  assert (pow2 (fl - 52) * (1 # 2) <= q * pow2 (-53)) as Hulp.
  { assert (pow2 (fl - 52) * (1 # 2) == pow2 fl * pow2 (-53)) as ->.
    { replace (fl - 52)%Z with (fl + (-52))%Z by lia. rewrite pow2_add.
      assert (pow2 (-52) * (1 # 2) == pow2 (-53)) as <- by reflexivity. ring. }
    pose proof (pow2_pos (-53)). nra. }
  pose proof (Qabs_nonneg (m - q / pow2 (fl - 52))).
  nra.
Qed.

Lemma in_range (r : Q) : Qabs r < pow2 1024 -> out_of_range r = false.
Proof.
  intros Hr. unfold out_of_range.
  destruct (Qle_bool (pow2 1024) (Qabs r)) eqn:Hcmp; [|reflexivity].
  apply Qle_bool_iff in Hcmp. lra.
Qed.

(** Rounding leaves an integer below 2^53 as it is. *)
Lemma round_integer (n : Z) : (0 < n < 2 ^ 53)%Z -> round (inject_Z n) == inject_Z n.
Proof.
  intros Hn.
  assert (0 < inject_Z n) as Hpos.
  { change 0 with (inject_Z 0). rewrite <- Zlt_Qlt. lia. }
  rewrite round_unfold by lra.
  set (e := last_place (inject_Z n)).
  pose proof (pow2_pos e) as Pe.
  assert (e <= 0)%Z as He.
  { unfold e, last_place. rewrite Qabs_of_nonneg by lra.
    assert (floor_log2 (inject_Z n) < 53)%Z; [|lia].
    apply floor_log2_lt; [exact Hpos|].
    rewrite pow2_Z by lia. rewrite <- Zlt_Qlt. lia. }
  assert (inject_Z n / pow2 e == inject_Z (n * 2 ^ (- e))) as Hx.
  { rewrite inject_Z_mult. rewrite <- pow2_Z by lia. rewrite pow2_opp. field. lra. }
  assert (nearest_even (inject_Z n / pow2 e) = (n * 2 ^ (- e))%Z) as ->.
  { apply Z.le_antisymm.
    - apply nearest_even_le. rewrite Hx. apply Qle_refl.
    - apply nearest_even_ge. rewrite Hx. apply Qle_refl. }
  rewrite <- Hx. field. lra.
Qed.

(** Integers up to [Number.MAX_SAFE_INTEGER] are numbers. *)
Lemma of_integer_safe (n : Z) :
  (0 <= n <= MAX_SAFE_INTEGER)%Z -> of_integer n = Some n.
Proof.
  unfold MAX_SAFE_INTEGER. intros Hn.
  destruct (Z.eq_dec n 0%Z) as [-> | Hnz]; [reflexivity|].
  assert (round (inject_Z n) == inject_Z n) as Hround by (apply round_integer; lia).
  unfold of_integer. cbv zeta. rewrite in_range.
  - f_equal. rewrite <- (Qfloor_Z n) at 2. apply Qfloor_comp. exact Hround.
  - rewrite Hround. rewrite Qabs_pos.
    + apply Qlt_le_trans with (pow2 53); [|apply pow2_le; lia].
      rewrite pow2_Z by lia. rewrite <- Zlt_Qlt. lia.
    + change 0 with (inject_Z 0). rewrite <- Zle_Qle. lia.
Qed.

End DoubleProperties.

(** ** server/api/admin/stats.get.ts *)

Section StatsProperties.
Import Double Stats.
Local Open Scope Q_scope.

Lemma js_div_nonzero (a b : Q) : ~ b == 0 -> js_div a b = to_number (a / b).
Proof.
  intros Hb. unfold js_div.
  destruct (Qeq_bool b 0) eqn:Heq; [|reflexivity].
  apply Qeq_bool_iff in Heq. contradiction.
Qed.

Lemma to_number_zero (q : Q) : q == 0 -> to_number q = Finite 0.
Proof.
  intros Hq. unfold to_number, round.
  apply Qeq_bool_iff in Hq. rewrite Hq. reflexivity.
Qed.

(** An operation whose exact result lies between 0 and an integer below
    2^53 returns a finite number in the same interval. *)
Lemma to_number_bounded (q : Q) (K : Z) :
  0 <= q -> q <= inject_Z K -> (K < 2 ^ 53)%Z ->
  exists r, to_number q = Finite r /\ 0 <= r <= inject_Z K.
Proof.
  intros Hq HK Hsmall.
  destruct (Qeq_dec q 0) as [Hzero | Hnz].
  - exists 0. split; [apply to_number_zero; exact Hzero | lra].
  - assert (0 < q) as Hpos by lra.
    destruct (round_le_integer q K Hpos HK Hsmall) as [Hlo Hhi].
    exists (round q). split; [|split; assumption].
    unfold to_number. rewrite in_range; [reflexivity|].
    rewrite Qabs_pos by exact Hlo.
    apply Qle_lt_trans with (inject_Z K); [exact Hhi|].
    apply Qlt_le_trans with (pow2 53).
    + rewrite pow2_Z by lia. rewrite <- Zlt_Qlt. exact Hsmall.
    + apply pow2_le. lia.
Qed.

(** An operation whose exact result is in the range of the normal numbers
    returns a finite number within one part in 2^53 of it. *)
Lemma to_number_close (q : Q) :
  pow2 (-1022) <= q -> q <= pow2 1000 ->
  exists r, to_number q = Finite r /\ Qabs (r - q) <= q * pow2 (-53).
Proof.
  intros Hlo Hhi.
  pose proof (round_close q Hlo) as Hclose.
  exists (round q). split; [|exact Hclose].
  unfold to_number. rewrite in_range; [reflexivity|].
  pose proof (pow2_pos (-1022)) as Pmin.
  apply Qabs_diff_Qle_condition in Hclose.
  assert (pow2 (-53) <= 1) as Hd by (vm_compute; discriminate).
  pose proof (pow2_pos (-53)) as Pd.
  assert (pow2 1000 * 2 < pow2 1024) as Hroom by (vm_compute; reflexivity).
  apply Qabs_case; intros Hsign; nra.
Qed.

Lemma find_group_none (name : string) (rows : list CompletionRow) :
  List.Forall (fun g => experimentGroup g <> Some name) rows ->
  find_group name rows = None.
Proof.
  unfold find_group. induction 1 as [|g rows Hg _ IH]; simpl; [reflexivity|].
  destruct (experimentGroup g) as [s|]; [|exact IH].
  destruct (String.eqb_spec s name) as [-> | _]; [contradiction | exact IH].
Qed.

Lemma find_group_first (name : string) (pre post : list CompletionRow) (r : CompletionRow) :
  List.Forall (fun g => experimentGroup g <> Some name) pre ->
  experimentGroup r = Some name ->
  find_group name (pre ++ r :: post)%list = Some r.
Proof.
  intros Hpre Hr. unfold find_group.
  induction Hpre as [|g pre Hg _ IH]; simpl.
  - rewrite Hr. rewrite String.eqb_refl. reflexivity.
  - destruct (experimentGroup g) as [s|]; [|exact IH].
    destruct (String.eqb_spec s name) as [-> | _]; [contradiction | exact IH].
Qed.

(** The two roundings of [count / total * 100] together. *)
Lemma rate_is_close (c t : Z) :
  (0 <= c <= MAX_SAFE_INTEGER)%Z -> (0 < t <= MAX_SAFE_INTEGER)%Z ->
  exists q, js_mul (js_div (inject_Z c) (inject_Z t)) 100 = Finite q /\
            Qabs (q - inject_Z c / inject_Z t * 100)
            <= inject_Z c / inject_Z t * 100 * pow2 (-51).
Proof.
  unfold MAX_SAFE_INTEGER. intros Hc Ht.
  assert (0 < inject_Z t) as Qt.
  { change 0 with (inject_Z 0). rewrite <- Zlt_Qlt. lia. }
  assert (inject_Z t <= pow2 53) as Qt53.
  { rewrite pow2_Z by lia. rewrite <- Zle_Qle. lia. }
  rewrite js_div_nonzero by lra.
  pose proof (pow2_pos (-51)) as P51.
  destruct (Z.eq_dec c 0%Z) as [-> | Hcnz].
  - assert (inject_Z 0 / inject_Z t == 0) as Hx by (unfold Qdiv; ring).
    rewrite (to_number_zero _ Hx). cbn [js_mul].
    exists 0. split; [apply to_number_zero; reflexivity|].
    rewrite Hx. vm_compute. discriminate.
  - set (x := inject_Z c / inject_Z t).
    assert (1 <= inject_Z c) as Qc1.
    { change 1 with (inject_Z 1). rewrite <- Zle_Qle. lia. }
    assert (inject_Z c <= pow2 53) as Qc53.
    { rewrite pow2_Z by lia. rewrite <- Zle_Qle. lia. }
    assert (pow2 (-53) <= x) as Hxlo.
    { unfold x. apply Qle_shift_div_l; [exact Qt|].
      assert (pow2 (-53) * pow2 53 == 1) as Hone by reflexivity.
      pose proof (pow2_pos (-53)). nra. }
    assert (x <= pow2 53) as Hxhi.
    { unfold x. apply Qle_shift_div_r; [exact Qt|].
      assert (1 <= inject_Z t) as Qt1.
      { change 1 with (inject_Z 1). rewrite <- Zle_Qle. lia. }
      pose proof (pow2_pos 53). nra. }
    pose proof (pow2_pos (-53)) as Pd.
    assert (pow2 (-53) <= 1 # 2) as Hd by (vm_compute; discriminate).
    assert (pow2 (-51) == 4 * pow2 (-53)) as H51 by reflexivity.
    destruct (to_number_close x) as (y & Hy & Hyx).
    { apply Qle_trans with (pow2 (-53)); [apply pow2_le; lia | exact Hxlo]. }
    { apply Qle_trans with (pow2 53); [exact Hxhi | apply pow2_le; lia]. }
    rewrite Hy. cbn [js_mul].
    apply Qabs_diff_Qle_condition in Hyx.
    assert (pow2 (-1022) * 2 <= pow2 (-53)) as Hsmall by (vm_compute; discriminate).
    assert (pow2 53 * 200 <= pow2 1000) as Hbig by (vm_compute; discriminate).
    pose proof (pow2_pos (-1022)) as Pmin.
    destruct (to_number_close (y * 100)) as (z & Hz & Hzy).
    { nra. }
    { nra. }
    exists z. split; [exact Hz|].
    apply Qabs_diff_Qle_condition in Hzy.
    apply Qabs_diff_Qle_condition.
    rewrite H51. split; nra.
Qed.

Lemma rate_meets_claim (t : N) (completed : option N) :
  rate_as_claimed t completed (rate (Some t) completed).
Proof.
  unfold rate_as_claimed, rate, safe_count. cbv zeta. split.
  - intros ->. reflexivity.
  - intros Hnz Ht Hc.
    assert ((t =? 0)%N = false) as -> by (apply N.eqb_neq; exact Hnz).
    assert ((0 <? t)%N = true) as -> by (apply N.ltb_lt; lia).
    cbn [negb andb].
    assert (Number completed
            = inject_Z (Z.of_N (match completed with Some c => c | None => 0%N end))) as ->
      by (destruct completed; reflexivity).
    split; [reflexivity|].
    apply rate_is_close; lia.
Qed.

(** C9. The statistics handler never divides by zero.  For each experiment
    group, the completion rate is 0 when the query returned no row of the
    group, and 0 when the first row of the group has a total of zero;
    otherwise it is that row's completed count (0 for NULL) divided by its
    total, times 100, as JavaScript computes it: a finite number, equal to
    the exact ratio up to the two roundings.  The positive-feedback rate is
    0 without a feedback row or with a total of zero, and positive / total
    * 100 in the same sense otherwise.  (Counts are exact in a JavaScript
    number up to [Number.MAX_SAFE_INTEGER].) *)
Theorem stats_rates_never_divide_by_zero (completionByGroup : list CompletionRow)
    (feedbackStats : option FeedbackStats) :
  let response := handler completionByGroup feedbackStats in
  (forall name reported,
     (name = "treatment" /\ reported = completion_treatment response) \/
     (name = "control" /\ reported = completion_control response) ->
     (List.Forall (fun g => experimentGroup g <> Some name) completionByGroup ->
      gc_rate reported = Finite 0) /\
     (forall pre r post,
        completionByGroup = (pre ++ r :: post)%list ->
        List.Forall (fun g => experimentGroup g <> Some name) pre ->
        experimentGroup r = Some name ->
        rate_as_claimed (totalLogs r) (completedLogs r) (gc_rate reported))) /\
  (feedbackStats = None ->
   nf_positiveRate (nostalgiaFeedback response) = Finite 0) /\
  (forall s, feedbackStats = Some s ->
     rate_as_claimed (totalFeedback s) (positiveFeedback s)
       (nf_positiveRate (nostalgiaFeedback response))).
Proof.
  cbv zeta. split; [|split].
  - intros name reported Hwhich.
    assert (gc_rate reported
            = gc_rate (group_completion (find_group name completionByGroup))) as ->.
    { destruct Hwhich as [[-> ->] | [-> ->]]; reflexivity. }
    split.
    + intros Hnone. rewrite (find_group_none name _ Hnone). reflexivity.
    + intros pre r post -> Hpre Hr.
      rewrite (find_group_first name pre post r Hpre Hr).
      apply rate_meets_claim.
  - intros ->. reflexivity.
  - intros s ->. apply rate_meets_claim.
Qed.

End StatsProperties.

Example stats_three_of_four :
  Stats.gc_rate (Stats.completion_treatment
    (Stats.handler
       [ {| Stats.experimentGroup := Some "control"; Stats.totalLogs := 0%N;
            Stats.completedLogs := None |};
         {| Stats.experimentGroup := Some "treatment"; Stats.totalLogs := 4%N;
            Stats.completedLogs := Some 3%N |} ] None))
  = Stats.Finite 75.
Proof. vm_compute. reflexivity. Qed.

(** 7 of 25 is reported as 28.000000000000004, one unit in the last place
    above 28. *)
Example stats_seven_of_twenty_five :
  Stats.rate (Some 25%N) (Some 7%N) = Stats.Finite (7881299347898369 # 281474976710656) /\
  (7881299347898369 # 281474976710656 == 28 + Double.pow2 (-48))%Q.
Proof. split; vm_compute; reflexivity. Qed.

Example stats_empty_group_rate :
  Stats.gc_rate (Stats.completion_control
    (Stats.handler
       [ {| Stats.experimentGroup := Some "control"; Stats.totalLogs := 0%N;
            Stats.completedLogs := None |} ] None))
  = Stats.Finite 0 /\
  Stats.nf_positiveRate (Stats.nostalgiaFeedback (Stats.handler [] None)) = Stats.Finite 0.
Proof. split; reflexivity. Qed.

(** ** The zod schemas *)

Section ZodProperties.
Import Zod.

Lemma ap_Parsed_inv {A B} (f : Parse (A -> B)) (x : Parse A) (b : B) :
  f <*> x = Parsed b -> exists g a, f = Parsed g /\ x = Parsed a /\ b = g a.
Proof.
  destruct f as [g|i], x as [a|j]; simpl; try discriminate.
  intros H. injection H as <-. exists g, a. repeat split.
Qed.

Lemma ap_issues {A B} (f : Parse (A -> B)) (x : Parse A) :
  issues_of (f <*> x) = (issues_of f ++ issues_of x)%list.
Proof.
  destruct f as [g|i], x as [a|j]; simpl; try reflexivity.
  symmetry. apply app_nil_r.
Qed.

Lemma issue_makes_invalid {A} (p : Parse A) (i : Issue) :
  In i (issues_of p) -> exists issues, p = Invalid issues /\ In i issues.
Proof.
  destruct p as [a|issues]; simpl; [contradiction|].
  intros Hin. exists issues. split; [reflexivity | assumption].
Qed.

Lemma field_delete_ne {A} (m : gmap string Js.json) (k k' : string) (schema : Schema A) :
  k <> k' -> field (delete k m) k' schema = field m k' schema.
Proof.
  intros Hne. unfold field. rewrite lookup_delete_ne by exact Hne. reflexivity.
Qed.

Lemma field_delete_optional {A} (m : gmap string Js.json) (k : string) (inner : Schema A) :
  field (delete k m) k (optional inner) = Parsed None.
Proof.
  unfold field. rewrite lookup_delete_eq. reflexivity.
Qed.

Lemma field_absent_optional {A} (m : gmap string Js.json) (k : string) (inner : Schema A) :
  m !! k = None -> field m k (optional inner) = Parsed None.
Proof.
  intros Hnone. unfold field. rewrite Hnone. reflexivity.
Qed.

(** A number outside [lo, hi] is refused with [too_small] or [too_big]. *)
Lemma min_max_rejects (lo hi q : Q) :
  ~ (lo <= q /\ q <= hi)%Q ->
  exists c, (c = TooSmall \/ c = TooBig) /\ In c
    (match optional (z_number_min_max lo hi) (Some (Js.JNum q)) with
     | inl codes => codes
     | inr _ => []
     end).
Proof.
  intros Hout. unfold optional, z_number_min_max. simpl.
  destruct (Qle_bool lo q) eqn:Hlo; simpl.
  - destruct (Qle_bool q hi) eqn:Hhi; simpl.
    + exfalso. apply Hout. split; apply Qle_bool_iff; assumption.
    + exists TooBig. split; [right; reflexivity | left; reflexivity].
  - exists TooSmall. split; [left; reflexivity|].
    destruct (Qle_bool q hi); left; reflexivity.
Qed.

(** A number inside [lo, hi] is passed through unchanged. *)
Lemma min_max_accepts (lo hi q : Q) :
  (lo <= q /\ q <= hi)%Q ->
  optional (z_number_min_max lo hi) (Some (Js.JNum q)) = inr (Some q).
Proof.
  intros [Hlo Hhi]. unfold optional, z_number_min_max. simpl.
  apply Qle_bool_iff in Hlo, Hhi. rewrite Hlo, Hhi. reflexivity.
Qed.

End ZodProperties.

(** ** The feedback and interaction handlers *)

Section FeedbackProperties.
Import Zod Feedback.

Context {Bandit : Type}.
Variable bandit_feedback : BanditPayload -> Bandit -> Bandit * bool.
Variable nanoid : nat -> string.
Variable db_accepts : list FeedbackRow -> FeedbackRow -> bool.

#[local] Abbreviation feedback_run := (feedback_handler bandit_feedback nanoid db_accepts).
#[local] Abbreviation interaction_run := (interaction_handler bandit_feedback nanoid db_accepts).

(** *** What the schemas accept *)

Lemma feedbackShape_inv (m : gmap string Js.json) (b : FeedbackBody) :
  feedbackShape m = Parsed b ->
  field m "contentType" contentTypeSchema = Parsed (fb_contentType b) /\
  field m "contentId" z_string = Parsed (fb_contentId b) /\
  field m "bringsBackMemories" z_boolean = Parsed (fb_bringsBackMemories b) /\
  field m "stressBefore" stressSchema = Parsed (fb_stressBefore b) /\
  field m "stressAfter" stressSchema = Parsed (fb_stressAfter b) /\
  field m "habitCompleted" (optional z_boolean) = Parsed (fb_habitCompleted b) /\
  field m "journalText" (optional z_string) = Parsed (fb_journalText b) /\
  field m "contentYear" (optional z_number) = Parsed (fb_contentYear b) /\
  field m "contentGenre" (optional z_string) = Parsed (fb_contentGenre b).
Proof.
  unfold feedbackShape. intros H.
  repeat (apply ap_Parsed_inv in H as (? & ? & H & ? & ?)).
  injection H as <-. subst. simpl. repeat split; assumption.
Qed.

Lemma interactionShape_inv (m : gmap string Js.json) (b : InteractionBody) :
  interactionShape m = Parsed b ->
  field m "contentType" contentTypeSchema = Parsed (ib_contentType b) /\
  field m "contentId" z_string = Parsed (ib_contentId b) /\
  field m "interactionType" interactionTypeSchema = Parsed (ib_interactionType b) /\
  field m "durationSeconds" (optional z_number) = Parsed (ib_durationSeconds b) /\
  field m "bringsBackMemories" (optional z_boolean) = Parsed (ib_bringsBackMemories b) /\
  field m "stressBefore" stressSchema = Parsed (ib_stressBefore b) /\
  field m "stressAfter" stressSchema = Parsed (ib_stressAfter b) /\
  field m "habitCompleted" (optional z_boolean) = Parsed (ib_habitCompleted b) /\
  field m "journalText" (optional z_string) = Parsed (ib_journalText b) /\
  field m "contentYear" (optional z_number) = Parsed (ib_contentYear b) /\
  field m "contentGenre" (optional z_string) = Parsed (ib_contentGenre b).
Proof.
  unfold interactionShape. intros H.
  repeat (apply ap_Parsed_inv in H as (? & ? & H & ? & ?)).
  injection H as <-. subst. simpl. repeat split; assumption.
Qed.

Lemma feedbackShape_issues (m : gmap string Js.json) :
  issues_of (feedbackShape m) =
  (issues_of (field m "contentType" contentTypeSchema) ++
   issues_of (field m "contentId" z_string) ++
   issues_of (field m "bringsBackMemories" z_boolean) ++
   issues_of (field m "stressBefore" stressSchema) ++
   issues_of (field m "stressAfter" stressSchema) ++
   issues_of (field m "habitCompleted" (optional z_boolean)) ++
   issues_of (field m "journalText" (optional z_string)) ++
   issues_of (field m "contentYear" (optional z_number)) ++
   issues_of (field m "contentGenre" (optional z_string)))%list.
Proof.
  unfold feedbackShape. rewrite !ap_issues. simpl. rewrite <- !app_assoc. reflexivity.
Qed.

Lemma interactionShape_issues (m : gmap string Js.json) :
  issues_of (interactionShape m) =
  (issues_of (field m "contentType" contentTypeSchema) ++
   issues_of (field m "contentId" z_string) ++
   issues_of (field m "interactionType" interactionTypeSchema) ++
   issues_of (field m "durationSeconds" (optional z_number)) ++
   issues_of (field m "bringsBackMemories" (optional z_boolean)) ++
   issues_of (field m "stressBefore" stressSchema) ++
   issues_of (field m "stressAfter" stressSchema) ++
   issues_of (field m "habitCompleted" (optional z_boolean)) ++
   issues_of (field m "journalText" (optional z_string)) ++
   issues_of (field m "contentYear" (optional z_number)) ++
   issues_of (field m "contentGenre" (optional z_string)))%list.
Proof.
  unfold interactionShape. rewrite !ap_issues. simpl. rewrite <- !app_assoc. reflexivity.
Qed.

(** *** What a run of each handler does *)

Lemma feedback_handler_run (config : RuntimeConfig) (req : Request) (w : World) :
  feedback_run config req w =
  match session req with
  | None => (H3.Thrown H3.Unauthorized, w, [])
  | Some user =>
      match feedbackBodySchema (body req) with
      | Invalid issues => (H3.Thrown (H3.ValidationError issues), w, [])
      | Parsed b =>
          let row := feedback_row (nanoid (ids_drawn w)) user b in
          let payload := feedback_payload user b in
          if db_accepts (contentFeedback w) row
          then (H3.Returned {| feedback := row; message := "Feedback recorded" |},
                {| contentFeedback := (contentFeedback w ++ [row])%list;
                   bandit := fst (bandit_feedback payload (bandit w));
                   ids_drawn := S (ids_drawn w) |},
                EvInsert row :: EvPost (feedback_url config) payload ::
                (if snd (bandit_feedback payload (bandit w)) then []
                 else [EvConsoleError update_failed]))
          else (H3.Thrown H3.DatabaseError,
                {| contentFeedback := contentFeedback w; bandit := bandit w;
                   ids_drawn := S (ids_drawn w) |}, [])
      end
  end.
Proof.
  unfold feedback_handler, H3.bind, requireAuth, readValidatedBody.
  destruct (session req) as [user|]; [|reflexivity]. simpl.
  destruct (feedbackBodySchema (body req)) as [b|issues]; [|reflexivity]. simpl.
  unfold db_insert. simpl.
  destruct (db_accepts _ _); [|reflexivity]. simpl.
  unfold H3.try_catch, fetch_post. simpl.
  destruct (bandit_feedback _ _) as [b' resolved]. simpl.
  destruct resolved; reflexivity.
Qed.

Lemma interaction_handler_run (config : RuntimeConfig) (req : Request) (w : World) :
  interaction_run config req w =
  match session req with
  | None => (H3.Thrown H3.Unauthorized, w, [])
  | Some user =>
      match interactionBodySchema (body req) with
      | Invalid issues => (H3.Thrown (H3.ValidationError issues), w, [])
      | Parsed b =>
          let row := interaction_row (nanoid (ids_drawn w)) user b in
          let payload := interaction_payload user b in
          if db_accepts (contentFeedback w) row
          then
            if is_explicit_feedback b
            then (H3.Returned {| feedback := row; message := "Interaction recorded" |},
                  {| contentFeedback := (contentFeedback w ++ [row])%list;
                     bandit := fst (bandit_feedback payload (bandit w));
                     ids_drawn := S (ids_drawn w) |},
                  EvInsert row :: EvPost (feedback_url config) payload ::
                  (if snd (bandit_feedback payload (bandit w)) then []
                   else [EvConsoleError update_failed]))
            else (H3.Returned {| feedback := row; message := "Interaction recorded" |},
                  {| contentFeedback := (contentFeedback w ++ [row])%list;
                     bandit := bandit w;
                     ids_drawn := S (ids_drawn w) |},
                  [EvInsert row])
          else (H3.Thrown H3.DatabaseError,
                {| contentFeedback := contentFeedback w; bandit := bandit w;
                   ids_drawn := S (ids_drawn w) |}, [])
      end
  end.
Proof.
  unfold interaction_handler, H3.bind, requireAuth, readValidatedBody.
  destruct (session req) as [user|]; [|reflexivity]. simpl.
  destruct (interactionBodySchema (body req)) as [b|issues]; [|reflexivity]. simpl.
  unfold db_insert. simpl.
  destruct (db_accepts _ _); [|reflexivity]. simpl.
  destruct (is_explicit_feedback b); [|reflexivity].
  unfold H3.try_catch, fetch_post. simpl.
  destruct (bandit_feedback _ _) as [b' resolved]. simpl.
  destruct resolved; reflexivity.
Qed.

(** *** Passive interactions *)

Lemma passive_is_not_explicit (m : gmap string Js.json) (b : InteractionBody) :
  interactionShape m = Parsed b ->
  (exists s, m !! "interactionType" = Some (Js.JStr s) /\ In s passive_names)
  \/ m !! "bringsBackMemories" = None ->
  is_explicit_feedback b = false.
Proof.
  intros Hshape Hpassive.
  apply interactionShape_inv in Hshape as (_ & _ & Htype & _ & Hbbm & _).
  unfold is_explicit_feedback.
  destruct Hpassive as [(s & Hs & Hin) | Hnone].
  - unfold field in Htype. rewrite Hs in Htype.
    simpl in Hin.
    destruct Hin as [<- | [<- | [<- | [<- | [<- | []]]]]];
      simpl in Htype; injection Htype as <-; reflexivity.
  - unfold field in Hbbm. rewrite Hnone in Hbbm. simpl in Hbbm.
    injection Hbbm as <-. destruct (ib_interactionType b); reflexivity.
Qed.

(** C1. A request to the interaction handler that names a passive
    interaction (view, click, skip, next, replay) or carries no
    [bringsBackMemories] never reaches the bandit: no POST to
    [/recommend/feedback] is among the events of the run and the bandit's
    state is what it was; the row is still stored when the request is
    authenticated and valid and the database takes the row. *)
Theorem passive_interaction_never_updates_bandit
    (config : RuntimeConfig) (req : Request) (w : World) :
  passive_request req ->
  let run := interaction_run config req w in
  posts_of (events_of run) = [] /\
  bandit (world_of run) = bandit w /\
  (forall user b,
     session req = Some user ->
     interactionBodySchema (body req) = Parsed b ->
     db_accepts (contentFeedback w) (interaction_row (nanoid (ids_drawn w)) user b) = true ->
     events_of run = [EvInsert (interaction_row (nanoid (ids_drawn w)) user b)] /\
     contentFeedback (world_of run)
     = (contentFeedback w ++ [interaction_row (nanoid (ids_drawn w)) user b])%list).
Proof.
  intros (m & Hbody & Hpassive). simpl.
  rewrite interaction_handler_run.
  destruct (session req) as [user|].
  2:{ split; [reflexivity|]. split; [reflexivity|]. intros ? ? [=]. }
  destruct (interactionBodySchema (body req)) as [b|issues] eqn:Hparse.
  2:{ split; [reflexivity|]. split; [reflexivity|]. intros ? ? _ [=]. }
  assert (is_explicit_feedback b = false) as Hexplicit.
  { rewrite Hbody in Hparse. eapply passive_is_not_explicit; eassumption. }
  cbv zeta. rewrite Hexplicit.
  destruct (db_accepts _ _) eqn:Hdb.
  - split; [reflexivity|]. split; [reflexivity|].
    intros user' b' [= <-] [= <-] _. split; reflexivity.
  - split; [reflexivity|]. split; [reflexivity|].
    intros user' b' [= <-] [= <-] Hacc. congruence.
Qed.

(** *** Stress readings outside the declared range *)

Lemma stress_issue (m : gmap string Js.json) (k : string) (q : Q) :
  out_of_range q -> m !! k = Some (Js.JNum q) ->
  exists c, (c = TooSmall \/ c = TooBig) /\
            In (mkIssue k c) (issues_of (field m k stressSchema)).
Proof.
  intros Hout Hk.
  destruct (min_max_rejects 0 1 q Hout) as (c & Hc & Hin).
  exists c. split; [exact Hc|].
  unfold field, stressSchema. rewrite Hk.
  destruct (optional (z_number_min_max 0 1) (Some (Js.JNum q))) as [codes|v];
    [|contradiction].
  simpl. apply in_map. exact Hin.
Qed.

(** C3. A request whose [stressBefore] or [stressAfter] is a number
    outside [0, 1] is rejected by both handlers: the run throws (the
    validation error, whose issues name the stress field as too small or
    too big, once the request is authenticated), performs no event at all
    (no row is inserted, nothing is posted to the bandit) and leaves the
    world as it was; the value is not replaced by a clamped one. *)
Theorem out_of_range_stress_is_rejected
    (config : RuntimeConfig) (req : Request) (w : World) :
  stress_out_of_range req ->
  (exists issues,
     stress_issue_in issues /\
     feedbackBodySchema (body req) = Invalid issues /\
     feedback_run config req w =
     (H3.Thrown (match session req with
                 | Some _ => H3.ValidationError issues
                 | None => H3.Unauthorized
                 end), w, [])) /\
  (exists issues,
     stress_issue_in issues /\
     interactionBodySchema (body req) = Invalid issues /\
     interaction_run config req w =
     (H3.Thrown (match session req with
                 | Some _ => H3.ValidationError issues
                 | None => H3.Unauthorized
                 end), w, [])).
Proof.
  intros (m & q & Hbody & Hout & Hkey).
  assert (exists k c, (k = "stressBefore" \/ k = "stressAfter") /\
                      (c = TooSmall \/ c = TooBig) /\
                      In (mkIssue k c) (issues_of (field m k stressSchema)))
    as (k & c & Hk & Hc & Hin).
  { destruct Hkey as [Hkey | Hkey];
      destruct (stress_issue m _ q Hout Hkey) as (c & Hc & Hin);
      eexists _, c; (split; [|split; [exact Hc | exact Hin]]); auto. }
  split.
  - assert (In (mkIssue k c) (issues_of (feedbackShape m))) as Hshape.
    { rewrite feedbackShape_issues.
      destruct Hk as [-> | ->]; repeat (apply in_or_app; first [left; exact Hin | right]). }
    apply issue_makes_invalid in Hshape as (issues & Hinvalid & Hissue).
    exists issues. split.
    + exists (mkIssue k c). split; [exact Hissue|]. split; assumption.
    + rewrite feedback_handler_run, Hbody. unfold feedbackBodySchema, object.
      rewrite Hinvalid. split; [reflexivity|].
      destruct (session req); reflexivity.
  - assert (In (mkIssue k c) (issues_of (interactionShape m))) as Hshape.
    { rewrite interactionShape_issues.
      destruct Hk as [-> | ->]; repeat (apply in_or_app; first [left; exact Hin | right]). }
    apply issue_makes_invalid in Hshape as (issues & Hinvalid & Hissue).
    exists issues. split.
    + exists (mkIssue k c). split; [exact Hissue|]. split; assumption.
    + rewrite interaction_handler_run, Hbody. unfold interactionBodySchema, object.
      rewrite Hinvalid. split; [reflexivity|].
      destruct (session req); reflexivity.
Qed.

(** An accepted stress reading reaches the payload as it was sent. *)
Lemma stress_passed_through (m : gmap string Js.json) (b : FeedbackBody) (q : Q) (user : User) :
  feedbackShape m = Parsed b ->
  m !! "stressBefore" = Some (Js.JNum q) ->
  p_stress_before (feedback_payload user b) = Some q /\ (0 <= q /\ q <= 1)%Q.
Proof.
  intros Hshape Hq.
  apply feedbackShape_inv in Hshape as (_ & _ & _ & Hbefore & _).
  unfold field, stressSchema in Hbefore. rewrite Hq in Hbefore.
  destruct (Qle_bool 0 q) eqn:Hlo, (Qle_bool q 1) eqn:Hhi;
    unfold optional, z_number_min_max in Hbefore; simpl in Hbefore;
    rewrite Hlo, Hhi in Hbefore; simpl in Hbefore; try discriminate.
  injection Hbefore as Heq. simpl. rewrite <- Heq.
  split; [reflexivity|]. split; apply Qle_bool_iff; assumption.
Qed.

(** *** Optional signals and the required content type *)

Ltac delete_fields :=
  repeat match goal with
  | |- context [field (delete ?k ?m) ?k' ?schema] =>
      first [ rewrite (field_delete_ne m k k' schema) by discriminate
            | rewrite (field_delete_optional m k) ]
  end.

Lemma feedbackShape_without (m : gmap string Js.json) (k : string) (b : FeedbackBody) :
  In k optional_signals ->
  feedbackShape m = Parsed b ->
  feedbackShape (delete k m) = Parsed (fb_without k b).
Proof.
  intros Hk Hshape.
  apply feedbackShape_inv in Hshape as (H1 & H2 & H3 & H4 & H5 & H6 & H7 & H8 & H9).
  unfold feedbackShape, stressSchema in *. simpl in Hk.
  destruct Hk as [<- | [<- | [<- | [<- | [<- | [<- | []]]]]]];
    delete_fields; rewrite ?H1, ?H2, ?H3, ?H4, ?H5, ?H6, ?H7, ?H8, ?H9; reflexivity.
Qed.

Lemma interactionShape_without (m : gmap string Js.json) (k : string) (b : InteractionBody) :
  In k optional_signals ->
  interactionShape m = Parsed b ->
  interactionShape (delete k m) = Parsed (ib_without k b).
Proof.
  intros Hk Hshape.
  apply interactionShape_inv in Hshape
    as (H1 & H2 & H3 & H4 & H5 & H6 & H7 & H8 & H9 & H10 & H11).
  unfold interactionShape, stressSchema in *. simpl in Hk.
  destruct Hk as [<- | [<- | [<- | [<- | [<- | [<- | []]]]]]];
    delete_fields;
    rewrite ?H1, ?H2, ?H3, ?H4, ?H5, ?H6, ?H7, ?H8, ?H9, ?H10, ?H11; reflexivity.
Qed.

Lemma payload_lacks_without (k : string) (user : User) (b : FeedbackBody) :
  In k optional_signals -> payload_lacks k (feedback_payload user (fb_without k b)).
Proof.
  simpl. intros [<- | [<- | [<- | [<- | [<- | [<- | []]]]]]]; reflexivity.
Qed.

Lemma payload_lacks_ib_without (k : string) (user : User) (b : InteractionBody) :
  In k optional_signals -> payload_lacks k (interaction_payload user (ib_without k b)).
Proof.
  simpl. intros [<- | [<- | [<- | [<- | [<- | [<- | []]]]]]]; reflexivity.
Qed.

Lemma contentType_issue (m : gmap string Js.json) :
  bad_content_type m ->
  exists c, field m "contentType" contentTypeSchema = Invalid [mkIssue "contentType" c].
Proof.
  intros [Hsong Hmovie]. unfold field, contentTypeSchema, z_enum.
  destruct (m !! "contentType") as [[ | b | q | s | l | o] | ];
    try (eexists; reflexivity).
  cbn [List.find fst snd].
  destruct (String.eqb_spec "song" s) as [<- | _]; [contradiction|].
  destruct (String.eqb_spec "movie" s) as [<- | _]; [contradiction|].
  eexists. reflexivity.
Qed.

(** C5. Leaving out any one of the optional signals of a body that is
    accepted gives a body that is accepted too: it parses to the same
    fields with that signal absent, the handler ends as it does on the
    full body, and what it posts to the bandit carries no value for the
    signal.  A body whose content type is missing or is not ["song"] or
    ["movie"] is rejected with a validation error that names
    [contentType], and nothing is stored or posted. *)
Theorem optional_signals_may_be_omitted
    (config : RuntimeConfig) (user : User) (m : gmap string Js.json)
    (k : string) (w : World) :
  In k optional_signals ->
  let full := mkRequest (Some user) (Some (Js.JObj m)) in
  let without := mkRequest (Some user) (Some (Js.JObj (delete k m))) in
  (forall b, feedbackBodySchema (body full) = Parsed b ->
     feedbackBodySchema (body without) = Parsed (fb_without k b) /\
     outcome_of (feedback_run config without w) = outcome_of (feedback_run config full w) /\
     Forall (payload_lacks k) (posts_of (events_of (feedback_run config without w)))) /\
  (forall b, interactionBodySchema (body full) = Parsed b ->
     interactionBodySchema (body without) = Parsed (ib_without k b) /\
     outcome_of (interaction_run config without w)
     = outcome_of (interaction_run config full w) /\
     Forall (payload_lacks k) (posts_of (events_of (interaction_run config without w)))) /\
  (bad_content_type m ->
     (exists issues c, In (mkIssue "contentType" c) issues /\
        feedback_run config full w = (H3.Thrown (H3.ValidationError issues), w, [])) /\
     (exists issues c, In (mkIssue "contentType" c) issues /\
        interaction_run config full w = (H3.Thrown (H3.ValidationError issues), w, []))).
Proof.
  intros Hk. cbv zeta. split; [|split].
  - intros b Hparse. simpl in Hparse.
    pose proof (feedbackShape_without m k b Hk Hparse) as Hwithout.
    split; [exact Hwithout|].
    rewrite !feedback_handler_run. simpl. rewrite Hparse, Hwithout. cbv zeta.
    change (feedback_row (nanoid (ids_drawn w)) user (fb_without k b))
      with (feedback_row (nanoid (ids_drawn w)) user b).
    destruct (db_accepts _ _).
    + split; [reflexivity|]. unfold events_of. simpl.
      destruct (snd _); simpl; (constructor; [|constructor]);
        apply payload_lacks_without; exact Hk.
    + split; [reflexivity | constructor].
  - intros b Hparse. simpl in Hparse.
    pose proof (interactionShape_without m k b Hk Hparse) as Hwithout.
    split; [exact Hwithout|].
    rewrite !interaction_handler_run. simpl. rewrite Hparse, Hwithout. cbv zeta.
    change (interaction_row (nanoid (ids_drawn w)) user (ib_without k b))
      with (interaction_row (nanoid (ids_drawn w)) user b).
    change (is_explicit_feedback (ib_without k b)) with (is_explicit_feedback b).
    destruct (db_accepts _ _).
    + destruct (is_explicit_feedback b).
      * split; [reflexivity|]. unfold events_of. simpl.
        destruct (snd _); simpl; (constructor; [|constructor]);
          apply payload_lacks_ib_without; exact Hk.
      * split; [reflexivity | constructor].
    + split; [reflexivity | constructor].
  - intros Hbad. destruct (contentType_issue m Hbad) as (c & Hfield). split.
    + assert (In (mkIssue "contentType" c) (issues_of (feedbackShape m))) as Hin.
      { rewrite feedbackShape_issues, Hfield. left. reflexivity. }
      apply issue_makes_invalid in Hin as (issues & Hinvalid & Hin).
      exists issues, c. split; [exact Hin|].
      rewrite feedback_handler_run. simpl. rewrite Hinvalid. reflexivity.
    + assert (In (mkIssue "contentType" c) (issues_of (interactionShape m))) as Hin.
      { rewrite interactionShape_issues, Hfield. left. reflexivity. }
      apply issue_makes_invalid in Hin as (issues & Hinvalid & Hin).
      exists issues, c. split; [exact Hin|].
      rewrite interaction_handler_run. simpl. rewrite Hinvalid. reflexivity.
Qed.

(** *** Persist first, then tell the bandit *)

Lemma first_event_is_insert (evs pre post : list Event) (row : FeedbackRow)
    (url : string) (p : BanditPayload) (tail : list Event) :
  evs = EvInsert row :: tail ->
  evs = (pre ++ EvPost url p :: post)%list ->
  In (EvInsert row) pre.
Proof.
  intros -> Hsplit. destruct pre as [|e pre]; simpl in Hsplit.
  - discriminate.
  - injection Hsplit as <- _. left. reflexivity.
Qed.

(** C8. On a valid explicit-feedback request whose row the database takes,
    each handler first inserts the row and only then attempts the POST to
    the bandit; whether or not that call throws, the handler returns the
    success response that carries the inserted row, a failed call leaving
    only a line on the error console.  In every run, a POST to the bandit
    is preceded by the insert of the row. *)
Theorem feedback_persisted_before_bandit_update
    (config : RuntimeConfig) (req : Request) (user : User) (w : World) :
  session req = Some user ->
  (forall b,
     feedbackBodySchema (body req) = Parsed b ->
     let row := feedback_row (nanoid (ids_drawn w)) user b in
     let payload := feedback_payload user b in
     let run := feedback_run config req w in
     db_accepts (contentFeedback w) row = true ->
     outcome_of run = H3.Returned {| feedback := row; message := "Feedback recorded" |} /\
     contentFeedback (world_of run) = (contentFeedback w ++ [row])%list /\
     events_of run =
       EvInsert row :: EvPost (feedback_url config) payload ::
       (if snd (bandit_feedback payload (bandit w)) then []
        else [EvConsoleError update_failed])) /\
  (forall b,
     interactionBodySchema (body req) = Parsed b ->
     is_explicit_feedback b = true ->
     let row := interaction_row (nanoid (ids_drawn w)) user b in
     let payload := interaction_payload user b in
     let run := interaction_run config req w in
     db_accepts (contentFeedback w) row = true ->
     outcome_of run = H3.Returned {| feedback := row; message := "Interaction recorded" |} /\
     contentFeedback (world_of run) = (contentFeedback w ++ [row])%list /\
     events_of run =
       EvInsert row :: EvPost (feedback_url config) payload ::
       (if snd (bandit_feedback payload (bandit w)) then []
        else [EvConsoleError update_failed])) /\
  (forall pre url p post,
     events_of (feedback_run config req w) = (pre ++ EvPost url p :: post)%list ->
     exists row, In (EvInsert row) pre) /\
  (forall pre url p post,
     events_of (interaction_run config req w) = (pre ++ EvPost url p :: post)%list ->
     exists row, In (EvInsert row) pre).
Proof.
  intros Hsession. split; [|split; [|split]].
  - intros b Hparse. cbv zeta. intros Hdb.
    rewrite feedback_handler_run, Hsession, Hparse. cbv zeta. rewrite Hdb.
    split; [reflexivity|]. split; reflexivity.
  - intros b Hparse Hexplicit. cbv zeta. intros Hdb.
    rewrite interaction_handler_run, Hsession, Hparse. cbv zeta.
    rewrite Hdb, Hexplicit.
    split; [reflexivity|]. split; reflexivity.
  - intros pre url p post. rewrite feedback_handler_run, Hsession.
    destruct (feedbackBodySchema (body req)) as [b|issues]; cbv zeta.
    + destruct (db_accepts _ _); unfold events_of; simpl.
      * intros Hsplit. eexists. eapply first_event_is_insert; [reflexivity | exact Hsplit].
      * intros Hsplit. destruct pre; discriminate.
    + unfold events_of. simpl. intros Hsplit. destruct pre; discriminate.
  - intros pre url p post. rewrite interaction_handler_run, Hsession.
    destruct (interactionBodySchema (body req)) as [b|issues]; cbv zeta.
    + destruct (db_accepts _ _); [destruct (is_explicit_feedback b)|];
        unfold events_of; simpl.
      * intros Hsplit. eexists. eapply first_event_is_insert; [reflexivity | exact Hsplit].
      * intros Hsplit. eexists. eapply first_event_is_insert; [reflexivity | exact Hsplit].
      * intros Hsplit. destruct pre; discriminate.
    + unfold events_of. simpl. intros Hsplit. destruct pre; discriminate.
Qed.

End FeedbackProperties.

(** *** The handlers on concrete requests *)

Example view_is_stored_and_not_posted :
  Feedback.interaction_handler Fixtures.counting_bandit Fixtures.ids Fixtures.accept_all
    Fixtures.config (Fixtures.request_of Fixtures.view_body) Fixtures.fresh_world
  = (H3.Returned
       {| Feedback.feedback :=
            {| Feedback.row_id := "id-0"; Feedback.row_userId := "alice";
               Feedback.row_contentType := Feedback.Song;
               Feedback.row_contentId := "track-1";
               Feedback.row_interactionType := Some Feedback.IView;
               Feedback.row_durationSeconds := None;
               Feedback.row_bringsBackMemories := None |};
          Feedback.message := "Interaction recorded" |},
     {| Feedback.contentFeedback :=
          [ {| Feedback.row_id := "id-0"; Feedback.row_userId := "alice";
               Feedback.row_contentType := Feedback.Song;
               Feedback.row_contentId := "track-1";
               Feedback.row_interactionType := Some Feedback.IView;
               Feedback.row_durationSeconds := None;
               Feedback.row_bringsBackMemories := None |} ];
        Feedback.bandit := 0%nat; Feedback.ids_drawn := 1%nat |},
     [ Feedback.EvInsert
         {| Feedback.row_id := "id-0"; Feedback.row_userId := "alice";
            Feedback.row_contentType := Feedback.Song;
            Feedback.row_contentId := "track-1";
            Feedback.row_interactionType := Some Feedback.IView;
            Feedback.row_durationSeconds := None;
            Feedback.row_bringsBackMemories := None |} ]).
Proof. vm_compute. reflexivity. Qed.

(** feedback.post.ts declares no [interactionType]: the key is dropped by
    its schema, and a body that answers the memory question is posted to
    the bandit whatever interaction it names.  The interaction handler
    posts nothing for the same body. *)
Example feedback_post_knows_no_interaction_type :
  Feedback.posts_of (Feedback.events_of
    (Feedback.feedback_handler Fixtures.counting_bandit Fixtures.ids Fixtures.accept_all
       Fixtures.config (Fixtures.request_of Fixtures.view_with_answer) Fixtures.fresh_world))
  = [ {| Feedback.p_user_id := "alice"; Feedback.p_content_type := Feedback.Song;
         Feedback.p_content_id := "track-1";
         Feedback.p_brings_back_memories := Some true;
         Feedback.p_stress_before := None; Feedback.p_stress_after := None;
         Feedback.p_habit_completed := None; Feedback.p_journal_text := None;
         Feedback.p_content_year := None; Feedback.p_content_genre := None |} ] /\
  Feedback.posts_of (Feedback.events_of
    (Feedback.interaction_handler Fixtures.counting_bandit Fixtures.ids Fixtures.accept_all
       Fixtures.config (Fixtures.request_of Fixtures.view_with_answer) Fixtures.fresh_world))
  = [].
Proof. split; vm_compute; reflexivity. Qed.

Example full_body_parses :
  Feedback.feedbackBodySchema (Some (Js.JObj Fixtures.full_body))
  = Zod.Parsed Fixtures.full_parsed.
Proof. vm_compute. reflexivity. Qed.

Lemma passive_interaction_never_updates_bandit_witness :
  Feedback.posts_of (Feedback.events_of
    (Feedback.interaction_handler Fixtures.counting_bandit Fixtures.ids Fixtures.accept_all
       Fixtures.config (Fixtures.request_of Fixtures.view_body) Fixtures.fresh_world)) = [] /\
  Feedback.bandit (Feedback.world_of
    (Feedback.interaction_handler Fixtures.counting_bandit Fixtures.ids Fixtures.accept_all
       Fixtures.config (Fixtures.request_of Fixtures.view_body) Fixtures.fresh_world)) = 0%nat.
Proof.
  destruct (passive_interaction_never_updates_bandit
              Fixtures.counting_bandit Fixtures.ids Fixtures.accept_all
              Fixtures.config (Fixtures.request_of Fixtures.view_body) Fixtures.fresh_world)
    as (Hposts & Hbandit & _).
  - exists Fixtures.view_body. split; [reflexivity|].
    left. exists "view". split; [vm_compute; reflexivity | left; reflexivity].
  - split; [exact Hposts | exact Hbandit].
Defined.

Lemma out_of_range_stress_is_rejected_witness :
  exists issues,
    Feedback.feedback_handler Fixtures.counting_bandit Fixtures.ids Fixtures.accept_all
      Fixtures.config (Fixtures.request_of Fixtures.stressed_body) Fixtures.fresh_world
    = (H3.Thrown (H3.ValidationError issues), Fixtures.fresh_world, []).
Proof.
  destruct (out_of_range_stress_is_rejected
              Fixtures.counting_bandit Fixtures.ids Fixtures.accept_all
              Fixtures.config (Fixtures.request_of Fixtures.stressed_body) Fixtures.fresh_world)
    as ((issues & _ & _ & Hrun) & _).
  - exists Fixtures.stressed_body, (3 # 2). split; [reflexivity|]. split.
    + unfold Feedback.out_of_range. intros [_ Hle]. vm_compute in Hle. apply Hle. reflexivity.
    + left. vm_compute. reflexivity.
  - exists issues. exact Hrun.
Defined.

Lemma optional_signals_may_be_omitted_witness :
  Feedback.feedbackBodySchema (Some (Js.JObj (delete "stressBefore" Fixtures.full_body)))
  = Zod.Parsed (Feedback.fb_without "stressBefore" Fixtures.full_parsed).
Proof.
  destruct (optional_signals_may_be_omitted
              Fixtures.counting_bandit Fixtures.ids Fixtures.accept_all
              Fixtures.config Fixtures.alice Fixtures.full_body "stressBefore"
              Fixtures.fresh_world)
    as (Hfeedback & _ & _).
  - left. reflexivity.
  - apply (Hfeedback Fixtures.full_parsed). vm_compute. reflexivity.
Defined.

Lemma feedback_persisted_before_bandit_update_witness :
  Feedback.outcome_of
    (Feedback.feedback_handler Fixtures.failing_bandit Fixtures.ids Fixtures.accept_all
       Fixtures.config (Fixtures.request_of Fixtures.full_body) Fixtures.fresh_world)
  = H3.Returned
      {| Feedback.feedback := Feedback.feedback_row "id-0" Fixtures.alice Fixtures.full_parsed;
         Feedback.message := "Feedback recorded" |} /\
  Feedback.events_of
    (Feedback.feedback_handler Fixtures.failing_bandit Fixtures.ids Fixtures.accept_all
       Fixtures.config (Fixtures.request_of Fixtures.full_body) Fixtures.fresh_world)
  = [ Feedback.EvInsert (Feedback.feedback_row "id-0" Fixtures.alice Fixtures.full_parsed);
      Feedback.EvPost "http://localhost:8000/recommend/feedback"
        (Feedback.feedback_payload Fixtures.alice Fixtures.full_parsed);
      Feedback.EvConsoleError Feedback.update_failed ].
Proof.
  destruct (feedback_persisted_before_bandit_update
              Fixtures.failing_bandit Fixtures.ids Fixtures.accept_all
              Fixtures.config (Fixtures.request_of Fixtures.full_body) Fixtures.alice
              Fixtures.fresh_world eq_refl)
    as (Hfeedback & _).
  destruct (Hfeedback Fixtures.full_parsed) as (Hout & _ & Hevents).
  - vm_compute. reflexivity.
  - reflexivity.
  - split; [exact Hout | exact Hevents].
Defined.

(** ** The movie-candidate endpoint *)

Section MoviesProperties.
Import Movies.

Variable fetch_recommend : string -> list (option Z) -> Q -> option (list Z).
Variable db_select : Select -> option (list MovieRow).

#[local] Abbreviation movies_run := (handler fetch_recommend db_select).

Lemma fallback_run (query : Query) :
  fallback db_select query (build_conditions query) tt =
  (match db_select (surviving_select query) with
   | Some rows => H3.Returned (respond rows (surviving_mode query))
   | None => H3.Thrown H3.DatabaseError
   end, tt, [EvSelect (surviving_select query)]).
Proof.
  unfold fallback, surviving_select, surviving_mode, H3.bind, select.
  destruct (mode query); simpl; destruct (db_select _); reflexivity.
Qed.

(** When the recommender call throws, the [similar] branch falls through
    having performed that call only. *)
Lemma similar_branch_falls_through (fastApiUrl : option string) (query : Query) :
  (forall ids, selectedIds query = Some ids ->
     fetch_recommend (recommend_url fastApiUrl) (parse_id_list ids) (limit query) = None) ->
  exists evs,
    similar_branch fetch_recommend db_select fastApiUrl query (build_conditions query) tt
    = (H3.Returned None, tt, evs) /\
    Forall (fun e => match e with EvRecommend _ _ _ => True | EvSelect _ => False end) evs.
Proof.
  intros Hdown. unfold similar_branch.
  destruct (mode query); try (exists []; split; [reflexivity | constructor]).
  destruct (selectedIds query) as [ids|] eqn:Hids;
    try (exists []; split; [reflexivity | constructor]).
  specialize (Hdown ids eq_refl).
  destruct (non_empty ids); try (exists []; split; [reflexivity | constructor]).
  destruct (parse_id_list ids) as [|first others] eqn:Hlist;
    try (exists []; split; [reflexivity | constructor]).
  unfold H3.try_catch, H3.bind, recommend. rewrite Hdown. simpl.
  eexists. split; [reflexivity|]. repeat constructor.
Qed.

(** C4. If the call to the movie recommender throws, the endpoint does not
    fail with it: it answers from the database query that is left, the
    popularity-ordered one in [popular] mode and the random one otherwise
    (so also in [similar] mode), returning that query's rows as the
    candidate list; the only database query it runs is that one. *)
Theorem recommender_failure_degrades (fastApiUrl : option string) (query : Query)
    (rows : list MovieRow) :
  (forall ids, selectedIds query = Some ids ->
     fetch_recommend (recommend_url fastApiUrl) (parse_id_list ids) (limit query) = None) ->
  db_select (surviving_select query) = Some rows ->
  exists calls,
    movies_run fastApiUrl query tt
    = (H3.Returned {| items := rows; count := List.length rows;
                      response_mode := mode_name (surviving_mode query) |},
       tt, (calls ++ [EvSelect (surviving_select query)])%list) /\
    Forall (fun e => match e with EvRecommend _ _ _ => True | EvSelect _ => False end) calls /\
    (response_mode (respond rows (surviving_mode query)) = "popular"
     \/ response_mode (respond rows (surviving_mode query)) = "random").
Proof.
  intros Hdown Hdb.
  destruct (similar_branch_falls_through fastApiUrl query Hdown) as (calls & Hbranch & Hcalls).
  exists calls. split; [|split; [exact Hcalls|]].
  - unfold handler, H3.bind. rewrite Hbranch, fallback_run, Hdb. reflexivity.
  - unfold surviving_mode. destruct (mode query); simpl; auto.
Qed.

End MoviesProperties.

Lemma recommender_failure_degrades_witness :
  exists calls,
    Movies.handler Fixtures.recommender_down Fixtures.db_two_rows None
      Fixtures.similar_query tt
    = (H3.Returned {| Movies.items := Fixtures.two_rows; Movies.count := 2;
                      Movies.response_mode := "random" |},
       tt, (calls ++ [Movies.EvSelect (Movies.surviving_select Fixtures.similar_query)])%list).
Proof.
  destruct (recommender_failure_degrades Fixtures.recommender_down Fixtures.db_two_rows
              None Fixtures.similar_query Fixtures.two_rows)
    as (calls & Hrun & _).
  - intros ids _. reflexivity.
  - reflexivity.
  - exists calls. exact Hrun.
Defined.

Example similar_query_run :
  Movies.handler Fixtures.recommender_down Fixtures.db_two_rows None Fixtures.similar_query tt
  = (H3.Returned {| Movies.items := Fixtures.two_rows; Movies.count := 2;
                    Movies.response_mode := "random" |},
     tt,
     [ Movies.EvRecommend "http://localhost:8000/movies/recommend"
         [Some 10%Z; Some 20%Z] (5 # 1);
       Movies.EvSelect {| Movies.where_ := [Movies.GteYear (1990 # 1)];
                          Movies.orderBy := Movies.RandomOrder;
                          Movies.row_limit := 5 # 1 |} ]).
Proof. vm_compute. reflexivity. Qed.

Example parse_id_list_examples :
  Movies.parse_id_list "1,,22, 3,x,-4" = [Some 1%Z; Some 22%Z; Some 3%Z; None; Some (-4)%Z] /\
  Movies.parse_id_list ",," = [] /\
  Movies.parseInt10 "12abc" = Some 12%Z /\
  Movies.trim "  the thing " = "the thing".
Proof. repeat split; vm_compute; reflexivity. Qed.

(** ** The LinUCB core: vectors and matrices over the rationals *)

Section LinearAlgebra.
Import LinUCB.
#[local] Open Scope Q_scope.

#[local] Instance veq_equivalence : Equivalence veq.
Proof.
  unfold veq. split.
  - intros u. induction u; constructor; [reflexivity | assumption].
  - intros u v H. induction H; constructor; [symmetry; assumption | assumption].
  - intros u v w Huv. revert w. induction Huv; intros w Hvw; inversion Hvw; subst.
    + constructor.
    + constructor; [etransitivity; eassumption | auto].
Qed.

Lemma veq_length (u v : vec) : veq u v -> List.length u = List.length v.
Proof. intros H. induction H; simpl; congruence. Qed.

Lemma vadd_length (u v : vec) :
  List.length u = List.length v -> List.length (vadd u v) = List.length u.
Proof.
  revert v. induction u as [|a u IH]; intros [|b v] Hlen; simpl in *;
    try discriminate; [reflexivity|].
  injection Hlen as Hlen. f_equal. apply IH. exact Hlen.
Qed.

Lemma vscale_length (k : Q) (v : vec) : List.length (vscale k v) = List.length v.
Proof. apply length_map. Qed.

Lemma mulmv_length (A : matrix) (v : vec) : List.length (mulmv A v) = List.length A.
Proof. apply length_map. Qed.

Lemma dot_nil_r (u : vec) : dot u [] = 0.
Proof. destruct u; reflexivity. Qed.

Lemma dot_comm (u v : vec) : dot u v == dot v u.
Proof.
  revert v. induction u as [|a u IH]; intros [|b v]; simpl; try reflexivity.
  rewrite IH. ring.
Qed.

#[local] Instance dot_proper : Proper (veq ==> veq ==> Qeq) dot.
Proof.
  intros u u' Hu. induction Hu as [|a a' u u' Ha Hu IH]; intros v v' Hv.
  - reflexivity.
  - destruct Hv as [|b b' v v' Hb Hv]; simpl; [reflexivity|].
    rewrite Ha, Hb, (IH v v' Hv). reflexivity.
Qed.

#[local] Instance vadd_proper : Proper (veq ==> veq ==> veq) vadd.
Proof.
  intros u u' Hu. induction Hu as [|a a' u u' Ha Hu IH]; intros v v' Hv.
  - constructor.
  - destruct Hv as [|b b' v v' Hb Hv]; simpl; constructor.
    + rewrite Ha, Hb. reflexivity.
    + apply IH. exact Hv.
Qed.

#[local] Instance vscale_proper : Proper (Qeq ==> veq ==> veq) vscale.
Proof.
  intros k k' Hk u u' Hu. induction Hu as [|a a' u u' Ha Hu IH]; simpl; constructor.
  - rewrite Hk, Ha. reflexivity.
  - exact IH.
Qed.

#[local] Instance mulmv_proper (A : matrix) : Proper (veq ==> veq) (mulmv A).
Proof.
  intros v v' Hv. induction A as [|row A IH]; simpl; constructor.
  - rewrite Hv. reflexivity.
  - exact IH.
Qed.

Lemma dot_zero_l (n : nat) (v : vec) : dot (zero_vec n) v == 0.
Proof.
  revert v. induction n as [|n IH]; intros [|b v]; simpl; try reflexivity.
  unfold zero_vec in IH. rewrite IH. ring.
Qed.

Lemma dot_vadd_l (u u' v : vec) :
  List.length u = List.length u' -> dot (vadd u u') v == dot u v + dot u' v.
Proof.
  revert u' v. induction u as [|a u IH]; intros [|a' u'] v Hlen; simpl in *;
    try discriminate.
  - ring.
  - destruct v as [|b v]; simpl; [ring|].
    injection Hlen as Hlen. unfold vadd in IH. rewrite (IH u' v Hlen). ring.
Qed.

Lemma dot_vscale_l (k : Q) (u v : vec) : dot (vscale k u) v == k * dot u v.
Proof.
  revert v. induction u as [|a u IH]; intros [|b v]; simpl; try ring.
  unfold vscale in IH. rewrite IH. ring.
Qed.

Lemma dot_vadd_r (u v v' : vec) :
  List.length v = List.length v' -> dot u (vadd v v') == dot u v + dot u v'.
Proof.
  intros Hlen. rewrite dot_comm, (dot_vadd_l v v' u Hlen), (dot_comm v), (dot_comm v').
  reflexivity.
Qed.

Lemma dot_vscale_r (k : Q) (u v : vec) : dot u (vscale k v) == k * dot u v.
Proof. rewrite dot_comm, dot_vscale_l, (dot_comm v). reflexivity. Qed.

(** [v + a x + b x = v] when [a + b = 0]. *)
Lemma vadd_cancel (a b : Q) (v x : vec) :
  List.length v = List.length x -> a + b == 0 ->
  veq (vadd (vadd v (vscale a x)) (vscale b x)) v.
Proof.
  intros Hlen Hab. revert x Hlen.
  induction v as [|c v IH]; intros [|e x] Hlen; simpl in *; try discriminate.
  - constructor.
  - injection Hlen as Hlen. constructor.
    + transitivity (c + (a + b) * e); [ring | rewrite Hab; ring].
    + apply IH. exact Hlen.
Qed.

(** *** A matrix applied to a vector *)

Lemma mulmv_madd (A B : matrix) (v : vec) :
  rows_match A B -> veq (mulmv (madd A B) v) (vadd (mulmv A v) (mulmv B v)).
Proof.
  intros H. induction H as [|r r' A B Hr H IH]; simpl; constructor.
  - apply dot_vadd_l. exact Hr.
  - exact IH.
Qed.

Lemma mulmv_mscale (k : Q) (A : matrix) (v : vec) :
  veq (mulmv (mscale k A) v) (vscale k (mulmv A v)).
Proof.
  induction A as [|row A IH]; simpl; constructor.
  - apply dot_vscale_l.
  - exact IH.
Qed.

Lemma mulmv_outer (x y v : vec) : veq (mulmv (outer x y) v) (vscale (dot y v) x).
Proof.
  induction x as [|a x IH]; simpl; constructor.
  - rewrite dot_vscale_l. ring.
  - exact IH.
Qed.

Lemma mulmv_vadd (A : matrix) (v w : vec) :
  List.length v = List.length w ->
  veq (mulmv A (vadd v w)) (vadd (mulmv A v) (mulmv A w)).
Proof.
  intros Hlen. induction A as [|row A IH]; simpl; constructor.
  - apply dot_vadd_r. exact Hlen.
  - exact IH.
Qed.

Lemma mulmv_vscale (A : matrix) (k : Q) (v : vec) :
  veq (mulmv A (vscale k v)) (vscale k (mulmv A v)).
Proof.
  induction A as [|row A IH]; simpl; constructor.
  - apply dot_vscale_r.
  - exact IH.
Qed.

(** *** The scaled identity *)

Lemma mulmv_cons_zero (M : matrix) (b : Q) (v : vec) :
  veq (mulmv (List.map (cons 0) M) (b :: v)) (mulmv M v).
Proof.
  induction M as [|row M IH]; simpl; constructor.
  - ring.
  - exact IH.
Qed.

Lemma mulmv_scaled_identity (lam : Q) (d : nat) (v : vec) :
  List.length v = d -> veq (mulmv (scaled_identity lam d) v) (vscale lam v).
Proof.
  revert v. induction d as [|d IH]; intros [|b v] Hlen; simpl in *; try discriminate.
  - constructor.
  - injection Hlen as Hlen. constructor.
    + rewrite dot_zero_l. ring.
    + rewrite (mulmv_cons_zero (scaled_identity lam d) b v). apply IH. exact Hlen.
Qed.

Lemma scaled_identity_length (lam : Q) (d : nat) :
  List.length (scaled_identity lam d) = d.
Proof.
  induction d as [|d IH]; simpl; [reflexivity|]. rewrite length_map, IH. reflexivity.
Qed.

Lemma zero_vec_length (n : nat) : List.length (zero_vec n) = n.
Proof. induction n as [|n IH]; simpl; [reflexivity | f_equal; exact IH]. Qed.

Lemma scaled_identity_well_formed (lam : Q) (d : nat) :
  well_formed d (scaled_identity lam d).
Proof.
  split; [apply scaled_identity_length|].
  induction d as [|d IH]; simpl; constructor.
  - simpl. f_equal. apply zero_vec_length.
  - apply Forall_map. eapply Forall_impl; [exact IH|].
    intros row Hrow. simpl. f_equal. exact Hrow.
Qed.

Lemma nth_zero_vec (n j : nat) : nth j (zero_vec n) 0 = 0.
Proof.
  revert j. induction n as [|n IH]; intros [|j]; simpl; try reflexivity. apply IH.
Qed.

Lemma entry_scaled_identity (lam : Q) (d i j : nat) :
  (i < d)%nat -> (j < d)%nat ->
  entry (scaled_identity lam d) i j = if Nat.eqb i j then lam else 0.
Proof.
  revert i j. induction d as [|d IH]; intros i j Hi Hj; [lia|].
  unfold entry. destruct i as [|i]; simpl.
  - destruct j as [|j]; simpl; [reflexivity | apply nth_zero_vec].
  - rewrite (nth_indep _ [] (cons 0 [])) by (rewrite length_map, scaled_identity_length; lia).
    rewrite (map_nth (cons 0)).
    destruct j as [|j]; simpl; [reflexivity|].
    apply (IH i j); lia.
Qed.

Lemma scaled_identity_symmetric (lam : Q) (d : nat) :
  symmetric d (scaled_identity lam d).
Proof.
  intros i j Hi Hj. rewrite !entry_scaled_identity by assumption.
  rewrite (Nat.eqb_sym j i). reflexivity.
Qed.

(** *** Squares *)

Lemma dot_self_nonneg (v : vec) : 0 <= dot v v.
Proof.
  induction v as [|a v IH]; simpl; [apply Qle_refl|].
  assert (0 <= a * a) by nra. lra.
Qed.

Lemma dot_self_pos (v : vec) : ~ is_zero v -> 0 < dot v v.
Proof.
  induction v as [|a v IH]; intros Hnz; simpl.
  - exfalso. apply Hnz. constructor.
  - pose proof (dot_self_nonneg v) as Hv.
    destruct (Qeq_dec a 0) as [Ha | Ha].
    + assert (0 < dot v v) as Hpos.
      { apply IH. intros Hz. apply Hnz. constructor; assumption. }
      assert (0 <= a * a) by nra. lra.
    + assert (0 < a * a) by nra. lra.
Qed.

Lemma dot_is_zero_r (u v : vec) : is_zero v -> dot u v == 0.
Proof.
  intros Hz. revert u. induction Hz as [|b v Hb Hz IH]; intros [|a u]; simpl;
    try reflexivity.
  rewrite Hb, IH. ring.
Qed.

Lemma is_zero_dec (v : vec) : {is_zero v} + {~ is_zero v}.
Proof.
  induction v as [|a v [IH | IH]].
  - left. constructor.
  - destruct (Qeq_dec a 0) as [Ha | Ha].
    + left. constructor; assumption.
    + right. intros Hz. inversion Hz; subst. contradiction.
  - right. intros Hz. inversion Hz; subst. contradiction.
Qed.

(** *** Entries of sums and outer products *)

Lemma nth_zip_with (f : Q -> Q -> Q) (u v : vec) (i : nat) :
  (i < List.length u)%nat -> (i < List.length v)%nat ->
  nth i (zip_with f u v) 0 = f (nth i u 0) (nth i v 0).
Proof.
  revert v i. induction u as [|a u IH]; intros [|b v] [|i] Hu Hv; simpl in *;
    try lia; [reflexivity|].
  apply IH; lia.
Qed.

Lemma nth_row_zip_with (A B : matrix) (i : nat) :
  (i < List.length A)%nat -> (i < List.length B)%nat ->
  nth i (madd A B) [] = vadd (nth i A []) (nth i B []).
Proof.
  revert B i. induction A as [|r A IH]; intros [|r' B] [|i] HA HB; simpl in *;
    try lia; [reflexivity|].
  apply IH; lia.
Qed.

Lemma well_formed_row (d : nat) (A : matrix) (i : nat) :
  well_formed d A -> (i < d)%nat -> List.length (nth i A []) = d.
Proof.
  intros [Hlen Hrows] Hi. rewrite Forall_forall in Hrows.
  apply Hrows. apply list_elem_of_In. apply nth_In. lia.
Qed.

Lemma entry_madd (d : nat) (A B : matrix) (i j : nat) :
  well_formed d A -> well_formed d B -> (i < d)%nat -> (j < d)%nat ->
  entry (madd A B) i j = entry A i j + entry B i j.
Proof.
  intros HA HB Hi Hj. unfold entry.
  rewrite nth_row_zip_with by (destruct HA, HB; lia).
  apply nth_zip_with; rewrite (well_formed_row d) by assumption; exact Hj.
Qed.

Lemma entry_outer (x y : vec) (i j : nat) :
  (i < List.length x)%nat -> (j < List.length y)%nat ->
  entry (outer x y) i j == nth i x 0 * nth j y 0.
Proof.
  intros Hi Hj. unfold entry, outer.
  rewrite (nth_indep _ [] (vscale 0 y)) by (rewrite length_map; exact Hi).
  rewrite (map_nth (fun xi => vscale xi y)).
  unfold vscale.
  rewrite (nth_indep _ 0 (Qmult (nth i x 0) 0)) by (rewrite length_map; exact Hj).
  rewrite (map_nth (Qmult (nth i x 0))). reflexivity.
Qed.

Lemma outer_well_formed (x y : vec) (d : nat) :
  List.length x = d -> List.length y = d -> well_formed d (outer x y).
Proof.
  intros Hx Hy. split.
  - unfold outer. rewrite length_map. exact Hx.
  - unfold outer. apply Forall_map. apply Forall_forall. intros xi _.
    simpl. rewrite vscale_length. exact Hy.
Qed.

Lemma mscale_well_formed (k : Q) (A : matrix) (d : nat) :
  well_formed d A -> well_formed d (mscale k A).
Proof.
  intros [Hlen Hrows]. split.
  - unfold mscale. rewrite length_map. exact Hlen.
  - unfold mscale. apply Forall_map. eapply Forall_impl; [exact Hrows|].
    intros row Hrow. simpl. rewrite vscale_length. exact Hrow.
Qed.

Lemma rows_match_well_formed (d : nat) (A B : matrix) :
  well_formed d A -> well_formed d B -> rows_match A B.
Proof.
  intros [HA HrA] [HB HrB]. unfold rows_match.
  assert (List.length A = List.length B) as Hlen by congruence.
  clear HA HB. revert B Hlen HrB.
  induction HrA as [|r A Hr HrA IH]; intros [|r' B] Hlen HrB; simpl in *;
    try discriminate; constructor.
  - inversion HrB; subst. congruence.
  - inversion HrB; subst. apply IH; [congruence | assumption].
Qed.

Lemma madd_well_formed (d : nat) (A B : matrix) :
  well_formed d A -> well_formed d B -> well_formed d (madd A B).
Proof.
  intros HA HB. pose proof (rows_match_well_formed d A B HA HB) as Hm.
  destruct HA as [HlenA HrA], HB as [HlenB HrB]. unfold madd. split.
  - rewrite <- HlenA. clear HlenA HlenB HrA HrB.
    induction Hm; simpl; [reflexivity | f_equal; assumption].
  - clear HlenA HlenB. induction Hm as [|r r' A' B' Hr Hm IH]; simpl; [constructor|].
    inversion HrA as [|? ? Hlr HrA']; inversion HrB as [|? ? Hlr' HrB']; subst.
    constructor.
    + rewrite vadd_length by exact Hr. reflexivity.
    + apply IH; assumption.
Qed.

Lemma vscale_vscale (a b : Q) (v : vec) : veq (vscale a (vscale b v)) (vscale (a * b) v).
Proof.
  induction v as [|e v IH]; simpl; constructor; [ring | exact IH].
Qed.

Lemma dot_is_zero_l (u v : vec) : is_zero u -> dot u v == 0.
Proof. intros Hz. rewrite dot_comm. apply dot_is_zero_r. exact Hz. Qed.

Lemma quad_nonneg (d : nat) (A : matrix) (v : vec) :
  positive_definite d A -> List.length v = d -> 0 <= quad A v.
Proof.
  intros Hpd Hlen. destruct (is_zero_dec v) as [Hz | Hnz].
  - unfold quad. rewrite (dot_is_zero_l v _ Hz). apply Qle_refl.
  - apply Qlt_le_weak. apply Hpd; assumption.
Qed.

(** *** The initial arm *)

Lemma inverse_in_range (lam : Q) : 0 < lam -> lam * / lam == 1 /\ / lam * lam == 1.
Proof.
  intros Hlam. assert (~ lam == 0) as Hnz by lra.
  split; field; exact Hnz.
Qed.

Lemma new_arm_ok (lam : Q) (d : nat) : 0 < lam -> arm_ok d (new_arm lam d).
Proof.
  intros Hlam. destruct (inverse_in_range lam Hlam) as [Hr Hl].
  constructor; simpl.
  - reflexivity.
  - apply scaled_identity_well_formed.
  - apply scaled_identity_symmetric.
  - intros v Hlen Hnz. unfold quad.
    rewrite (mulmv_scaled_identity lam d v Hlen), dot_vscale_r.
    pose proof (dot_self_pos v Hnz). nra.
  - split; [apply scaled_identity_well_formed|].
    intros v Hlen. split.
    + rewrite (mulmv_scaled_identity (/ lam) d v Hlen).
      rewrite (mulmv_scaled_identity lam d) by (rewrite vscale_length; exact Hlen).
      rewrite vscale_vscale.
      transitivity (vscale 1 v); [apply vscale_proper; [exact Hr | reflexivity]|].
      clear. induction v; simpl; constructor; [ring | assumption].
    + rewrite (mulmv_scaled_identity lam d v Hlen).
      rewrite (mulmv_scaled_identity (/ lam) d) by (rewrite vscale_length; exact Hlen).
      rewrite vscale_vscale.
      transitivity (vscale 1 v); [apply vscale_proper; [exact Hl | reflexivity]|].
      clear. induction v; simpl; constructor; [ring | assumption].
  - intros u v Hu Hv.
    rewrite (mulmv_scaled_identity (/ lam) d v Hv), (mulmv_scaled_identity (/ lam) d u Hu).
    rewrite dot_vscale_r, dot_vscale_l. reflexivity.
Qed.

(** *** One rank-one update *)

Section RankOne.

Variable d : nat.
Variables A B : matrix.
Variable x : vec.
Hypothesis HA : well_formed d A.
Hypothesis Hsym : symmetric d A.
Hypothesis Hpd : positive_definite d A.
Hypothesis Hinv : inverse_of d A B.
Hypothesis Hadj : self_adjoint d B.
Hypothesis Hx : List.length x = d.

Let u : vec := mulmv B x.
Let c : Q := 1 + dot x u.

Lemma u_length : List.length u = d.
Proof. unfold u. rewrite mulmv_length. destruct Hinv as [[HB _] _]. exact HB. Qed.

Lemma apply_updated (w : vec) :
  veq (mulmv (madd A (outer x x)) w) (vadd (mulmv A w) (vscale (dot x w) x)).
Proof.
  rewrite mulmv_madd.
  - rewrite mulmv_outer. reflexivity.
  - apply (rows_match_well_formed d); [exact HA | apply outer_well_formed; exact Hx].
Qed.

Lemma apply_sherman_morrison (w : vec) :
  veq (mulmv (sherman_morrison B x) w)
      (vadd (mulmv B w) (vscale (- / c * dot u w) u)).
Proof.
  unfold sherman_morrison. fold u. fold c.
  rewrite mulmv_madd.
  - rewrite mulmv_mscale, mulmv_outer, vscale_vscale. reflexivity.
  - apply (rows_match_well_formed d); [destruct Hinv as [HB _]; exact HB|].
    apply mscale_well_formed. apply outer_well_formed; apply u_length.
Qed.

Lemma A_u : veq (mulmv A u) x.
Proof. destruct Hinv as [_ H]. apply (H x Hx). Qed.

Lemma c_positive : 0 < c.
Proof.
  unfold c.
  assert (dot x u == quad A u) as ->.
  { unfold quad. rewrite A_u. apply dot_comm. }
  pose proof (quad_nonneg d A u Hpd u_length). lra.
Qed.

Lemma updated_well_formed : well_formed d (madd A (outer x x)).
Proof. apply madd_well_formed; [exact HA | apply outer_well_formed; exact Hx]. Qed.

Lemma sherman_morrison_well_formed : well_formed d (sherman_morrison B x).
Proof.
  unfold sherman_morrison. apply madd_well_formed.
  - destruct Hinv as [HB _]. exact HB.
  - apply mscale_well_formed. apply outer_well_formed; apply u_length.
Qed.

Lemma updated_symmetric : symmetric d (madd A (outer x x)).
Proof.
  intros i j Hi Hj.
  rewrite !(entry_madd d) by
    (first [exact HA | apply outer_well_formed; exact Hx | assumption]).
  rewrite !entry_outer by (rewrite Hx; assumption).
  rewrite (Hsym i j Hi Hj). ring.
Qed.

Lemma updated_positive : positive_definite d (madd A (outer x x)).
Proof.
  intros v Hv Hnz. unfold quad.
  rewrite apply_updated.
  rewrite dot_vadd_r by (rewrite mulmv_length, vscale_length; destruct HA; congruence).
  rewrite dot_vscale_r, (dot_comm v x).
  pose proof (Hpd v Hv Hnz) as Hq. unfold quad in Hq.
  assert (0 <= dot x v * dot x v) by nra. lra.
Qed.

Lemma B_length (w : vec) : List.length (mulmv B w) = d.
Proof. rewrite mulmv_length. destruct Hinv as [[HB _] _]. exact HB. Qed.

Lemma A_length (w : vec) : List.length (mulmv A w) = d.
Proof. rewrite mulmv_length. destruct HA as [HlenA _]. exact HlenA. Qed.

Lemma updated_inverse_right (v : vec) :
  List.length v = d ->
  veq (mulmv (madd A (outer x x)) (mulmv (sherman_morrison B x) v)) v.
Proof.
  intros Hv. destruct Hinv as [_ Hab].
  pose proof c_positive as Hc.
  rewrite apply_updated, (apply_sherman_morrison v).
  rewrite mulmv_vadd by (rewrite B_length, vscale_length, u_length; reflexivity).
  rewrite mulmv_vscale, A_u.
  rewrite (proj1 (Hab v Hv)).
  rewrite dot_vadd_r by (rewrite B_length, vscale_length, u_length; reflexivity).
  rewrite dot_vscale_r.
  rewrite (Hadj x v Hx Hv). fold u.
  apply vadd_cancel; [congruence|].
  unfold c. unfold c in Hc. field. lra.
Qed.

Lemma updated_inverse_left (v : vec) :
  List.length v = d ->
  veq (mulmv (sherman_morrison B x) (mulmv (madd A (outer x x)) v)) v.
Proof.
  intros Hv. destruct Hinv as [_ Hab].
  pose proof c_positive as Hc.
  rewrite apply_sherman_morrison, (apply_updated v).
  rewrite mulmv_vadd by (rewrite A_length, vscale_length; congruence).
  rewrite mulmv_vscale. fold u.
  rewrite (proj2 (Hab v Hv)).
  rewrite dot_vadd_r by (rewrite A_length, vscale_length; congruence).
  rewrite dot_vscale_r.
  assert (dot u (mulmv A v) == dot x v) as ->.
  { unfold u. rewrite <- (Hadj x (mulmv A v) Hx (A_length v)).
    rewrite (proj2 (Hab v Hv)). reflexivity. }
  rewrite (dot_comm u x).
  apply vadd_cancel; [rewrite u_length; exact Hv|].
  unfold c. unfold c in Hc. field. lra.
Qed.

Lemma sherman_morrison_self_adjoint : self_adjoint d (sherman_morrison B x).
Proof.
  intros p q Hp Hq.
  rewrite (apply_sherman_morrison q), (apply_sherman_morrison p).
  rewrite dot_vadd_r by (rewrite B_length, vscale_length, u_length; reflexivity).
  rewrite dot_vadd_l by (rewrite B_length, vscale_length, u_length; reflexivity).
  rewrite dot_vscale_r, dot_vscale_l.
  rewrite (Hadj p q Hp Hq), (dot_comm p u). ring.
Qed.

End RankOne.

Lemma update_ok (d : nat) (a a' : Arm) (x : vec) (r : Q) :
  arm_ok d a -> update a x r = Some a' -> arm_ok d a'.
Proof.
  intros [Hdim Hwf Hsym Hpd Hinv Hadj] Hupdate. unfold update in Hupdate.
  destruct (Nat.eqb_spec (List.length x) (arm_dim a)) as [Hx | _]; [|discriminate].
  injection Hupdate as <-. rewrite Hdim in Hx.
  constructor; simpl.
  - exact Hdim.
  - apply updated_well_formed; assumption.
  - apply updated_symmetric; assumption.
  - apply updated_positive; assumption.
  - split.
    + eapply sherman_morrison_well_formed; eassumption.
    + intros v Hv. split.
      * eapply updated_inverse_right; eassumption.
      * eapply updated_inverse_left; eassumption.
  - eapply sherman_morrison_self_adjoint; eassumption.
Qed.

Lemma update_all_ok (d : nat) (obs : list (vec * Q)) (a a' : Arm) :
  arm_ok d a -> update_all a obs = Some a' -> arm_ok d a'.
Proof.
  revert a. induction obs as [|[x r] obs IH]; intros a Hok Hall; simpl in Hall.
  - injection Hall as <-. exact Hok.
  - destruct (update a x r) as [a1|] eqn:Hupdate; [|discriminate].
    apply (IH a1); [|exact Hall]. eapply update_ok; eassumption.
Qed.

Lemma update_all_total (d : nat) (obs : list (vec * Q)) (a : Arm) :
  arm_dim a = d -> contexts_fit d obs -> exists a', update_all a obs = Some a'.
Proof.
  intros Hdim Hfit. revert a Hdim.
  induction Hfit as [|[x r] obs Hx Hfit IH]; intros a Hdim; simpl.
  - exists a. reflexivity.
  - unfold update. simpl in Hx. rewrite Hdim, Hx, Nat.eqb_refl.
    apply IH. reflexivity.
Qed.

(** C6. Starting from [A = λI] with [λ > 0], after any finite sequence of
    rank-one updates [A ← A + x xᵀ] the design matrix of the arm is
    symmetric and positive-definite, and it is invertible: the matrix the
    incremental update keeps beside it is its two-sided inverse.  The
    sequence of updates goes through whenever every context has the arm's
    dimension. *)
Theorem design_matrix_stays_positive_definite
    (lam : Q) (d : nat) (obs : list (vec * Q)) :
  0 < lam ->
  (forall a, update_all (new_arm lam d) obs = Some a ->
     well_formed d (arm_A a) /\
     symmetric d (arm_A a) /\
     positive_definite d (arm_A a) /\
     inverse_of d (arm_A a) (arm_A_inv a) /\
     invertible d (arm_A a)) /\
  (contexts_fit d obs -> exists a, update_all (new_arm lam d) obs = Some a).
Proof.
  intros Hlam. split.
  - intros a Hall.
    destruct (update_all_ok d obs (new_arm lam d) a (new_arm_ok lam d Hlam) Hall)
      as [_ Hwf Hsym Hpd Hinv _].
    repeat (split; [assumption|]). exists (arm_A_inv a). exact Hinv.
  - apply update_all_total. reflexivity.
Qed.

End LinearAlgebra.

(** ** The LinUCB core: selection *)

Section SelectionProperties.
Import LinUCB.

Variables lam alpha eps : Q.
Variable d : nat.
Variable sqrtQ : Q -> Q.
Variable rng : Z -> nat -> nat.

#[local] Abbreviation select_run := (selectRecommendation lam alpha eps d sqrtQ rng).























End SelectionProperties.

(** *** The core on concrete data *)

Example one_update_matrices :
  List.map (List.map Qred) (LinUCB.arm_A Fixtures.song_arm)
  = [ [2 # 1; 2 # 1]; [2 # 1; 5 # 1] ]%Q /\
  List.map (List.map Qred) (LinUCB.arm_A_inv Fixtures.song_arm)
  = [ [5 # 6; - (1 # 3)]; [- (1 # 3); 1 # 3] ]%Q /\
  LinUCB.update (LinUCB.new_arm 1 2) [1; 2 # 1; 3 # 1]%Q 1 = None.
Proof. repeat split; vm_compute; reflexivity. Qed.

Lemma design_matrix_stays_positive_definite_witness :
  exists a,
    LinUCB.update_all (LinUCB.new_arm 1 2) Fixtures.two_observations = Some a /\
    LinUCB.symmetric 2 (LinUCB.arm_A a) /\
    LinUCB.positive_definite 2 (LinUCB.arm_A a) /\
    LinUCB.invertible 2 (LinUCB.arm_A a).
Proof.
  destruct (design_matrix_stays_positive_definite 1 2 Fixtures.two_observations)
    as [Hspd Htotal]; [reflexivity|].
  destruct Htotal as (a & Ha); [repeat constructor|].
  exists a. destruct (Hspd a Ha) as (_ & Hsym & Hpd & _ & Hinv).
  repeat split; assumption.
Defined.

(** With context [1; 0] the song arm scores 13/12 against 1 and wins, and
    its candidate with the highest prior is returned; with context [0; 1]
    both arms score 1, and the tie goes to the arm with fewer updates. *)
Example selection_on_pool_of_three :
  LinUCB.selectRecommendation 1 1 (1 # 1000) 2 Fixtures.rough_sqrt Fixtures.draw
    Fixtures.store_one [1; 0]%Q Fixtures.pool_of_three 7%Z
  = inr {| LinUCB.sel_arm := "song"; LinUCB.sel_item := "track-2" |} /\
  LinUCB.selectRecommendation 1 1 (1 # 1000) 2 Fixtures.rough_sqrt Fixtures.draw
    Fixtures.store_one [0; 1]%Q Fixtures.pool_of_three 7%Z
  = inr {| LinUCB.sel_arm := "movie"; LinUCB.sel_item := "42" |} /\
  LinUCB.selectRecommendation 1 1 (1 # 1000) 2 Fixtures.rough_sqrt Fixtures.draw
    Fixtures.store_one [1; 0; 0]%Q Fixtures.pool_of_three 7%Z
  = inl LinUCB.InvalidContext /\
  LinUCB.selectRecommendation 1 1 (1 # 1000) 2 Fixtures.rough_sqrt Fixtures.draw
    Fixtures.store_one [1; 0]%Q [] 7%Z
  = inl LinUCB.CandidatesUnavailable.
Proof. repeat split; vm_compute; reflexivity. Qed.

(** Three arms of which the neighbours tie and the outer two do not: the arm
    served is the one with the fewest updates of those that tie with the
    maximum, whatever the order of the pool. *)
Example tie_break_is_against_the_maximum :
  let a := {| LinUCB.sa_id := "a"; LinUCB.sa_score := 0; LinUCB.sa_updates := 0 |} in
  let b := {| LinUCB.sa_id := "b"; LinUCB.sa_score := 9 # 100; LinUCB.sa_updates := 5 |} in
  let c := {| LinUCB.sa_id := "c"; LinUCB.sa_score := 18 # 100; LinUCB.sa_updates := 10 |} in
  LinUCB.best_arm (1 # 10) c [b; a] = b /\ LinUCB.best_arm (1 # 10) a [b; c] = b.
Proof. split; vm_compute; reflexivity. Qed.


(* ===================================================================== *)
(** * Part III: further properties of the handlers                         *)
(* ===================================================================== *)

(** ** shared/utils/error-handling.ts *)

Section ErrorHandlingComposition.
Import ErrorHandling.

Lemma should_catch_wider (e : Thrown) (classes wider : list string) :
  (forall E, In E classes -> In E wider) ->
  should_catch e (Some classes) = true -> should_catch e (Some wider) = true.
Proof.
  intros Hincl Hcatch. simpl in *.
  apply existsb_exists in Hcatch as (E & HE & Hinst).
  apply existsb_exists. exists E. split; [apply Hincl; exact HE | exact Hinst].
Qed.

(** Listing more classes never turns a caught error into a re-thrown one:
    what [catchError] returns with a list it returns with every longer
    list, and with no list at all. *)
Theorem catchError_wider_list_keeps_result (T : Type) (x : PromiseOrValue T)
    (classes wider : list string) (result : option Thrown * option T) :
  (forall E, In E classes -> In E wider) ->
  catchError x (Some classes) = Returns result ->
  catchError x (Some wider) = Returns result /\ catchError x None = Returns result.
Proof.
  intros Hincl. unfold catchError.
  destruct (await_resolve x) as [v | e | ]; try discriminate.
  - intros H. split; exact H.
  - destruct (should_catch e (Some classes)) eqn:Hcatch; [|discriminate].
    rewrite (should_catch_wider e classes wider Hincl Hcatch).
    intros H. split; exact H.
Qed.

(** An error is caught through any class on its prototype chain: a list
    that names an ancestor class catches every instance of a subclass. *)
Theorem catchError_catches_subclasses (T : Type) (e : Thrown) (E : string)
    (classes : list string) :
  In E (thrown_chain e) -> In E classes ->
  catchError (Promise (@Rejects T e)) (Some classes) = Returns (Some e, None).
Proof.
  intros Hchain Hlisted. unfold catchError. simpl.
  assert (existsb (fun E0 => instanceof e E0) classes = true) as ->; [|reflexivity].
  apply existsb_exists. exists E. split; [exact Hlisted|].
  unfold instanceof. apply existsb_exists. exists E.
  split; [exact Hchain | apply String.eqb_refl].
Qed.

(** [catchError] without a list and [tryCatch] agree on every promise:
    the one returns the tuple of the [Result] the other returns, and
    neither throws. *)
Theorem catchError_without_list_is_tryCatch (T : Type) (x : PromiseOrValue T) :
  catchError x None =
  match tryCatch (fun _ => CallReturns x) with
  | Returns r => Returns (Compose.tuple_of_result r)
  | Throws e => Throws e
  | NeverSettles => NeverSettles
  end /\
  (forall e, catchError x None <> Throws e).
Proof.
  unfold catchError, tryCatch, await_call.
  destruct (await_resolve x) as [v | e | ]; simpl; split; try reflexivity;
    intros e'; discriminate.
Qed.

End ErrorHandlingComposition.

Lemma catchError_wider_list_keeps_result_witness :
  ErrorHandling.catchError (ErrorHandling.Promise (ErrorHandling.Rejects Fixtures.a_type_error))
    (Some ["RangeError"; "TypeError"])
  = ErrorHandling.Returns (Some Fixtures.a_type_error, @None nat).
Proof.
  apply (catchError_wider_list_keeps_result nat
           (ErrorHandling.Promise (ErrorHandling.Rejects Fixtures.a_type_error))
           ["TypeError"] ["RangeError"; "TypeError"]).
  - intros E [<- | []]. right. left. reflexivity.
  - reflexivity.
Defined.

Lemma catchError_catches_subclasses_witness :
  ErrorHandling.catchError (ErrorHandling.Promise (ErrorHandling.Rejects Fixtures.a_type_error))
    (Some ["Error"])
  = ErrorHandling.Returns (Some Fixtures.a_type_error, @None nat).
Proof.
  apply (catchError_catches_subclasses nat Fixtures.a_type_error "Error" ["Error"]).
  - right. left. reflexivity.
  - left. reflexivity.
Defined.

(** ** server/api/habits/preferences.get.ts *)

(** The bounds of the nostalgic window are null together, exactly for a
    null or zero birth year.  When they are set, the window ends before the
    current year, spans at most fifteen years, and is in order exactly when
    its first year is already over, that is for users who are at least six
    years old; for younger users it starts after it ends. *)
Theorem nostalgic_window_shape (fullYear : Z) (p : Preferences.Prefs) :
  exists first last,
    Preferences.window_of (Preferences.handler fullYear (Some p)) = Some (first, last) /\
    (first = None <-> Preferences.birthYear p = None \/ Preferences.birthYear p = Some 0%Z) /\
    (last = None <-> first = None) /\
    (forall s e, first = Some s -> last = Some e ->
       (e < fullYear)%Z /\ (e - s <= 14)%Z /\ ((s <= e)%Z <-> (s < fullYear)%Z) /\
       (exists y, Preferences.birthYear p = Some y /\ s = (y + 5)%Z /\
                  ((s <= e)%Z <-> (y + 6 <= fullYear)%Z))).
Proof.
  unfold Preferences.window_of, Preferences.handler. simpl.
  unfold Preferences.nostalgic_start, Preferences.nostalgic_end.
  destruct (Preferences.birthYear p) as [y|]; simpl.
  - destruct (Z.eqb_spec y 0) as [-> | Hy]; simpl.
    + eexists _, _. split; [reflexivity|]. split; [|split].
      * split; auto.
      * split; auto.
      * intros s e [=].
    + eexists _, _. split; [reflexivity|]. split; [|split].
      * split; [discriminate|]. intros [H | H]; [discriminate | congruence].
      * split; discriminate.
      * intros s e [= <-] [= <-].
        split; [lia|]. split; [lia|]. split; [lia|].
        exists y. split; [reflexivity|]. split; [reflexivity | lia].
  - eexists _, _. split; [reflexivity|]. split; [|split].
    + split; auto.
    + split; auto.
    + intros s e [=].
Qed.

Example window_of_a_toddler :
  Preferences.window_of (Preferences.handler 2026 (Some (Preferences.with_birth_year (Some 2023%Z))))
  = Some (Some 2028%Z, Some 2025%Z).
Proof. reflexivity. Qed.

(** Without a preferences row the handler reports no preferences and an
    onboarding that is not complete; with a row, the onboarding is complete
    exactly when the row carries a completion time, whatever the birth
    year. *)
Theorem onboarding_complete_iff_timestamp (fullYear : Z) (row : option Preferences.Prefs) :
  Preferences.onboardingComplete (Preferences.handler fullYear row) = true <->
  exists p t, row = Some p /\ Preferences.onboardingCompletedAt p = Some t.
Proof.
  destruct row as [p|]; simpl.
  - destruct (Preferences.onboardingCompletedAt p) as [t|] eqn:Ht.
    + split; [|reflexivity]. intros _. exists p, t. split; [reflexivity | exact Ht].
    + split; [discriminate|]. intros (p' & t & [= <-] & Habs). congruence.
  - split; [discriminate|]. intros (p & t & Habs & _). discriminate.
Qed.

(** ** server/api/admin/stats.get.ts *)

Section StatsBounds.
Import Stats.

Lemma ratio_in_unit_interval (c t : N) :
  (c <= t)%N -> t <> 0%N ->
  (0 <= inject_Z (Z.of_N c) / inject_Z (Z.of_N t) <= 1)%Q.
Proof.
  intros Hle Hnz.
  assert (0 < inject_Z (Z.of_N t))%Q as Ht.
  { change 0%Q with (inject_Z 0). rewrite <- Zlt_Qlt. lia. }
  assert (0 <= inject_Z (Z.of_N c))%Q as Hc.
  { change 0%Q with (inject_Z 0). rewrite <- Zle_Qle. lia. }
  assert (inject_Z (Z.of_N c) <= inject_Z (Z.of_N t))%Q as Hct.
  { rewrite <- Zle_Qle. lia. }
  split.
  - apply Qle_shift_div_l; [exact Ht | lra].
  - apply Qle_shift_div_r; [exact Ht | lra].
Qed.

(** A rate is a percentage: when the completed (resp. positive) count does
    not exceed the total, as for the sum of a 0/1 column over the counted
    rows, the reported rate is a finite number between 0 and 100. *)
Theorem rate_is_a_percentage (total completed : option N) :
  (forall t c, total = Some t -> completed = Some c -> (c <= t)%N) ->
  exists q, rate total completed = Finite q /\ (0 <= q <= 100)%Q.
Proof.
  intros Hle. unfold rate.
  destruct total as [t|]; [|exists 0%Q; split; [reflexivity | lra]].
  destruct (N.eqb_spec t 0) as [-> | Hnz]; cbn [negb andb].
  { exists 0%Q. split; [reflexivity | lra]. }
  assert ((0 <? t)%N = true) as -> by (apply N.ltb_lt; lia).
  rewrite js_div_nonzero.
  2:{ intros Hzero. unfold Qeq in Hzero. simpl in Hzero. lia. }
  assert (0 <= Number completed / inject_Z (Z.of_N t) <= 1)%Q as [Hlo Hhi].
  { destruct completed as [c|]; cbn [Number].
    - apply ratio_in_unit_interval; [apply (Hle t c); reflexivity | exact Hnz].
    - apply (ratio_in_unit_interval 0 t); [lia | exact Hnz]. }
  destruct (to_number_bounded _ 1 Hlo Hhi) as (y & -> & Hy); [reflexivity|].
  change (inject_Z 1) with 1%Q in Hy. cbn [js_mul].
  destruct (to_number_bounded (y * 100) 100) as (z & Hz & Hz100);
    [lra | change (inject_Z 100) with 100%Q; lra | reflexivity |].
  exists z. split; [exact Hz | exact Hz100].
Qed.

Lemma find_group_skips (name : string) (pre post : list CompletionRow) (r : CompletionRow) :
  experimentGroup r <> Some name ->
  find_group name (pre ++ r :: post)%list = find_group name (pre ++ post)%list.
Proof.
  intros Hother. unfold find_group.
  induction pre as [|r0 pre IH]; simpl.
  - destruct (experimentGroup r) as [s|]; [|reflexivity].
    destruct (String.eqb_spec s name) as [-> | _]; [contradiction | reflexivity].
  - destruct (match experimentGroup r0 with
              | Some s => String.eqb s name
              | None => false
              end); [reflexivity | exact IH].
Qed.

(** The two groups are reported independently: a row of the query result
    that belongs to another group (or to none) can be added or removed
    anywhere without changing what is reported for a group, and the feedback
    statistics do not depend on the completion rows at all. *)
Theorem completion_groups_are_independent
    (pre post : list CompletionRow) (r : CompletionRow)
    (feedbackStats : option FeedbackStats) :
  (experimentGroup r <> Some "treatment" ->
   completion_treatment (handler (pre ++ r :: post)%list feedbackStats)
   = completion_treatment (handler (pre ++ post)%list feedbackStats)) /\
  (experimentGroup r <> Some "control" ->
   completion_control (handler (pre ++ r :: post)%list feedbackStats)
   = completion_control (handler (pre ++ post)%list feedbackStats)) /\
  nostalgiaFeedback (handler (pre ++ r :: post)%list feedbackStats)
  = nostalgiaFeedback (handler [] feedbackStats).
Proof.
  unfold handler. simpl. repeat apply conj.
  - intros Hother. rewrite (find_group_skips "treatment" pre post r Hother). reflexivity.
  - intros Hother. rewrite (find_group_skips "control" pre post r Hother). reflexivity.
  - reflexivity.
Qed.

End StatsBounds.

Lemma rate_is_a_percentage_witness :
  exists q, Stats.rate (Some 4%N) (Some 3%N) = Stats.Finite q /\ (0 <= q <= 100)%Q.
Proof.
  apply (rate_is_a_percentage (Some 4%N) (Some 3%N)).
  intros t c [= <-] [= <-]. lia.
Defined.

Lemma completion_groups_are_independent_witness :
  Stats.completion_treatment
    (Stats.handler
       [ {| Stats.experimentGroup := Some "control"; Stats.totalLogs := 9%N;
            Stats.completedLogs := Some 1%N |};
         {| Stats.experimentGroup := Some "treatment"; Stats.totalLogs := 4%N;
            Stats.completedLogs := Some 3%N |} ] None)
  = Stats.completion_treatment
      (Stats.handler
         [ {| Stats.experimentGroup := Some "treatment"; Stats.totalLogs := 4%N;
              Stats.completedLogs := Some 3%N |} ] None).
Proof.
  apply (completion_groups_are_independent []
           [ {| Stats.experimentGroup := Some "treatment"; Stats.totalLogs := 4%N;
                Stats.completedLogs := Some 3%N |} ]
           {| Stats.experimentGroup := Some "control"; Stats.totalLogs := 9%N;
              Stats.completedLogs := Some 1%N |} None).
  discriminate.
Defined.

(** An over-count is not clipped: a completed count above the total gives a
    rate above 100. *)
Example rate_above_hundred :
  Stats.rate (Some 2%N) (Some 3%N) = Stats.Finite 150.
Proof. vm_compute. reflexivity. Qed.

(** ** The body schemas *)

Section BodyShapeProperties.
Import Zod Feedback BodyShape.

Lemma ap_Parsed_iff {A B} (f : Parse (A -> B)) (x : Parse A) :
  (exists b, f <*> x = Parsed b) <-> (exists g, f = Parsed g) /\ (exists a, x = Parsed a).
Proof.
  split.
  - intros (b & Hb). apply ap_Parsed_inv in Hb as (g & a & -> & -> & _). eauto.
  - intros ((g & ->) & (a & ->)). eexists. reflexivity.
Qed.

Lemma object_Parsed_inv {A} (shape : gmap string Js.json -> Parse A)
    (input : option Js.json) (a : A) :
  object shape input = Parsed a -> exists m, input = Some (Js.JObj m) /\ shape m = Parsed a.
Proof.
  unfold object. destruct input as [[ | | | | | m] | ]; try discriminate.
  intros H. exists m. split; [reflexivity | exact H].
Qed.

Lemma field_insert_ne {A} (m : gmap string Js.json) (k k' : string) (v : Js.json)
    (schema : Schema A) :
  k <> k' -> field (<[k := v]> m) k' schema = field m k' schema.
Proof.
  intros Hne. unfold field. rewrite lookup_insert_ne by exact Hne. reflexivity.
Qed.

Lemma field_string_iff (m : gmap string Js.json) (k : string) :
  (exists a, field m k z_string = Parsed a) <-> is_string (m !! k).
Proof.
  unfold field, is_string, z_string.
  destruct (m !! k) as [[ | | | s | | ] | ]; simpl; split;
    try (intros (a & H); discriminate); try (intros (s' & H); discriminate); eauto.
Qed.

Lemma field_boolean_iff (m : gmap string Js.json) (k : string) :
  (exists a, field m k z_boolean = Parsed a) <-> is_boolean (m !! k).
Proof.
  unfold field, is_boolean, z_boolean.
  destruct (m !! k) as [[ | b | | | | ] | ]; simpl; split;
    try (intros (a & H); discriminate); try (intros (s' & H); discriminate); eauto.
Qed.

Lemma content_type_cases (m : gmap string Js.json) :
  is_content_type (m !! "contentType") \/ bad_content_type m.
Proof.
  unfold is_content_type, bad_content_type.
  destruct (m !! "contentType") as [[ | b | q | s | l | o] | ];
    try (right; split; discriminate).
  destruct (String.eqb_spec s "song") as [-> | Hsong]; [left; left; reflexivity|].
  destruct (String.eqb_spec s "movie") as [-> | Hmovie]; [left; right; reflexivity|].
  right. split; congruence.
Qed.

Lemma field_content_type_iff (m : gmap string Js.json) :
  (exists a, field m "contentType" contentTypeSchema = Parsed a)
  <-> is_content_type (m !! "contentType").
Proof.
  split.
  - intros (a & Ha).
    destruct (content_type_cases m) as [Hok | Hbad]; [exact Hok|].
    destruct (contentType_issue m Hbad) as (c & Hc). congruence.
  - unfold field, is_content_type. intros [-> | ->]; eexists; reflexivity.
Qed.

Lemma field_stress_iff (m : gmap string Js.json) (k : string) :
  (exists a, field m k stressSchema = Parsed a) <-> absent_or is_stress (m !! k).
Proof.
  unfold field, stressSchema, absent_or, is_stress.
  destruct (m !! k) as [[ | b | q | s | l | o] | ] eqn:Hk;
    try (split; [intros (a & H); discriminate
                | intros [H | (q' & H & _)]; discriminate]).
  - split.
    + intros (a & Ha). right. exists q. split; [reflexivity|].
      destruct (Qle_bool 0 q) eqn:Hlo, (Qle_bool q 1) eqn:Hhi;
        unfold optional, z_number_min_max in Ha; simpl in Ha;
        rewrite Hlo, Hhi in Ha; simpl in Ha; try discriminate.
      split; apply Qle_bool_iff; assumption.
    + intros [H | (q' & [= <-] & Hrange)]; [discriminate|].
      rewrite (min_max_accepts 0 1 q Hrange). eexists. reflexivity.
  - split; [left; reflexivity | intros _; eexists; reflexivity].
Qed.

Lemma field_optional_boolean_iff (m : gmap string Js.json) (k : string) :
  (exists a, field m k (optional z_boolean) = Parsed a) <-> absent_or is_boolean (m !! k).
Proof.
  unfold field, absent_or, is_boolean, optional, z_boolean.
  destruct (m !! k) as [[ | b | q | s | l | o] | ]; simpl;
    try (split; [intros (a & H); discriminate | intros [H | (x & H)]; discriminate]).
  - split; [right; eauto | intros _; eexists; reflexivity].
  - split; [left; reflexivity | intros _; eexists; reflexivity].
Qed.

Lemma field_optional_string_iff (m : gmap string Js.json) (k : string) :
  (exists a, field m k (optional z_string) = Parsed a) <-> absent_or is_string (m !! k).
Proof.
  unfold field, absent_or, is_string, optional, z_string.
  destruct (m !! k) as [[ | b | q | s | l | o] | ]; simpl;
    try (split; [intros (a & H); discriminate | intros [H | (x & H)]; discriminate]).
  - split; [right; eauto | intros _; eexists; reflexivity].
  - split; [left; reflexivity | intros _; eexists; reflexivity].
Qed.

Lemma field_optional_number_iff (m : gmap string Js.json) (k : string) :
  (exists a, field m k (optional z_number) = Parsed a) <-> absent_or is_number (m !! k).
Proof.
  unfold field, absent_or, is_number, optional, z_number.
  destruct (m !! k) as [[ | b | q | s | l | o] | ]; simpl;
    try (split; [intros (a & H); discriminate | intros [H | (x & H)]; discriminate]).
  - split; [right; eauto | intros _; eexists; reflexivity].
  - split; [left; reflexivity | intros _; eexists; reflexivity].
Qed.

(** feedback.post.ts accepts exactly the JSON objects that carry a content
    type of ["song"] or ["movie"], a string [contentId], a boolean
    [bringsBackMemories] and, for each optional key, either nothing or a
    value of its type (a number within [0, 1] for the stress readings); a
    body that is not an object, or a [null] under an optional key, is
    refused. *)
Theorem feedback_body_accepted_iff (input : option Js.json) :
  (exists b, feedbackBodySchema input = Parsed b) <->
  (exists m, input = Some (Js.JObj m) /\ acceptable_feedback m).
Proof.
  assert (forall m, (exists b, feedbackShape m = Parsed b) <-> acceptable_feedback m) as Hshape.
  { intros m. unfold feedbackShape, acceptable_feedback.
    rewrite !ap_Parsed_iff.
    rewrite field_content_type_iff, field_string_iff, field_boolean_iff,
      !field_stress_iff, field_optional_boolean_iff, !field_optional_string_iff,
      field_optional_number_iff.
    split.
    - intros ((((((((( _ & H1) & H2) & H3) & H4) & H5) & H6) & H7) & H8) & H9).
      repeat (split; [assumption|]). assumption.
    - intros (H1 & H2 & H3 & H4 & H5 & H6 & H7 & H8 & H9).
      repeat (split; [|assumption]). eexists. reflexivity. }
  split.
  - intros (b & Hb). apply object_Parsed_inv in Hb as (m & -> & Hm).
    exists m. split; [reflexivity|]. apply Hshape. exists b. exact Hm.
  - intros (m & -> & Hm). apply Hshape in Hm as (b & Hb). exists b. exact Hb.
Qed.

End BodyShapeProperties.

Example null_stress_is_refused :
  Feedback.feedbackBodySchema
    (Some (Js.JObj (<["stressAfter" := Js.JNull]> Fixtures.full_body)))
  = Zod.Invalid [ {| Zod.issue_path := "stressAfter"; Zod.issue_code := Zod.InvalidType |} ].
Proof. vm_compute. reflexivity. Qed.

(** ** The feedback and interaction handlers: effects *)

Section FeedbackEffects.
Import Zod Feedback BodyShape.

Context {Bandit : Type}.
Variable bandit_feedback : BanditPayload -> Bandit -> Bandit * bool.
Variable nanoid : nat -> string.
Variable db_accepts : list FeedbackRow -> FeedbackRow -> bool.

#[local] Abbreviation feedback_run := (feedback_handler bandit_feedback nanoid db_accepts).
#[local] Abbreviation interaction_run := (interaction_handler bandit_feedback nanoid db_accepts).

(** A run that ends in an error has done nothing: it stored no row, posted
    nothing to the bandit, wrote nothing on the console, and left the table
    and the bandit as they were. *)
Theorem failed_run_has_no_effect (config : RuntimeConfig) (req : Request) (w : World) :
  (forall e, outcome_of (feedback_run config req w) = H3.Thrown e ->
     events_of (feedback_run config req w) = [] /\
     contentFeedback (world_of (feedback_run config req w)) = contentFeedback w /\
     bandit (world_of (feedback_run config req w)) = bandit w) /\
  (forall e, outcome_of (interaction_run config req w) = H3.Thrown e ->
     events_of (interaction_run config req w) = [] /\
     contentFeedback (world_of (interaction_run config req w)) = contentFeedback w /\
     bandit (world_of (interaction_run config req w)) = bandit w).
Proof.
  split; intros e.
  - rewrite feedback_handler_run.
    destruct (session req); [|repeat split].
    destruct (feedbackBodySchema (body req)); [|repeat split].
    cbv zeta. destruct (db_accepts _ _); [discriminate | repeat split].
  - rewrite interaction_handler_run.
    destruct (session req); [|repeat split].
    destruct (interactionBodySchema (body req)) as [b|]; [|repeat split].
    cbv zeta. destruct (db_accepts _ _); [|repeat split].
    destruct (is_explicit_feedback b); discriminate.
Qed.





(** *** What reaches the bandit *)

Lemma stress_field_in_range (m : gmap string Js.json) (k : string) (reading : option Q) :
  field m k stressSchema = Parsed reading -> stress_in_range reading.
Proof.
  intros Hfield q ->.
  unfold field, stressSchema in Hfield.
  destruct (m !! k) as [[ | b | q' | s | l | o] | ]; try discriminate.
  destruct (Qle_bool 0 q') eqn:Hlo, (Qle_bool q' 1) eqn:Hhi;
    unfold optional, z_number_min_max in Hfield; simpl in Hfield;
    rewrite Hlo, Hhi in Hfield; simpl in Hfield; try discriminate.
  injection Hfield as <-. split; apply Qle_bool_iff; assumption.
Qed.

(** The bandit never sees a stress reading outside [0, 1]: in every run of
    either handler, whatever the request, each payload posted carries
    stress readings that are absent or within the range. *)
Theorem posted_stress_is_in_range (config : RuntimeConfig) (req : Request)
    (w : @World Bandit) (p : BanditPayload) :
  (In p (posts_of (events_of (feedback_run config req w))) ->
   stress_in_range (p_stress_before p) /\ stress_in_range (p_stress_after p)) /\
  (In p (posts_of (events_of (interaction_run config req w))) ->
   stress_in_range (p_stress_before p) /\ stress_in_range (p_stress_after p)).
Proof.
  split.
  - rewrite feedback_handler_run.
    destruct (session req) as [user|]; [|intros []].
    destruct (feedbackBodySchema (body req)) as [b|issues] eqn:Hparse; [|intros []].
    apply object_Parsed_inv in Hparse as (m & _ & Hshape).
    apply feedbackShape_inv in Hshape as (_ & _ & _ & Hbefore & Hafter & _).
    cbv zeta. destruct (db_accepts _ _); [|intros []].
    unfold events_of, posts_of. simpl.
    assert (In p [feedback_payload user b] ->
            stress_in_range (p_stress_before p) /\ stress_in_range (p_stress_after p)) as Hone.
    { intros [<- | []]. simpl. split; eapply stress_field_in_range; eassumption. }
    destruct (snd _); simpl; exact Hone.
  - rewrite interaction_handler_run.
    destruct (session req) as [user|]; [|intros []].
    destruct (interactionBodySchema (body req)) as [b|issues] eqn:Hparse; [|intros []].
    apply object_Parsed_inv in Hparse as (m & _ & Hshape).
    apply interactionShape_inv in Hshape as (_ & _ & _ & _ & _ & Hbefore & Hafter & _).
    cbv zeta. destruct (db_accepts _ _); [|intros []].
    destruct (is_explicit_feedback b); [|intros []].
    unfold events_of, posts_of. simpl.
    assert (In p [interaction_payload user b] ->
            stress_in_range (p_stress_before p) /\ stress_in_range (p_stress_after p)) as Hone.
    { intros [<- | []]. simpl. split; eapply stress_field_in_range; eassumption. }
    destruct (snd _); simpl; exact Hone.
Qed.

(** *** Keys the schemas do not declare *)

Lemma feedbackShape_ignores (m : gmap string Js.json) (k : string) (v : Js.json) :
  ~ In k feedback_keys -> feedbackShape (<[k := v]> m) = feedbackShape m.
Proof.
  intros Hk. unfold feedbackShape.
  rewrite !field_insert_ne by (intros ->; apply Hk; simpl; tauto).
  reflexivity.
Qed.

Lemma interactionShape_ignores (m : gmap string Js.json) (k : string) (v : Js.json) :
  ~ In k interaction_keys -> interactionShape (<[k := v]> m) = interactionShape m.
Proof.
  intros Hk. unfold interactionShape.
  rewrite !field_insert_ne by (intros ->; apply Hk; simpl; tauto).
  reflexivity.
Qed.

(** A key that a schema does not declare is dropped: adding it to a body,
    or changing its value, changes nothing of what the handler does.  For
    feedback.post.ts this includes [interactionType] and
    [durationSeconds]. *)
Theorem undeclared_keys_are_ignored (config : RuntimeConfig) (who : option User)
    (m : gmap string Js.json) (k : string) (v : Js.json) (w : @World Bandit) :
  (~ In k feedback_keys ->
   feedback_run config (mkRequest who (Some (Js.JObj (<[k := v]> m)))) w
   = feedback_run config (mkRequest who (Some (Js.JObj m))) w) /\
  (~ In k interaction_keys ->
   interaction_run config (mkRequest who (Some (Js.JObj (<[k := v]> m)))) w
   = interaction_run config (mkRequest who (Some (Js.JObj m))) w).
Proof.
  split; intros Hk.
  - rewrite !feedback_handler_run. simpl.
    rewrite (feedbackShape_ignores m k v Hk). reflexivity.
  - rewrite !interaction_handler_run. simpl.
    rewrite (interactionShape_ignores m k v Hk). reflexivity.
Qed.

(** *** The interaction handler serves the clients of feedback.post.ts *)

Lemma interactionShape_of_feedback (m : gmap string Js.json) (b : FeedbackBody) :
  m !! "interactionType" = None -> m !! "durationSeconds" = None ->
  feedbackShape m = Parsed b ->
  interactionShape m = Parsed (as_interaction b).
Proof.
  intros Htype Hduration Hshape.
  apply feedbackShape_inv in Hshape as (H1 & H2 & H3 & H4 & H5 & H6 & H7 & H8 & H9).
  assert (field m "interactionType" interactionTypeSchema = Parsed IFeedback) as Ht.
  { unfold field. rewrite Htype. reflexivity. }
  assert (field m "durationSeconds" (optional z_number) = Parsed None) as Hd.
  { apply field_absent_optional. exact Hduration. }
  assert (field m "bringsBackMemories" (optional z_boolean)
          = Parsed (Some (fb_bringsBackMemories b))) as Hb.
  { unfold field in *. destruct (m !! "bringsBackMemories") as [[ | x | | | | ] | ];
      simpl in *; try discriminate. injection H3 as <-. reflexivity. }
  unfold interactionShape. rewrite H1, H2, Ht, Hd, Hb, H4, H5, H6, H7, H8, H9.
  reflexivity.
Qed.

(** A body that feedback.post.ts accepts and that names neither an
    interaction type nor a duration is read by the interaction handler as
    explicit feedback with the same fields: when the database takes the row
    of each handler, the two post the same payload to the bandit, leave it
    in the same state, and store rows that differ only in the interaction
    type, which the interaction handler records as [feedback]. *)
Theorem interaction_handler_serves_feedback_clients
    (config : RuntimeConfig) (user : User) (m : gmap string Js.json)
    (b : FeedbackBody) (w : @World Bandit) :
  m !! "interactionType" = None -> m !! "durationSeconds" = None ->
  feedbackBodySchema (Some (Js.JObj m)) = Parsed b ->
  let req := mkRequest (Some user) (Some (Js.JObj m)) in
  let id := nanoid (ids_drawn w) in
  interactionBodySchema (body req) = Parsed (as_interaction b) /\
  interaction_row id user (as_interaction b)
  = {| row_id := id; row_userId := user_id user;
       row_contentType := row_contentType (feedback_row id user b);
       row_contentId := row_contentId (feedback_row id user b);
       row_interactionType := Some IFeedback;
       row_durationSeconds := None;
       row_bringsBackMemories := row_bringsBackMemories (feedback_row id user b) |} /\
  (db_accepts (contentFeedback w) (feedback_row id user b) = true ->
   db_accepts (contentFeedback w) (interaction_row id user (as_interaction b)) = true ->
   posts_of (events_of (interaction_run config req w))
   = posts_of (events_of (feedback_run config req w)) /\
   posts_of (events_of (feedback_run config req w)) = [feedback_payload user b] /\
   bandit (world_of (interaction_run config req w))
   = bandit (world_of (feedback_run config req w))).
Proof.
  intros Htype Hduration Hparse. cbv zeta.
  pose proof (interactionShape_of_feedback m b Htype Hduration Hparse) as Hshape.
  split; [exact Hshape|]. split; [reflexivity|].
  intros Hdb1 Hdb2.
  rewrite feedback_handler_run, interaction_handler_run. simpl.
  simpl in Hparse. rewrite Hparse, Hshape. cbv zeta. rewrite Hdb1, Hdb2.
  change (is_explicit_feedback (as_interaction b)) with true. cbv iota.
  change (interaction_payload user (as_interaction b)) with (feedback_payload user b).
  unfold events_of, world_of, posts_of. simpl.
  destruct (snd _); simpl; repeat split.
Qed.

End FeedbackEffects.

Lemma interaction_handler_serves_feedback_clients_witness :
  Feedback.interactionBodySchema (Some (Js.JObj Fixtures.full_body))
  = Zod.Parsed (BodyShape.as_interaction Fixtures.full_parsed).
Proof.
  apply (interaction_handler_serves_feedback_clients
           Fixtures.counting_bandit Fixtures.ids Fixtures.accept_all
           Fixtures.config Fixtures.alice Fixtures.full_body Fixtures.full_parsed
           Fixtures.fresh_world).
  - vm_compute. reflexivity.
  - vm_compute. reflexivity.
  - vm_compute. reflexivity.
Defined.

Example interaction_type_is_ignored_by_feedback_post :
  Feedback.feedback_handler Fixtures.counting_bandit Fixtures.ids Fixtures.accept_all
    Fixtures.config (Fixtures.request_of Fixtures.view_with_answer) Fixtures.fresh_world
  = Feedback.feedback_handler Fixtures.counting_bandit Fixtures.ids Fixtures.accept_all
      Fixtures.config
      (Fixtures.request_of (delete "interactionType" Fixtures.view_with_answer))
      Fixtures.fresh_world.
Proof. vm_compute. reflexivity. Qed.

(** ** The recommendation card and the handler that serves it *)

Section CardProperties.
Import Zod Feedback BodyShape Card.

Context {Bandit : Type}.
Variable bandit_feedback : BanditPayload -> Bandit -> Bandit * bool.
Variable nanoid : nat -> string.
Variable db_accepts : list FeedbackRow -> FeedbackRow -> bool.

#[local] Abbreviation feedback_run := (feedback_handler bandit_feedback nanoid db_accepts).

(** What feedback.post.ts reads out of the card's body. *)
Lemma card_body_parses (r : Recommendation) (answer : bool) :
  feedbackBodySchema (Some (Js.JObj (submit_body r answer)))
  = Parsed {| fb_contentType := match r with SongPick _ => Song | MoviePick _ => Movie end;
              fb_contentId := content_id r;
              fb_bringsBackMemories := answer;
              fb_stressBefore := None; fb_stressAfter := None;
              fb_habitCompleted := None; fb_journalText := None;
              fb_contentYear := None; fb_contentGenre := None |}.
Proof.
  unfold feedbackBodySchema, object, feedbackShape, submit_body, field.
  repeat (first [ rewrite lookup_insert_eq
                | rewrite lookup_insert_ne by discriminate
                | rewrite lookup_empty ]).
  destruct r; reflexivity.
Qed.

(** The body the card sends is always one the handlers accept, whatever the
    recommendation and the answer: feedback.post.ts reads the content type,
    the content id and the answer out of it, and the interaction handler
    reads it as explicit feedback. *)
Theorem card_body_is_accepted (r : Recommendation) (answer : bool) :
  exists b,
    feedbackBodySchema (Some (Js.JObj (submit_body r answer))) = Parsed b /\
    fb_contentId b = content_id r /\
    fb_bringsBackMemories b = answer /\
    (fb_contentType b = Song <-> exists id, r = SongPick id) /\
    interactionBodySchema (Some (Js.JObj (submit_body r answer)))
    = Parsed (as_interaction b) /\
    is_explicit_feedback (as_interaction b) = true.
Proof.
  eexists. split; [apply card_body_parses|]. simpl.
  split; [reflexivity|]. split; [reflexivity|]. split; [|split; [|reflexivity]].
  - destruct r; split; try discriminate; eauto. intros (id' & [=]).
  - apply interactionShape_of_feedback.
    + unfold submit_body.
      repeat (first [ rewrite lookup_insert_ne by discriminate | rewrite lookup_empty ]).
      reflexivity.
    + unfold submit_body.
      repeat (first [ rewrite lookup_insert_ne by discriminate | rewrite lookup_empty ]).
      reflexivity.
    + exact (card_body_parses r answer).
Qed.

(** From the card to the table.  With a recommendation on display, a
    signed-in user and a database that takes the row, [submitFeedback]
    ends with the submitted flag set and the loading flag lowered, one body
    sent, and the answer stored in the table, whether or not the bandit
    could be reached.  Without a session, or when the insert is refused,
    the submitted flag stays as it was. *)
Theorem card_feedback_is_recorded (config : RuntimeConfig) (who : option User)
    (r : Recommendation) (answer : bool) (w : @World Bandit) (st : State) :
  let serve body := feedback_run config (mkRequest who (Some (Js.JObj body))) w in
  let after := submitFeedback (fun body => resolves (serve body)) (Some r) answer st in
  let stored user :=
    db_accepts (contentFeedback w)
      {| row_id := nanoid (ids_drawn w); row_userId := user_id user;
         row_contentType := match r with SongPick _ => Song | MoviePick _ => Movie end;
         row_contentId := content_id r;
         row_interactionType := None; row_durationSeconds := None;
         row_bringsBackMemories := Some answer |} in
  snd after = [submit_body r answer] /\
  feedbackLoading (fst after) = false /\
  (forall user, who = Some user -> stored user = true ->
     feedbackSubmitted (fst after) = true /\
     exists row,
       contentFeedback (world_of (serve (submit_body r answer)))
       = (contentFeedback w ++ [row])%list /\
       row_userId row = user_id user /\
       row_contentId row = content_id r /\
       row_bringsBackMemories row = Some answer) /\
  (who = None \/ (exists user, who = Some user /\ stored user = false) ->
   feedbackSubmitted (fst after) = feedbackSubmitted st).
Proof.
  cbv zeta. unfold submitFeedback, resolves. simpl.
  rewrite feedback_handler_run. simpl.
  pose proof (card_body_parses r answer) as Hparse. simpl in Hparse. rewrite Hparse.
  cbv zeta. split; [reflexivity|]. split; [reflexivity|]. split.
  - intros user -> Hstored. unfold feedback_row. simpl. rewrite Hstored. simpl.
    split; [reflexivity|]. eexists. unfold world_of. simpl.
    split; [reflexivity|]. repeat split.
  - intros [-> | (user & -> & Hrefused)]; [reflexivity|].
    unfold feedback_row. simpl. rewrite Hrefused. reflexivity.
Qed.

End CardProperties.

Example card_without_recommendation :
  Card.submitFeedback (fun _ => true) None true
    {| Card.feedbackSubmitted := false; Card.feedbackLoading := false |}
  = ({| Card.feedbackSubmitted := false; Card.feedbackLoading := false |}, []).
Proof. reflexivity. Qed.

Example card_thanks_although_the_bandit_is_down :
  fst (Card.submitFeedback
         (fun body => Card.resolves
            (Feedback.feedback_handler Fixtures.failing_bandit Fixtures.ids Fixtures.accept_all
               Fixtures.config (Fixtures.request_of body) Fixtures.fresh_world))
         (Some (Card.MoviePick 42)) true
         {| Card.feedbackSubmitted := false; Card.feedbackLoading := false |})
  = {| Card.feedbackSubmitted := true; Card.feedbackLoading := false |} /\
  Card.content_id (Card.MoviePick 42) = "42".
Proof. split; vm_compute; reflexivity. Qed.

(** ** The movie-candidate endpoint: every path *)

Section MoviesPaths.
Import Movies MovieQueries.

Variable toNumber : Js.json -> Stats.JsNumber.
Variable fetch_recommend : string -> list (option Z) -> Q -> option (list Z).
Variable db_select : Select -> option (list MovieRow).

#[local] Abbreviation movies_run := (handler fetch_recommend db_select).
#[local] Abbreviation endpoint_run :=
  (MovieEndpoint.endpoint toNumber fetch_recommend db_select).

Lemma parse_id_list_empty_string (ids : string) :
  non_empty ids = false -> parse_id_list ids = [].
Proof.
  unfold non_empty. intros H. apply negb_false_iff in H.
  apply String.eqb_eq in H. subst. reflexivity.
Qed.

Lemma similar_branch_run (fastApiUrl : option string) (query : Query) :
  similar_branch fetch_recommend db_select fastApiUrl query (build_conditions query) tt =
  match liked_ids query with
  | [] => (H3.Returned None, tt, [])
  | liked =>
      match fetch_recommend (recommend_url fastApiUrl) liked (limit query) with
      | None =>
          (H3.Returned None, tt, [EvRecommend (recommend_url fastApiUrl) liked (limit query)])
      | Some movieIds =>
          (match db_select (similar_select query movieIds) with
           | Some rows => H3.Returned (Some (respond rows Similar))
           | None => H3.Returned None
           end, tt,
           [EvRecommend (recommend_url fastApiUrl) liked (limit query);
            EvSelect (similar_select query movieIds)])
      end
  end.
Proof.
  unfold similar_branch, liked_ids.
  destruct (mode query); try reflexivity.
  destruct (selectedIds query) as [ids|]; [|reflexivity].
  destruct (non_empty ids) eqn:Hne.
  - destruct (parse_id_list ids) as [|first others]; [reflexivity|].
    unfold H3.try_catch, H3.bind, recommend, select, similar_select.
    destruct (fetch_recommend _ _ _) as [movieIds|]; [|reflexivity].
    simpl. destruct (db_select _); reflexivity.
  - rewrite (parse_id_list_empty_string ids Hne). reflexivity.
Qed.

(** The recommender is asked only in [similar] mode and only when
    [selectedIds] holds at least one id.  In every other case, a
    [selectedIds] of commas only included, the handler runs the one
    database query of the mode (random unless the mode is [popular]) and
    nothing else. *)
Theorem recommender_asked_only_for_similar (fastApiUrl : option string) (query : Query) :
  liked_ids query = [] ->
  movies_run fastApiUrl query tt
  = (match db_select (surviving_select query) with
     | Some rows => H3.Returned (respond rows (surviving_mode query))
     | None => H3.Thrown H3.DatabaseError
     end, tt, [EvSelect (surviving_select query)]).
Proof.
  intros Hnone. unfold handler, H3.bind.
  rewrite similar_branch_run, Hnone, fallback_run. reflexivity.
Qed.

(** In [similar] mode with ids to send and a recommender that answers, the
    handler selects the recommended movies under the common conditions and
    the requested limit.  When that select answers, its rows are returned
    in mode [similar] and no other query is run; when it throws, the error
    is swallowed like a recommender failure and the random query is run
    after it. *)
Theorem similar_mode_with_recommendations (fastApiUrl : option string) (query : Query)
    (movieIds : list Z) :
  liked_ids query <> [] ->
  fetch_recommend (recommend_url fastApiUrl) (liked_ids query) (limit query) = Some movieIds ->
  let asked := EvRecommend (recommend_url fastApiUrl) (liked_ids query) (limit query) in
  (forall rows, db_select (similar_select query movieIds) = Some rows ->
     movies_run fastApiUrl query tt
     = (H3.Returned {| items := rows; count := List.length rows; response_mode := "similar" |},
        tt, [asked; EvSelect (similar_select query movieIds)])) /\
  (db_select (similar_select query movieIds) = None ->
     movies_run fastApiUrl query tt
     = (match db_select (surviving_select query) with
        | Some rows => H3.Returned (respond rows Random)
        | None => H3.Thrown H3.DatabaseError
        end, tt,
        [asked; EvSelect (similar_select query movieIds);
         EvSelect (surviving_select query)])).
Proof.
  intros Hliked Hfetch. cbv zeta.
  assert (mode query = Similar) as Hmode.
  { unfold liked_ids in Hliked. destruct (mode query); try contradiction. reflexivity. }
  unfold handler, H3.bind. rewrite similar_branch_run.
  destruct (liked_ids query) as [|first others] eqn:Hl; [contradiction|].
  cbv beta iota zeta. rewrite Hfetch. split.
  - intros rows Hrows. rewrite Hrows. reflexivity.
  - intros Hthrows. rewrite Hthrows, fallback_run.
    unfold surviving_mode. rewrite Hmode.
    destruct (db_select (surviving_select query)); reflexivity.
Qed.

Lemma handler_outcomes (fastApiUrl : option string) (query : Query) :
  match fst (fst (movies_run fastApiUrl query tt)) with
  | H3.Returned response =>
      count response = List.length (items response) /\
      (response_mode response = mode_name (mode query) \/
       (mode query = Similar /\ response_mode response = "random"))
  | H3.Thrown e =>
      e = H3.DatabaseError /\ db_select (surviving_select query) = None
  end.
Proof.
  unfold handler, H3.bind. rewrite similar_branch_run.
  assert (match fst (fst (fallback db_select query (build_conditions query) tt)) with
          | H3.Returned response =>
              count response = List.length (items response) /\
              (response_mode response = mode_name (mode query) \/
               (mode query = Similar /\ response_mode response = "random"))
          | H3.Thrown e =>
              e = H3.DatabaseError /\ db_select (surviving_select query) = None
          end) as Hfallback.
  { rewrite fallback_run. simpl.
    destruct (db_select (surviving_select query)); [|split; reflexivity].
    simpl. split; [reflexivity|]. unfold surviving_mode.
    destruct (mode query); simpl; auto. }
  destruct (liked_ids query) as [|first others] eqn:Hliked.
  { destruct (fallback db_select query (build_conditions query) tt) as [[out w'] evs].
    exact Hfallback. }
  assert (mode query = Similar) as Hmode.
  { unfold liked_ids in Hliked. destruct (mode query); try discriminate. reflexivity. }
  cbv beta iota zeta.
  destruct (fetch_recommend (recommend_url fastApiUrl) (first :: others) (limit query))
    as [movieIds|].
  - destruct (db_select (similar_select query movieIds)) as [rows|].
    + simpl. split; [reflexivity|]. left. rewrite Hmode. reflexivity.
    + destruct (fallback db_select query (build_conditions query) tt) as [[out w'] evs].
      exact Hfallback.
  - destruct (fallback db_select query (build_conditions query) tt) as [[out w'] evs].
    exact Hfallback.
Qed.

Lemma queryShape_limit (rawQuery : gmap string Js.json) (query : Query) :
  MovieEndpoint.queryShape toNumber rawQuery = Zod.Parsed query ->
  Zod.field rawQuery "limit"
    (Zod.default (MovieEndpoint.z_coerce_number_min_max toNumber 1 50) 20%Q)
  = Zod.Parsed (limit query).
Proof.
  unfold MovieEndpoint.queryShape. intros H.
  repeat (apply ap_Parsed_inv in H as (? & ? & H & ? & ?)).
  injection H as <-. subst. simpl. assumption.
Qed.

Lemma limit_checked (v : option Js.json) (q : Q) :
  Zod.default (MovieEndpoint.z_coerce_number_min_max toNumber 1 50) 20%Q v = inr q ->
  (1 <= q <= 50)%Q /\ (v = None -> q = 20%Q).
Proof.
  unfold Zod.default, MovieEndpoint.z_coerce_number_min_max, MovieEndpoint.z_coerce_number,
    Zod.z_number_min_max.
  destruct v as [j|].
  - destruct (toNumber j) as [n| | |]; try discriminate. cbn [Zod.z_number].
    destruct (Qle_bool 1 n) eqn:Hlo; destruct (Qle_bool n 50) eqn:Hhi; try discriminate.
    cbn [app]. intros [= <-]. apply Qle_bool_iff in Hlo, Hhi.
    split; [split; assumption | discriminate].
  - intros [= <-]. split; [split; discriminate | reflexivity].
Qed.

Lemma limit_refused (j : Js.json) (q : Q) :
  toNumber j = Stats.Finite q -> ~ (1 <= q <= 50)%Q ->
  exists c codes,
    Zod.default (MovieEndpoint.z_coerce_number_min_max toNumber 1 50) 20%Q (Some j) = inl codes /\
    In c codes /\ (c = Zod.TooSmall \/ c = Zod.TooBig).
Proof.
  intros Hj Hout.
  unfold Zod.default, MovieEndpoint.z_coerce_number_min_max, MovieEndpoint.z_coerce_number,
    Zod.z_number_min_max.
  rewrite Hj. cbn [Zod.z_number].
  destruct (Qle_bool 1 q) eqn:Hlo; destruct (Qle_bool q 50) eqn:Hhi; cbn [app].
  - exfalso. apply Hout. split; apply Qle_bool_iff; assumption.
  - exists Zod.TooBig. eexists. split; [reflexivity|]. split; [left; reflexivity | auto].
  - exists Zod.TooSmall. eexists. split; [reflexivity|]. split; [left; reflexivity | auto].
  - exists Zod.TooSmall. eexists. split; [reflexivity|]. split; [left; reflexivity | auto].
Qed.

(** What the endpoint can answer.  A query that [querySchema] refuses is
    answered with the validation error that carries the schema's issues,
    before the recommender or the database is asked; a limit outside 1 to
    50 is such a query.  For a query the schema accepts, the limit lies
    within 1 to 50 and is 20 when the query names none, and the handler
    runs on the parsed query: a response counts the items it carries and
    names the mode that was asked for, or [random] when [similar] was asked
    for and could not be served, and the only error thrown is that of the
    last database query, the one of the requested mode ([similar] counting
    as random): a failure of the recommender never reaches the caller. *)
Theorem movies_handler_outcomes (fastApiUrl : option string)
    (rawQuery : gmap string Js.json) :
  let run := endpoint_run fastApiUrl rawQuery tt in
  match MovieEndpoint.queryShape toNumber rawQuery with
  | Zod.Invalid issues =>
      run = (H3.Thrown (H3.ValidationError issues), tt, [])
  | Zod.Parsed query =>
      (1 <= limit query <= 50)%Q /\
      (rawQuery !! "limit" = None -> limit query = 20%Q) /\
      run = movies_run fastApiUrl query tt /\
      match fst (fst run) with
      | H3.Returned response =>
          count response = List.length (items response) /\
          (response_mode response = mode_name (mode query) \/
           (mode query = Similar /\ response_mode response = "random"))
      | H3.Thrown e =>
          e = H3.DatabaseError /\ db_select (surviving_select query) = None
      end
  end /\
  (forall j q,
     rawQuery !! "limit" = Some j -> toNumber j = Stats.Finite q -> ~ (1 <= q <= 50)%Q ->
     exists issues c,
       run = (H3.Thrown (H3.ValidationError issues), tt, []) /\
       In (Zod.mkIssue "limit" c) issues /\ (c = Zod.TooSmall \/ c = Zod.TooBig)).
Proof.
  cbv zeta. split.
  - unfold MovieEndpoint.endpoint, MovieEndpoint.getValidatedQuery, MovieEndpoint.querySchema,
      Zod.object.
    destruct (MovieEndpoint.queryShape toNumber rawQuery) as [query|issues] eqn:Hparse;
      [|reflexivity].
    pose proof (queryShape_limit rawQuery query Hparse) as Hlimit.
    unfold Zod.field in Hlimit.
    destruct (Zod.default _ 20%Q (rawQuery !! "limit")) as [codes|q] eqn:Hq; [discriminate|].
    injection Hlimit as <-.
    destruct (limit_checked _ _ Hq) as [Hrange Hdefault].
    split; [exact Hrange|]. split; [exact Hdefault|].
    assert (H3.bind (H3.ret query) (fun q0 => movies_run fastApiUrl q0) tt
            = movies_run fastApiUrl query tt) as Hrun.
    { unfold H3.bind, H3.ret. destruct (movies_run fastApiUrl query tt) as [[out w'] evs].
      reflexivity. }
    rewrite Hrun. split; [reflexivity|].
    apply handler_outcomes.
  - intros j q Hj Hnum Hout.
    destruct (limit_refused j q Hnum Hout) as (c & codes & Hcodes & Hin & Hc).
    assert (In (Zod.mkIssue "limit" c)
              (Zod.issues_of (MovieEndpoint.queryShape toNumber rawQuery))) as Hissue.
    { unfold MovieEndpoint.queryShape. rewrite !ap_issues.
      apply List.in_or_app. left. apply List.in_or_app. left. apply List.in_or_app. left.
      apply List.in_or_app. right.
      unfold Zod.field. rewrite Hj, Hcodes. cbn [Zod.issues_of].
      apply List.in_map. exact Hin. }
    destruct (issue_makes_invalid _ _ Hissue) as (issues & Hinvalid & Hin').
    exists issues, c.
    unfold MovieEndpoint.endpoint, MovieEndpoint.getValidatedQuery, MovieEndpoint.querySchema,
      Zod.object.
    rewrite Hinvalid. split; [reflexivity|]. split; assumption.
Qed.

End MoviesPaths.

(** ** The movie-candidate endpoint: id lists and conditions *)

Section IdLists.
Import Movies MovieQueries.

Lemma split_comma_nonempty (s : string) : split_comma s <> [].
Proof.
  destruct s as [|c s]; simpl; [discriminate|].
  destruct (Ascii.eqb c ","); [discriminate|].
  destruct (split_comma s); discriminate.
Qed.

Lemma split_comma_app (a b : string) :
  split_comma (a ++ String "," b) = (split_comma a ++ split_comma b)%list.
Proof.
  induction a as [|c a IH]; simpl; [reflexivity|].
  destruct (Ascii.eqb c ","); simpl.
  - f_equal. exact IH.
  - rewrite IH.
    destruct (split_comma a) as [|h t] eqn:Ha; [|reflexivity].
    exfalso. exact (split_comma_nonempty a Ha).
Qed.

Lemma parse_id_list_joined (x y : string) :
  parse_id_list (x ++ "," ++ y) = (parse_id_list x ++ parse_id_list y)%list.
Proof.
  unfold parse_id_list.
  change (x ++ "," ++ y) with (x ++ String "," y).
  rewrite split_comma_app, List.filter_app, List.map_app. reflexivity.
Qed.

(** The id list of two strings joined by a comma is the id list of the
    first followed by that of the second, whatever the strings hold; so
    empty segments, leading, trailing and doubled commas contribute
    nothing, and a segment that is no number contributes a NaN. *)
Theorem parse_id_list_app (a b : string) :
  parse_id_list (a ++ "," ++ b) = (parse_id_list a ++ parse_id_list b)%list /\
  parse_id_list "" = [] /\
  parse_id_list ("," ++ b) = parse_id_list b /\
  parse_id_list (a ++ ",") = parse_id_list a.
Proof.
  split; [apply parse_id_list_joined|]. split; [reflexivity|]. split.
  - apply (parse_id_list_joined "" b).
  - change (a ++ ",") with (a ++ "," ++ ""). rewrite parse_id_list_joined. apply app_nil_r.
Qed.

Lemma split_comma_comma_free (s : string) : comma_free s -> split_comma s = [s].
Proof.
  unfold comma_free. induction s as [|c s IH]; simpl; [reflexivity|].
  intros H. inversion H as [|? ? Hc Hs]; subst.
  rewrite Hc, (IH Hs). reflexivity.
Qed.

Lemma parse_id_list_segment (s : string) :
  comma_free s -> s <> "" -> parse_id_list s = [parseInt10 s].
Proof.
  intros Hfree Hne. unfold parse_id_list.
  rewrite (split_comma_comma_free s Hfree). simpl.
  unfold non_empty. destruct (String.eqb_spec s ""); [contradiction | reflexivity].
Qed.

(** *** Decimal numerals *)

Lemma read_digits_uint (u : Decimal.uint) (acc : nat) :
  read_digits (NilEmpty.string_of_uint u) (Some (Z.of_nat acc))
  = Some (Z.of_nat (Nat.of_uint_acc u acc)).
Proof.
  revert acc. induction u; intros acc; simpl; [reflexivity| ..];
    match goal with
    | |- read_digits _ (Some ?z) = Some (Z.of_nat (Nat.of_uint_acc _ ?n)) =>
        replace z with (Z.of_nat n) by (rewrite ?Nat.tail_mul_spec; lia)
    end; apply IHu.
Qed.

Lemma read_digits_uint_start (u : Decimal.uint) :
  u <> Decimal.Nil ->
  read_digits (NilEmpty.string_of_uint u) None = Some (Z.of_nat (Nat.of_uint u)).
Proof.
  intros Hu. unfold Nat.of_uint.
  destruct u; [contradiction| ..]; simpl;
    match goal with
    | |- read_digits _ (Some ?z) = Some (Z.of_nat (Nat.of_uint_acc _ ?n)) =>
        replace z with (Z.of_nat n) by (rewrite ?Nat.tail_mul_spec; lia)
    end; apply read_digits_uint.
Qed.

(** No white space starts with a digit. *)
Lemma skip_space_digit (c : ascii) (rest : string) (d : Z) :
  digit_of c = Some d -> skip_space (String c rest) = String c rest.
Proof.
  intros Hd.
  assert (is_space (String c "") = false /\
          (forall b, is_space (String c (String b "")) = false) /\
          (forall b e, is_space (String c (String b (String e ""))) = false))
    as (H1 & H2 & H3).
  { destruct c as [[] [] [] [] [] [] [] []]; cbv in Hd; try discriminate Hd;
      repeat split; intros; reflexivity. }
  cbn [skip_space]. rewrite H1.
  destruct rest as [|b [|e s3]];
    [reflexivity | rewrite H2; reflexivity | rewrite H2, H3; reflexivity].
Qed.

Lemma leading_integer_uint (u : Decimal.uint) :
  u <> Decimal.Nil ->
  leading_integer (NilEmpty.string_of_uint u) = Some (Z.of_nat (Nat.of_uint u)).
Proof.
  intros Hu. rewrite <- (read_digits_uint_start u Hu).
  destruct u; [contradiction| ..]; unfold leading_integer; cbn [NilEmpty.string_of_uint];
    erewrite skip_space_digit by reflexivity; reflexivity.
Qed.

Lemma uint_comma_free (u : Decimal.uint) : comma_free (NilEmpty.string_of_uint u).
Proof.
  unfold comma_free. induction u; simpl; constructor; first [reflexivity | assumption].
Qed.

Lemma to_little_uint_nonnil (n : nat) (acc : Decimal.uint) :
  acc <> Decimal.Nil -> Nat.to_little_uint n acc <> Decimal.Nil.
Proof.
  revert acc. induction n as [|n IH]; intros acc Hacc; simpl; [exact Hacc|].
  apply IH. destruct acc; discriminate.
Qed.

Lemma to_uint_nonnil (n : nat) : Nat.to_uint n <> Decimal.Nil.
Proof.
  unfold Nat.to_uint. intros H. apply DecimalFacts.rev_nil_inv in H.
  revert H. apply to_little_uint_nonnil. discriminate.
Qed.

Lemma parseInt10_number (n : nat) :
  (Z.of_nat n <= Double.MAX_SAFE_INTEGER)%Z ->
  parseInt10 (Card.String_of_number n) = Some (Z.of_nat n).
Proof.
  intros Hsafe. unfold parseInt10, Card.String_of_number.
  rewrite (leading_integer_uint _ (to_uint_nonnil n)), Unsigned.of_to.
  apply of_integer_safe. lia.
Qed.

Lemma number_is_a_segment (n : nat) :
  comma_free (Card.String_of_number n) /\ Card.String_of_number n <> "".
Proof.
  split; [apply uint_comma_free|].
  unfold Card.String_of_number. pose proof (to_uint_nonnil n) as Hn.
  destruct (Nat.to_uint n); [contradiction| ..]; discriminate.
Qed.

(** Ids survive the trip through the query string.  For ids that
    JavaScript numbers hold exactly (non-negative integers up to
    [Number.MAX_SAFE_INTEGER]), the handler reads out of the comma-joined
    decimal numerals of a list of ids exactly those ids, in order, with no
    NaN among them; the card's [String(id)] of such an id is read back by
    [parseInt] as the id. *)
Theorem id_list_round_trip (ids : list nat) :
  List.Forall (fun n => (Z.of_nat n <= Double.MAX_SAFE_INTEGER)%Z) ids ->
  parse_id_list (join_ids ids) = List.map (fun n => Some (Z.of_nat n)) ids /\
  (forall n, In n ids ->
     parseInt10 (Card.content_id (Card.MoviePick n)) = Some (Z.of_nat n)).
Proof.
  intros Hsafe. split.
  2:{ intros n Hn. apply parseInt10_number.
      rewrite List.Forall_forall in Hsafe. apply Hsafe. exact Hn. }
  unfold join_ids. induction Hsafe as [|n ids Hn Hsafe IH]; [reflexivity|].
  destruct (number_is_a_segment n) as [Hfree Hne].
  destruct ids as [|n' ids].
  - simpl. rewrite (parse_id_list_segment _ Hfree Hne), (parseInt10_number _ Hn).
    reflexivity.
  - change (String.concat "," (List.map Card.String_of_number (n :: n' :: ids)))
      with (Card.String_of_number n ++ "," ++
            String.concat "," (List.map Card.String_of_number (n' :: ids))).
    rewrite parse_id_list_joined, IH, (parse_id_list_segment _ Hfree Hne),
      (parseInt10_number _ Hn).
    reflexivity.
Qed.

End IdLists.

Lemma id_list_round_trip_witness :
  Movies.parse_id_list (MovieQueries.join_ids [10; 0; 4711]%nat)
  = [Some 10%Z; Some 0%Z; Some 4711%Z].
Proof.
  apply (id_list_round_trip [10; 0; 4711]%nat).
  repeat constructor; vm_compute; discriminate.
Defined.

Example id_list_of_three :
  MovieQueries.join_ids [10; 0; 4711]%nat = "10,0,4711" /\
  Movies.parse_id_list "10,0,4711" = [Some 10%Z; Some 0%Z; Some 4711%Z].
Proof. split; vm_compute; reflexivity. Qed.

(** Above [Number.MAX_SAFE_INTEGER] an id is read as the nearest number. *)
Example id_beyond_the_safe_integers :
  Movies.parse_id_list "9007199254740993" = [Some 9007199254740992%Z].
Proof. vm_compute. reflexivity. Qed.

Section Conditions.
Import Movies MovieQueries.

(** One step of [skip_space]: nothing is skipped, or one white-space
    character is. *)
Lemma skip_space_step (s : string) :
  skip_space s = s \/
  exists w rest, In w white_space /\ s = w ++ rest /\ skip_space s = skip_space rest.
Proof.
  assert (forall w, is_space w = true -> In w white_space) as Hin.
  { intros w Hw. unfold is_space in Hw. apply List.existsb_exists in Hw as (w' & Hw' & Heq).
    apply String.eqb_eq in Heq. subst. exact Hw'. }
  destruct s as [|a s1]; [left; reflexivity|]. cbn [skip_space].
  destruct (is_space (String a "")) eqn:H1.
  { right. exists (String a ""), s1. auto. }
  destruct s1 as [|b s2]; [left; reflexivity|].
  destruct (is_space (String a (String b ""))) eqn:H2.
  { right. exists (String a (String b "")), s2. auto. }
  destruct s2 as [|c s3]; [left; reflexivity|].
  destruct (is_space (String a (String b (String c "")))) eqn:H3.
  { right. exists (String a (String b (String c ""))), s3. auto. }
  left. reflexivity.
Qed.

Lemma white_space_nonempty (w : string) : In w white_space -> (0 < String.length w)%nat.
Proof.
  intros Hw. unfold white_space in Hw. cbn in Hw.
  repeat (destruct Hw as [<- | Hw]; [cbn; lia|]). contradiction.
Qed.

Lemma skip_space_white (w rest : string) :
  In w white_space -> skip_space (w ++ rest) = skip_space rest.
Proof.
  intros Hw. unfold white_space in Hw. cbn in Hw.
  repeat (destruct Hw as [<- | Hw]; [reflexivity|]). contradiction.
Qed.

Lemma skip_space_blank (s : string) : blank s -> skip_space s = "".
Proof.
  induction 1 as [|w s Hw _ IH]; [reflexivity|].
  rewrite (skip_space_white w s Hw). exact IH.
Qed.

Lemma app_length (a b : string) :
  String.length (a ++ b) = (String.length a + String.length b)%nat.
Proof. induction a as [|c a IH]; simpl; [reflexivity | rewrite IH; reflexivity]. Qed.

(** What [skip_space] returns starts with no white space, and it returns
    nothing only of a blank string. *)
Lemma skip_space_done (s : string) :
  skip_space (skip_space s) = skip_space s /\ (skip_space s = "" -> blank s).
Proof.
  remember (String.length s) as n eqn:Hn. revert s Hn.
  induction n as [n IH] using lt_wf_ind. intros s ->.
  destruct (skip_space_step s) as [Hsame | (w & rest & Hw & -> & Hskip)].
  - rewrite !Hsame. split; [reflexivity|]. intros ->. constructor.
  - rewrite Hskip.
    destruct (IH (String.length rest)) with (s := rest) as [Hidem Hblank];
      [|reflexivity|].
    { rewrite app_length. pose proof (white_space_nonempty w Hw). lia. }
    split; [exact Hidem|]. intros Hnil. constructor; [exact Hw | apply Hblank; exact Hnil].
Qed.

(** Trimming leaves nothing exactly of a blank string. *)
Lemma trim_blank_iff (s : string) : trim s = "" <-> blank s.
Proof.
  unfold trim. destruct (skip_space_done s) as [Hidem Hblank]. split.
  - intros Hnil. apply Hblank.
    remember (skip_space s) as t eqn:Ht. clear Ht Hblank.
    destruct t as [|a rest]; [reflexivity|].
    cbn [skip_space_end] in Hnil. rewrite Hidem in Hnil. discriminate.
  - intros H. rewrite (skip_space_blank s H). reflexivity.
Qed.

Lemma non_empty_iff (s : string) : non_empty s = true <-> s <> "".
Proof.
  unfold non_empty. destruct (String.eqb_spec s ""); simpl; split; congruence.
Qed.

Lemma truthy_num_iff (x : option Q) :
  Js.truthy_num x = true <-> exists q, x = Some q /\ ~ (q == 0)%Q.
Proof.
  destruct x as [q|]; simpl.
  - destruct (Qeq_bool q 0) eqn:Hq; simpl.
    + apply Qeq_bool_iff in Hq. split; [discriminate|].
      intros (q' & [= <-] & Hnz). contradiction.
    + split; [|reflexivity]. intros _. exists q. split; [reflexivity|].
      intros Hz. apply Qeq_bool_iff in Hz. congruence.
  - split; [discriminate|]. intros (q & H & _). discriminate.
Qed.

(** The four pieces the conditions are assembled from. *)
Lemma build_conditions_pieces (query : Query) :
  exists lower upper title excluded,
    build_conditions query = (lower ++ upper ++ title ++ excluded)%list /\
    (forall c, In c lower <->
       exists y, c = GteYear y /\ yearStart query = Some y /\ ~ (y == 0)%Q) /\
    (forall c, In c upper <->
       exists y, c = LteYear y /\ yearEnd query = Some y /\ ~ (y == 0)%Q) /\
    (forall c, In c title <->
       exists s, c = IlikeTitle ("%" ++ trim s ++ "%") /\
                 search query = Some s /\ trim s <> "") /\
    (forall c, In c excluded <->
       exists ids, c = NotInArrayId (parse_id_list ids) /\
                   excludeIds query = Some ids /\ parse_id_list ids <> []) /\
    (List.length lower <= 1 /\ List.length upper <= 1 /\
     List.length title <= 1 /\ List.length excluded <= 1)%nat.
Proof.
  unfold build_conditions. eexists _, _, _, _. split; [reflexivity|].
  split; [|split; [|split; [|split]]].
  - intros c. destruct (Js.truthy_num (yearStart query)) eqn:Ht.
    + apply truthy_num_iff in Ht as (y & Hy & Hnz). rewrite Hy. simpl. split.
      * intros [<- | []]. exists y. auto.
      * intros (y' & -> & [= <-] & _). left. reflexivity.
    + simpl. split; [contradiction|]. intros (y & _ & Hy & Hnz).
      assert (Js.truthy_num (yearStart query) = true) by (apply truthy_num_iff; eauto).
      congruence.
  - intros c. destruct (Js.truthy_num (yearEnd query)) eqn:Ht.
    + apply truthy_num_iff in Ht as (y & Hy & Hnz). rewrite Hy. simpl. split.
      * intros [<- | []]. exists y. auto.
      * intros (y' & -> & [= <-] & _). left. reflexivity.
    + simpl. split; [contradiction|]. intros (y & _ & Hy & Hnz).
      assert (Js.truthy_num (yearEnd query) = true) by (apply truthy_num_iff; eauto).
      congruence.
  - intros c. destruct (search query) as [s|].
    + destruct (non_empty s) eqn:Hs; simpl.
      * destruct (non_empty (trim s)) eqn:Hts; simpl.
        -- apply non_empty_iff in Hts. split.
           ++ intros [<- | []]. exists s. auto.
           ++ intros (s' & -> & [= <-] & _). left. reflexivity.
        -- split; [contradiction|]. intros (s' & _ & [= <-] & Hne).
           apply non_empty_iff in Hne. congruence.
      * split; [contradiction|]. intros (s' & _ & [= <-] & Hne).
        assert (s = "") as -> by
          (unfold non_empty in Hs; apply negb_false_iff in Hs;
           apply String.eqb_eq; exact Hs).
        apply Hne. reflexivity.
    + split; [contradiction|]. intros (s & _ & H & _). discriminate.
  - intros c. destruct (excludeIds query) as [ids|].
    + destruct (non_empty ids) eqn:Hne.
      * destruct (parse_id_list ids) as [|first others] eqn:Hl; simpl.
        -- split; [contradiction|]. intros (ids' & _ & [= <-] & Habs). congruence.
        -- split.
           ++ intros [<- | []]. exists ids. rewrite Hl. repeat split. discriminate.
           ++ intros (ids' & -> & [= <-] & _). rewrite Hl. left. reflexivity.
      * simpl. split; [contradiction|]. intros (ids' & _ & [= <-] & Habs).
        unfold non_empty in Hne. apply negb_false_iff in Hne.
        apply String.eqb_eq in Hne. subst. apply Habs. reflexivity.
    + split; [contradiction|]. intros (ids & _ & H & _). discriminate.
  - repeat split.
    + destruct (Js.truthy_num (yearStart query)); [destruct (yearStart query)|]; simpl; lia.
    + destruct (Js.truthy_num (yearEnd query)); [destruct (yearEnd query)|]; simpl; lia.
    + destruct (search query) as [s|]; [|simpl; lia].
      destruct (non_empty s && non_empty (trim s))%bool; simpl; lia.
    + destruct (excludeIds query) as [ids|]; [|simpl; lia].
      destruct (non_empty ids); [|simpl; lia].
      destruct (parse_id_list ids); simpl; lia.
Qed.

(** Filters that cannot be used are dropped, not refused.  The conditions
    hold a lower (upper) year bound exactly for a [yearStart] ([yearEnd])
    other than 0, a title pattern exactly for a search string that is not
    blank, that is, not made of white-space characters only (the pattern is
    the trimmed string between two [%]), and an exclusion exactly for an
    [excludeIds] that holds at least one segment; at most four conditions
    result, and never one on the recommended ids.  So a year of 0, a blank
    search and an [excludeIds] of commas filter nothing. *)
Theorem conditions_come_from_usable_filters (query : Query) :
  let conditions := build_conditions query in
  (forall y, In (GteYear y) conditions <-> yearStart query = Some y /\ ~ (y == 0)%Q) /\
  (forall y, In (LteYear y) conditions <-> yearEnd query = Some y /\ ~ (y == 0)%Q) /\
  (forall p, In (IlikeTitle p) conditions <->
     exists s, search query = Some s /\ ~ blank s /\ p = "%" ++ trim s ++ "%") /\
  (forall l, In (NotInArrayId l) conditions <->
     exists ids, excludeIds query = Some ids /\ parse_id_list ids = l /\ l <> []) /\
  (forall l, ~ In (InArrayId l) conditions) /\
  (List.length conditions <= 4)%nat /\
  (forall s, search query = Some s -> blank s -> forall p, ~ In (IlikeTitle p) conditions).
Proof.
  cbv zeta.
  destruct (build_conditions_pieces query)
    as (lower & upper & title & excluded & -> & Hlower & Hupper & Htitle & Hexcluded & Hlen).
  assert (forall c, In c (lower ++ upper ++ title ++ excluded)%list <->
                    In c lower \/ In c upper \/ In c title \/ In c excluded) as Hin.
  { intros c. rewrite !in_app_iff. reflexivity. }
  assert (forall p, In (IlikeTitle p) (lower ++ upper ++ title ++ excluded)%list <->
     exists s, search query = Some s /\ ~ blank s /\ p = "%" ++ trim s ++ "%") as Hpattern.
  { intros p. rewrite Hin, Hlower, Hupper, Htitle, Hexcluded. split.
    - intros [(y & H & _) | [(y & H & _) | [(s & [= ->] & Hs & Hne) | (i & H & _)]]];
        try discriminate. exists s. rewrite <- trim_blank_iff. auto.
    - intros (s & Hs & Hne & ->). right. right. left. exists s.
      rewrite <- trim_blank_iff in Hne. auto. }
  repeat apply conj.
  - intros y. rewrite Hin, Hlower, Hupper, Htitle, Hexcluded. split.
    + intros [(y' & [= <-] & H) | [(y' & H & _) | [(s & H & _) | (i & H & _)]]];
        try discriminate. exact H.
    + intros H. left. exists y. split; [reflexivity | exact H].
  - intros y. rewrite Hin, Hlower, Hupper, Htitle, Hexcluded. split.
    + intros [(y' & H & _) | [(y' & [= <-] & H) | [(s & H & _) | (i & H & _)]]];
        try discriminate. exact H.
    + intros H. right. left. exists y. split; [reflexivity | exact H].
  - exact Hpattern.
  - intros l. rewrite Hin, Hlower, Hupper, Htitle, Hexcluded. split.
    + intros [(y' & H & _) | [(y' & H & _) | [(s & H & _) | (i & [= ->] & Hi & Hne)]]];
        try discriminate. exists i. auto.
    + intros (i & Hi & <- & Hne). right. right. right. exists i. auto.
  - intros l. rewrite Hin, Hlower, Hupper, Htitle, Hexcluded.
    intros [(y' & H & _) | [(y' & H & _) | [(s & H & _) | (i & H & _)]]]; discriminate.
  - rewrite !length_app. lia.
  - intros s Hs Hblank p Hp. apply Hpattern in Hp as (s' & Hs' & Hne & _).
    rewrite Hs in Hs'. injection Hs' as <-. apply Hne. exact Hblank.
Qed.

End Conditions.

Example unusable_filters_are_dropped :
  Movies.build_conditions
    {| Movies.yearStart := Some 0%Q; Movies.yearEnd := Some (1999 # 1);
       Movies.search := Some "   "; Movies.limit := 20 # 1;
       Movies.excludeIds := Some ",,"; Movies.mode := Movies.Random;
       Movies.selectedIds := None |}
  = [Movies.LteYear (1999 # 1)].
Proof. vm_compute. reflexivity. Qed.

(** A no-break space is white space like any other: a search of one filters
    nothing, and white space of several bytes is trimmed off a title. *)
Example no_break_space_is_white_space :
  Movies.build_conditions
    {| Movies.yearStart := None; Movies.yearEnd := None;
       Movies.search := Some (Movies.utf8 [194; 160]%N); Movies.limit := 20 # 1;
       Movies.excludeIds := None; Movies.mode := Movies.Random;
       Movies.selectedIds := None |}
  = [] /\
  Movies.trim (Movies.utf8 [194; 160; 32]%N ++ "Up in the Air" ++ Movies.utf8 [227; 128; 128; 10]%N)
  = "Up in the Air".
Proof. split; vm_compute; reflexivity. Qed.

(** [?mode=popular&limit=0] is refused before any query runs, and
    [?mode=popular&selectedIds=10,20&limit=5] is accepted as it reads. *)
Example limit_zero_is_a_bad_request :
  MovieEndpoint.endpoint MoreFixtures.number_of_digits MoreFixtures.recommender_up
    Fixtures.db_two_rows None MoreFixtures.limit_zero tt
  = (H3.Thrown (H3.ValidationError
       [ {| Zod.issue_path := "limit"; Zod.issue_code := Zod.TooSmall |} ]), tt, []) /\
  MovieEndpoint.queryShape MoreFixtures.number_of_digits MoreFixtures.popular_raw
  = Zod.Parsed MoreFixtures.popular_query.
Proof. split; vm_compute; reflexivity. Qed.

Lemma recommender_asked_only_for_similar_witness :
  Movies.handler MoreFixtures.recommender_up Fixtures.db_two_rows None
    MoreFixtures.popular_query tt
  = (H3.Returned {| Movies.items := Fixtures.two_rows; Movies.count := 2;
                    Movies.response_mode := "popular" |},
     tt,
     [Movies.EvSelect {| Movies.where_ := []; Movies.orderBy := Movies.RatingCountDesc;
                         Movies.row_limit := 5 # 1 |}]).
Proof.
  apply (recommender_asked_only_for_similar MoreFixtures.recommender_up Fixtures.db_two_rows
           None MoreFixtures.popular_query).
  reflexivity.
Defined.

Lemma similar_mode_with_recommendations_witness :
  Movies.handler MoreFixtures.recommender_up Fixtures.db_two_rows None
    Fixtures.similar_query tt
  = (H3.Returned {| Movies.items := Fixtures.two_rows; Movies.count := 2;
                    Movies.response_mode := "similar" |},
     tt,
     [Movies.EvRecommend "http://localhost:8000/movies/recommend"
        [Some 10%Z; Some 20%Z] (5 # 1);
      Movies.EvSelect
        {| Movies.where_ := [Movies.InArrayId [3%Z; 1%Z]; Movies.GteYear (1990 # 1)];
           Movies.orderBy := Movies.Unordered; Movies.row_limit := 5 # 1 |}]).
Proof.
  destruct (similar_mode_with_recommendations MoreFixtures.recommender_up
              Fixtures.db_two_rows None Fixtures.similar_query [3%Z; 1%Z])
    as [Hrows _].
  - vm_compute. discriminate.
  - reflexivity.
  - apply (Hrows Fixtures.two_rows). reflexivity.
Defined.

(** ** The dashboard page and the preferences it fetches *)

(** What the dashboard shows for the preferences the handler returns.  Once
    the fetch has succeeded, the onboarding notice is shown exactly when
    the user has no preferences row or a row without a completion time, and
    the recommendation card exactly when the row has a completion time and
    puts the user in the treatment group; before the fetch has succeeded
    the notice is not shown, and without data the card is not shown. *)
Theorem dashboard_shows_card_to_treatment_group (fullYear : Z)
    (row : option Preferences.Prefs) (status : Dashboard.FetchStatus) :
  let data := Some (Preferences.handler fullYear row) in
  (Dashboard.needsOnboarding Dashboard.Success data = true <->
   row = None \/ exists p, row = Some p /\ Preferences.onboardingCompletedAt p = None) /\
  (Dashboard.shows_card Dashboard.Success data = true <->
   exists p t, row = Some p /\ Preferences.onboardingCompletedAt p = Some t /\
               Preferences.experimentGroup p = "treatment") /\
  (status <> Dashboard.Success -> Dashboard.needsOnboarding status data = false) /\
  Dashboard.shows_card status None = false.
Proof.
  cbv zeta. unfold Dashboard.shows_card, Dashboard.needsOnboarding, Dashboard.isTreatmentGroup.
  split; [|split; [|split]].
  - destruct row as [p|]; simpl.
    + destruct (Preferences.onboardingCompletedAt p) as [t|] eqn:Ht; simpl.
      * split; [discriminate|]. intros [H | (p' & [= <-] & H)]; congruence.
      * split; [|reflexivity]. intros _. right. exists p. auto.
    + split; [|reflexivity]. intros _. left. reflexivity.
  - destruct row as [p|]; simpl.
    + destruct (Preferences.onboardingCompletedAt p) as [t|] eqn:Ht; simpl.
      * destruct (String.eqb_spec (Preferences.experimentGroup p) "treatment") as [He | He].
        -- split; [|reflexivity]. intros _. exists p, t. auto.
        -- split; [discriminate|]. intros (p' & t' & [= <-] & _ & H). contradiction.
      * split; [discriminate|]. intros (p' & t' & [= <-] & H & _). congruence.
    + split; [discriminate|]. intros (p' & t' & H & _). discriminate.
  - intros Hstatus. destruct status; try reflexivity. contradiction.
  - destruct status; reflexivity.
Qed.
